(** * VoiceDo: the task store and the link store

    A shallow embedding of the data-management code of the application
    (the [Todos] module of todos.js, the [Links] module of links.js, the
    helper of storage.js, the speech module and the theme switch):
    JavaScript strings are sequences of UTF-16 code units, the stores are
    explicit states threaded through their operations, every call of
    [Storage.set] is recorded in a write log, and a call of the link
    store ends by returning or by throwing, with the state it leaves. *)

From Stdlib Require Import ZArith NArith String Ascii List Bool Lia Permutation Sorted.
From Stdlib Require Import DecimalString.
From stdpp Require Import gmap strings list fin_maps.
Import ListNotations.

Local Open Scope Z_scope.

(* ===================================================================== *)
(** ** JavaScript strings *)
(* ===================================================================== *)

Module JS.

(** A JavaScript string is a finite sequence of 16-bit code units. *)
Abbreviation jsstring := (list N).

(** An ASCII literal of the source, as code units. *)
Definition lit (s : string) : jsstring :=
  List.map N_of_ascii (list_ascii_of_string s).

(** Strict equality [a === b] of two strings. *)
Definition jseqb (a b : jsstring) : bool := bool_decide (a = b).

(** Truthiness of a string: only the empty string is falsy. *)
Definition truthy_str (s : jsstring) : bool :=
  match s with [] => false | _ :: _ => true end.

(** WhiteSpace and LineTerminator code units: what [String.prototype.trim]
    strips and what the class [\s] matches. *)
Definition is_space (c : N) : bool :=
  ((9 <=? c) && (c <=? 13) || (c =? 32) || (c =? 160) || (c =? 5760)
   || (8192 <=? c) && (c <=? 8202) || (c =? 8232) || (c =? 8233)
   || (c =? 8239) || (c =? 8287) || (c =? 12288) || (c =? 65279))%N.

Fixpoint trimStart (s : jsstring) : jsstring :=
  match s with
  | c :: s' => if is_space c then trimStart s' else s
  | [] => []
  end.

Definition trimEnd (s : jsstring) : jsstring := rev (trimStart (rev s)).

(** [s.trim()] *)
Definition trim (s : jsstring) : jsstring := trimEnd (trimStart s).

(** A string that is empty or consists only of whitespace. *)
Definition blank (s : jsstring) : Prop := Forall (fun c => is_space c = true) s.

(** *** Character classes *)

Definition is_digit (c : N) : bool := ((48 <=? c) && (c <=? 57))%N.
Definition is_upper (c : N) : bool := ((65 <=? c) && (c <=? 90))%N.
Definition is_lower (c : N) : bool := ((97 <=? c) && (c <=? 122))%N.

(** [\w], which is also the set [\b] consults. *)
Definition is_word (c : N) : bool :=
  is_upper c || is_lower c || is_digit c || (c =? 95)%N.

(** Upper-casing of one code unit, ASCII letters only.  For the [i] flag
    without the [u] flag a code unit outside ASCII never canonicalises to
    an ASCII one, so against the ASCII patterns of the source this is the
    whole of [Canonicalize]. *)
Definition upper (c : N) : N := if is_lower c then (c - 32)%N else c.

(** *** A backtracking matcher for the regular expressions of the source *)

Inductive regex : Type :=
| Eps                         (* the empty pattern *)
| Chr (c : N)                 (* a pattern character *)
| Cls (p : N -> bool)         (* a class: \w, \s, \d, [-_] *)
| PlusCls (p : N -> bool)     (* a class under +, greedy *)
| Seq (r1 r2 : regex)
| Alt (r1 r2 : regex)
| Opt (r : regex)             (* r?, greedy *)
| Bol                         (* ^ *)
| Eol                         (* $ *)
| WordB.                      (* \b *)

(** Concatenation of the characters of an ASCII literal. *)
Fixpoint chars (s : jsstring) : regex :=
  match s with
  | [] => Eps
  | c :: s' => Seq (Chr c) (chars s')
  end.

Definition word_opt (o : option N) : bool :=
  match o with Some c => is_word c | None => false end.

Section Matcher.
(** The [i] flag. *)
Variable ignoreCase : bool.

Definition chr_eq (pat x : N) : bool :=
  if ignoreCase then (upper pat =? upper x)%N else (pat =? x)%N.

(** The greedy loop of [p+] after its first character: take as many as
    possible, give one back at a time. [prev] is the last code unit
    consumed. *)
Fixpoint plus_loop {X} (p : N -> bool) (k : option N -> jsstring -> option X)
    (prev : N) (s : jsstring) : option X :=
  match s with
  | x :: s' =>
      if p x then
        match plus_loop p k x s' with
        | Some r => Some r
        | None => k (Some prev) s
        end
      else k (Some prev) s
  | [] => k (Some prev) []
  end.

(** [m r prev s k]: match [r] at the position whose preceding code unit
    is [prev] and whose remaining input is [s]; [k] is the rest of the
    pattern.  The first success in backtracking order is returned. *)
Fixpoint m {X} (r : regex) (prev : option N) (s : jsstring)
    (k : option N -> jsstring -> option X) : option X :=
  match r with
  | Eps => k prev s
  | Chr c =>
      match s with
      | x :: s' => if chr_eq c x then k (Some x) s' else None
      | [] => None
      end
  | Cls p =>
      match s with
      | x :: s' => if p x then k (Some x) s' else None
      | [] => None
      end
  | PlusCls p =>
      match s with
      | x :: s' => if p x then plus_loop p k x s' else None
      | [] => None
      end
  | Seq r1 r2 => m r1 prev s (fun prev' s' => m r2 prev' s' k)
  | Alt r1 r2 =>
      match m r1 prev s k with
      | Some r => Some r
      | None => m r2 prev s k
      end
  | Opt r1 =>
      match m r1 prev s k with
      | Some r => Some r
      | None => k prev s
      end
  | Bol => match prev with None => k prev s | Some _ => None end
  | Eol => match s with [] => k prev s | _ :: _ => None end
  | WordB =>
      if xorb (word_opt prev) (word_opt (head s)) then k prev s else None
  end.

(** The input left after the first match of [r] at this position. *)
Definition match_here (r : regex) (prev : option N) (s : jsstring)
  : option jsstring :=
  m r prev s (fun _ s' => Some s').

(** [r.test(s)] for a regular expression without [g] or [y]: try every
    start position from the left. *)
Fixpoint search (r : regex) (prev : option N) (s : jsstring) : bool :=
  match match_here r prev s with
  | Some _ => true
  | None =>
      match s with
      | x :: s' => search r (Some x) s'
      | [] => false
      end
  end.

Definition test (r : regex) (s : jsstring) : bool := search r None s.

(** [s.replace(r, repl)] for [r] with the [g] flag and a replacement
    text without [$]: scan from the left, replace each match, resume
    after it.  [skip] counts the code units of the current match that
    are still to be dropped. *)
Fixpoint replace_go (r : regex) (repl : jsstring) (skip : nat)
    (prev : option N) (s : jsstring) : jsstring :=
  match s with
  | [] =>
      match skip with
      | O => match match_here r prev [] with Some _ => repl | None => [] end
      | S _ => []
      end
  | x :: s' =>
      match skip with
      | S n => replace_go r repl n (Some x) s'
      | O =>
          match match_here r prev s with
          | Some rest =>
              match (length s - length rest)%nat with
              | O => repl ++ x :: replace_go r repl O (Some x) s'
              | S n => repl ++ replace_go r repl n (Some x) s'
              end
          | None => x :: replace_go r repl O (Some x) s'
          end
      end
  end.

Definition replace_all (r : regex) (repl : jsstring) (s : jsstring) : jsstring :=
  replace_go r repl O None s.

(** [s.replace(r, repl)] for [r] without the [g] flag and anchored at
    the start by [^]: only position 0 can match. *)
Definition replace_anchored (r : regex) (repl : jsstring) (s : jsstring) : jsstring :=
  match match_here r None s with
  | Some rest => repl ++ rest
  | None => s
  end.
End Matcher.

(** *** [encodeURIComponent] *)

Definition uri_unreserved (c : N) : bool :=
  is_upper c || is_lower c || is_digit c
  || existsb (N.eqb c) (lit "-_.!~*'()").

Definition hex_digit (d : N) : N := (if d <? 10 then 48 + d else 55 + d)%N.

(** One octet as [%XX], upper-case hexadecimal. *)
Definition pct (b : N) : jsstring := [37; hex_digit (b / 16); hex_digit (b mod 16)]%N.

(** The UTF-8 octets of a code point. *)
Definition utf8 (cp : N) : list N :=
  (if cp <? 128 then [cp]
   else if cp <? 2048 then [192 + cp / 64; 128 + cp mod 64]
   else if cp <? 65536 then
     [224 + cp / 4096; 128 + (cp / 64) mod 64; 128 + cp mod 64]
   else
     [240 + cp / 262144; 128 + (cp / 4096) mod 64;
      128 + (cp / 64) mod 64; 128 + cp mod 64])%N.

Definition is_lead (c : N) : bool := ((55296 <=? c) && (c <=? 56319))%N.
Definition is_trail (c : N) : bool := ((56320 <=? c) && (c <=? 57343))%N.

(** [encodeURIComponent(s)]; [None] is the [URIError] thrown on a lone
    surrogate. *)
Fixpoint encodeURIComponent (s : jsstring) : option jsstring :=
  match s with
  | [] => Some []
  | c :: s' =>
      if uri_unreserved c then
        match encodeURIComponent s' with Some r => Some (c :: r) | None => None end
      else if is_trail c then None
      else if is_lead c then
        match s' with
        | d :: s'' =>
            if is_trail d then
              let cp := ((c - 55296) * 1024 + (d - 56320) + 65536)%N in
              match encodeURIComponent s'' with
              | Some r => Some (flat_map pct (utf8 cp) ++ r)
              | None => None
              end
            else None
        | [] => None
        end
      else
        match encodeURIComponent s' with
        | Some r => Some (flat_map pct (utf8 c) ++ r)
        | None => None
        end
  end.

(** [s.split(sep)] for a one-character separator. *)
Fixpoint split (sep : N) (s : jsstring) : list jsstring :=
  match s with
  | [] => [[]]
  | x :: s' =>
      if (x =? sep)%N then [] :: split sep s'
      else match split sep s' with
           | h :: t => (x :: h) :: t
           | [] => [[x]]
           end
  end.

(** Decimal text of an integer, as a template literal prints a number. *)
Definition dec (z : Z) : jsstring := lit (NilZero.string_of_int (Z.to_int z)).

End JS.

Import JS.

(* ===================================================================== *)
(** ** The persistence adapter *)
(* ===================================================================== *)

Module Storage.

(** [Storage.set(key, value)] of storage.js:
    [try { localStorage.setItem(key, JSON.stringify(value)) } catch (e) { ... }].
    It hands the serialized [value] to [localStorage] and returns normally
    whether or not the item is accepted: a refusal (the quota) is caught
    and only reported on the console.  Each store writes under its own
    key; the model keeps, per store, the sequence of values handed over,
    newest first, so an entry of the log is a call of [save()], not a
    proof that the item reached the disk.  What [localStorage] holds after
    a call, and [Storage.get], are in [StorageAdapter] below; for the
    stores the result of [Storage.get(key, [])] is an argument of
    [load]. *)
Definition set {V : Type} (value : V) (written : list V) : list V :=
  value :: written.

End Storage.

(* ===================================================================== *)
(** ** Rendering helpers shared by the two stores *)
(* ===================================================================== *)

Module Render.

(** [escHtml(str)]: five global replacements, [&] first. *)
Definition escHtml (str : jsstring) : jsstring :=
  replace_all false (Chr 39) (lit "&#39;")
    (replace_all false (Chr 34) (lit "&quot;")
       (replace_all false (Chr 62) (lit "&gt;")
          (replace_all false (Chr 60) (lit "&lt;")
             (replace_all false (Chr 38) (lit "&amp;") str)))).

Section Grouping.
Context {A : Type}.
(** The label of an item: [dateLabel(item.createdAt)]. *)
Variable label : A -> jsstring.

(** [if (!groups.has(l)) groups.set(l, []); groups.get(l).push(x)] on a
    [Map], kept in insertion order of its keys. *)
Fixpoint group_push (l : jsstring) (x : A) (groups : list (jsstring * list A))
  : list (jsstring * list A) :=
  match groups with
  | [] => [(l, [x])]
  | (l', items) :: rest =>
      if jseqb l' l then (l', items ++ [x]) :: rest
      else (l', items) :: group_push l x rest
  end.

(** The [groups] map that [render] fills with [forEach]. *)
Definition group_by (items : list A) : list (jsstring * list A) :=
  fold_left (fun groups x => group_push (label x) x groups) items [].
End Grouping.

End Render.

(* ===================================================================== *)
(** ** The link store *)
(* ===================================================================== *)

Module Links.

(** The two components of a parsed [URL] object that the store reads. *)
Record URL := { hostname : jsstring; pathname : jsstring }.

Record Link := {
  id : jsstring;
  url : jsstring;
  description : jsstring;
  createdAt : Z;
}.

(** The in-memory collection and the values handed to
    [Storage.set(STORAGE_KEY, _)], newest first. *)
Record State := { links : list Link; writes : list (list Link) }.

(** What one [add] reads from its environment: [Date.now()] for the
    identifier, the text of [Math.random().toString(36).slice(2, 7)], and
    [Date.now()] for the creation time. *)
Record Entropy := { now_id : Z; rnd : jsstring; now_created : Z }.

(** How a call of the store ends: it returns, or an exception escapes it.
    Either way [st] is the state the call leaves behind. *)
Inductive Outcome :=
| Returned (st : State)
| Threw (st : State).

Definition state_of (o : Outcome) : State :=
  match o with
  | Returned st => st
  | Threw st => st
  end.

(** [save()] *)
Definition save (st : State) : State :=
  {| links := links st; writes := Storage.set (links st) (writes st) |}.

(** [/^https?:\/\//i] *)
Definition scheme_re : regex :=
  Seq Bol (Seq (chars (lit "http")) (Seq (Opt (Chr 115)) (chars (lit "://")))).

(** [/\b\w+\.(com|org|net|edu|gov|io|co|uk|dev|app|ai)\b/i] *)
Definition tld_re : regex :=
  Seq WordB (Seq (PlusCls is_word) (Seq (Chr 46) (Seq
    (Alt (chars (lit "com")) (Alt (chars (lit "org")) (Alt (chars (lit "net"))
    (Alt (chars (lit "edu")) (Alt (chars (lit "gov")) (Alt (chars (lit "io"))
    (Alt (chars (lit "co")) (Alt (chars (lit "uk")) (Alt (chars (lit "dev"))
    (Alt (chars (lit "app")) (chars (lit "ai"))))))))))))
    WordB))).

(** [/^www\./] *)
Definition www_re : regex := Seq Bol (chars (lit "www.")).

(** [/^\d+$/] *)
Definition numeric_re : regex := Seq Bol (Seq (PlusCls is_digit) Eol).

(** [/[-_]/g] *)
Definition dash_re : regex := Cls (fun c => (c =? 45) || (c =? 95))%N.

Definition search_prefix : jsstring := lit "https://www.google.com/search?q=".

(** [s.charAt(0).toUpperCase() + s.slice(1)].  Host names and paths of a
    parsed URL are ASCII, where [toUpperCase] is [upper]. *)
Definition cap (s : jsstring) : jsstring :=
  match s with
  | [] => []
  | c :: s' => upper c :: s'
  end.

(** *** Rendering *)

(** What [buildLinkEl] writes into a card from the link.  The time of day
    on the card reads the locale and cannot fail; it is left out. *)
Record Card := {
  card_id : jsstring;       (* [card.dataset.id] *)
  favicon : jsstring;       (* the [src] of the favicon image *)
  shown_url : jsstring;     (* the address, as [href] and as text *)
  shown_desc : jsstring;    (* the description, as text and as input value *)
}.

Definition favicon_prefix : jsstring :=
  lit "https://www.google.com/s2/favicons?sz=32&domain_url=".

(** [buildLinkEl(link)]; [None] is the [URIError] that
    [encodeURIComponent(link.url)] throws on a lone surrogate. *)
Definition buildLinkEl (link : Link) : option Card :=
  match encodeURIComponent (url link) with
  | Some q =>
      Some {| card_id := id link;
              favicon := favicon_prefix ++ q;
              shown_url := Render.escHtml (url link);
              shown_desc := Render.escHtml (description link) |}
  | None => None
  end.

(** [items.forEach((link) => { const el = buildLinkEl(link); ... })]: the
    cards of one group, [None] when [buildLinkEl] throws for one of them. *)
Fixpoint build_cards (items : list Link) : option (list Card) :=
  match items with
  | [] => Some []
  | link :: rest =>
      match buildLinkEl link with
      | Some card =>
          match build_cards rest with
          | Some cards => Some (card :: cards)
          | None => None
          end
      | None => None
      end
  end.

(** What [render] leaves in the list container. *)
Inductive View :=
| NoContainer                        (* the container is missing: nothing is drawn *)
| NoLinks                            (* "No links saved yet!" *)
| Groups (g : list (jsstring * list Card))
| Failed (g : list (jsstring * list Card)).
                                     (* the exception of [buildLinkEl] escapes;
                                        [g] are the sections appended before it *)

(** [groups.forEach((items, label) => ...)]: a section is appended to the
    container once all its cards are built. *)
Fixpoint draw_sections (done : list (jsstring * list Card))
    (groups : list (jsstring * list Link)) : View :=
  match groups with
  | [] => Groups done
  | (label, items) :: rest =>
      match build_cards items with
      | Some cards => draw_sections (done ++ [(label, cards)]) rest
      | None => Failed done
      end
  end.

Section WithPage.
(** The platform's [new URL(text)]; [None] is the [TypeError] it throws
    on text that does not parse. *)
Variable new_URL : jsstring -> option URL.
(** [dateLabel(ts)], which reads the clock and the locale. *)
Variable dateLabel : Z -> jsstring.
(** Whether [document.getElementById('link-list')] finds the container. *)
Variable container : bool.

Definition autoDescribe (u : jsstring) : jsstring :=
  match new_URL u with
  | None => u
  | Some parsed =>
      let host := replace_anchored false www_re [] (hostname parsed) in
      let parts :=
        List.filter truthy_str
          (List.map (fun s => trim (replace_all false dash_re (lit " ") s))
                    (split 47 (pathname parsed))) in
      match parts with
      | [] => cap host
      | _ :: _ =>
          match List.find (fun p => negb (test false numeric_re p)
                                    && (1 <? length p)%nat) (rev parts) with
          | Some lastMeaningful =>
              cap lastMeaningful ++ lit " " ++ [8212%N] ++ lit " " ++ host
          | None => cap host
          end
      end
  end.

(** [render()] *)
Definition render (st : State) : View :=
  if negb container then NoContainer
  else
    match links st with
    | [] => NoLinks
    | _ :: _ =>
        draw_sections []
          (Render.group_by (fun l => dateLabel (createdAt l)) (links st))
    end.

(** [save(); render();], the end of [add] and of [remove]: nothing
    catches what [render] throws. *)
Definition save_render (st : State) : Outcome :=
  let st := save st in
  match render st with
  | Failed _ => Threw st
  | _ => Returned st
  end.

(** [Links.add(rawUrl)] *)
Definition add (e : Entropy) (rawUrl : jsstring) (st : State) : Outcome :=
  let u := trim rawUrl in
  if negb (truthy_str u) then Returned st
  else
    let u := if negb (test true scheme_re u) then lit "https://" ++ u else u in
    let link := {| id := lit "link_" ++ dec (now_id e) ++ lit "_" ++ rnd e;
                   url := u;
                   description := autoDescribe u;
                   createdAt := now_created e |} in
    save_render {| links := link :: links st; writes := writes st |}.

(** The [onResult] callback of the link store's microphone button.  [e]
    is what the first [add] reads from the clock and the random source,
    [e'] what the [add] of the [catch] block reads when the first one has
    run and thrown.  The [catch] block catches the [TypeError] of
    [new URL] and whatever [add(cleaned)] throws; nothing catches the
    [URIError] of [encodeURIComponent(transcript)] or what the other two
    calls of [add] throw. *)
Definition onResult (e e' : Entropy) (transcript : jsstring) (st : State)
  : Outcome :=
  let looksLikeUrl := test true tld_re transcript in
  let add_search (e0 : Entropy) (st0 : State) : Outcome :=
    match encodeURIComponent transcript with
    | Some q => add e0 (search_prefix ++ q) st0
    | None => Threw st0
    end in
  if looksLikeUrl then
    let cleaned :=
      replace_all true (chars (lit "dot")) (lit ".")
        (replace_all true (PlusCls is_space) [] transcript) in
    let candidate :=
      if test true scheme_re cleaned then cleaned else lit "https://" ++ cleaned in
    match new_URL candidate with
    | Some _ =>
        match add e cleaned st with
        | Returned st1 => Returned st1
        | Threw st1 => add_search e' st1
        end
    | None => add_search e st
    end
  else add_search e st.
End WithPage.

End Links.

(* ===================================================================== *)
(** ** The task store *)
(* ===================================================================== *)

(** A value read back from storage, as [JSON.parse] builds it. *)
#[warnings="-register-all"]
Inductive JSON : Type :=
| JNull
| JBool (b : bool)
| JNum (z : Z)
| JStr (s : jsstring)
| JArr (l : list JSON)
| JObj (o : gmap string JSON).

Module Todos.

Record Subtask := {
  sub_id : jsstring;
  sub_text : jsstring;
  sub_completed : bool;
}.

Record Todo := {
  id : jsstring;
  text : jsstring;
  completed : bool;
  createdAt : Z;
  deadline : option jsstring;        (* [null] or a date text *)
  priority : jsstring;
  subtasks : list Subtask;
  categories : list jsstring;
}.

Inductive Filter := FAll | FActive | FCompleted | FOverdue.
Inductive SortKey := Newest | Oldest | Deadline | Priority.

(** The module state: the collection, the filter and sort settings, and
    the values written by [Storage.set(STORAGE_KEY, _)], newest first.
    ([openSubtasks] is read and written by the rendering code only.) *)
Record State := {
  todos : list Todo;
  currentFilter : Filter;
  currentSort : SortKey;
  writes : list (list Todo);
}.

Definition init_state : State :=
  {| todos := []; currentFilter := FAll; currentSort := Newest; writes := [] |}.

Definition set_todos (l : list Todo) (st : State) : State :=
  {| todos := l; currentFilter := currentFilter st;
     currentSort := currentSort st; writes := writes st |}.

(** [save()] *)
Definition save (st : State) : State :=
  {| todos := todos st; currentFilter := currentFilter st;
     currentSort := currentSort st; writes := Storage.set (todos st) (writes st) |}.

(** What an operation that creates a record reads from its environment:
    [Date.now()] and [Math.random().toString(36).slice(2, 7)] inside
    [genId], and [Date.now()] for the creation time. *)
Record Entropy := { now_id : Z; rnd : jsstring; now_created : Z }.

Definition genId (prefix : jsstring) (e : Entropy) : jsstring :=
  prefix ++ lit "_" ++ dec (now_id e) ++ lit "_" ++ rnd e.

(** *** Loading and migration *)

(** The defaults that [load] spreads a stored record over. *)
Definition load_defaults : gmap string JSON :=
  {[ "deadline"%string := JNull;
     "priority"%string := JStr (lit "medium");
     "subtasks"%string := JArr [];
     "categories"%string := JArr [] ]}.

(** [{ deadline: null, priority: 'medium', subtasks: [], categories: [], ...t }]:
    the keys of [t] win. *)
Definition migrate (t : gmap string JSON) : gmap string JSON := t ∪ load_defaults.

(** The typed reading of a stored object.  [None]: the object is not a
    task record (a field of the record type is absent or has another
    type).  The code does no such check: it keeps whatever object the
    spread gives.  The model follows the store on task records only, and
    [None] marks the objects it does not follow, not a failure of the
    code. *)
Definition read_str (v : option JSON) : option jsstring :=
  match v with Some (JStr s) => Some s | _ => None end.

Definition read_bool (v : option JSON) : option bool :=
  match v with Some (JBool b) => Some b | _ => None end.

Definition read_num (v : option JSON) : option Z :=
  match v with Some (JNum z) => Some z | _ => None end.

Definition read_nullable_str (v : option JSON) : option (option jsstring) :=
  match v with
  | Some JNull => Some None
  | Some (JStr s) => Some (Some s)
  | _ => None
  end.

Definition read_subtask (v : JSON) : option Subtask :=
  match v with
  | JObj o =>
      i ← read_str (o !! "id"%string);
      t ← read_str (o !! "text"%string);
      c ← read_bool (o !! "completed"%string);
      Some {| sub_id := i; sub_text := t; sub_completed := c |}
  | _ => None
  end.

Definition read_array {A} (f : JSON -> option A) (v : option JSON) : option (list A) :=
  match v with Some (JArr l) => mapM f l | _ => None end.

Definition read_todo (o : gmap string JSON) : option Todo :=
  i ← read_str (o !! "id"%string);
  t ← read_str (o !! "text"%string);
  c ← read_bool (o !! "completed"%string);
  n ← read_num (o !! "createdAt"%string);
  d ← read_nullable_str (o !! "deadline"%string);
  p ← read_str (o !! "priority"%string);
  s ← read_array read_subtask (o !! "subtasks"%string);
  g ← read_array (fun v => read_str (Some v)) (o !! "categories"%string);
  Some {| id := i; text := t; completed := c; createdAt := n; deadline := d;
          priority := p; subtasks := s; categories := g |}.

(** [load()].  [raw] is what [Storage.get(STORAGE_KEY, [])] returned.
    [None]: [raw] is not an array of task records, and the model does not
    follow the code ([load] itself never fails on an array). *)
Definition load (raw : list (gmap string JSON)) (st : State) : option State :=
  ts ← mapM (fun t => read_todo (migrate t)) raw;
  Some (set_todos ts st).

(** *** Dates *)

(** The result of arithmetic on time values: a finite number, an
    infinity or [NaN]. *)
Inductive num := Fin (z : Z) | PosInf | NegInf | NaN.

Definition sub (a b : num) : num :=
  match a, b with
  | NaN, _ | _, NaN => NaN
  | Fin x, Fin y => Fin (x - y)
  | Fin _, PosInf => NegInf
  | Fin _, NegInf => PosInf
  | PosInf, PosInf => NaN
  | PosInf, _ => PosInf
  | NegInf, NegInf => NaN
  | NegInf, _ => NegInf
  end.

(** [v > 0], false on [NaN]. *)
Definition positive (v : num) : bool :=
  match v with Fin z => 0 <? z | PosInf => true | _ => false end.


Section WithDate.
(** The platform's [Date], by time value (milliseconds since the epoch).
    [Date_parse s] is the time value of [new Date(s)], [None] for an
    Invalid Date; [Date_local y m d] is that of [new Date(y, m, d)];
    [setDate t n] is that of the date [t] after [setDate(n)]. *)
Variable Date_parse : jsstring -> option Z.
Variables getFullYear getMonth getDate : Z -> Z.
Variable Date_local : Z -> Z -> Z -> Z.
Variable setDate : Z -> Z -> Z.

(** [new Date(dateStr + 'T00:00:00')] *)
Definition parseDeadline (dateStr : jsstring) : option Z :=
  Date_parse (dateStr ++ lit "T00:00:00").

(** [new Date(now.getFullYear(), now.getMonth(), now.getDate())] *)
Definition today_of (now : Z) : Z :=
  Date_local (getFullYear now) (getMonth now) (getDate now).

(** [tomorrow = new Date(today); tomorrow.setDate(today.getDate() + 1)] *)
Definition tomorrow_of (today : Z) : Z := setDate today (getDate today + 1).

(** [isOverdue(todo)], with [now] the time value of [new Date()]. *)
Definition isOverdue (now : Z) (todo : Todo) : bool :=
  match deadline todo with
  | Some d =>
      if negb (truthy_str d) || completed todo then false
      else
        let today := today_of now in
        match parseDeadline d with
        | Some due => due <? today
        | None => false
        end
  | None => false
  end.

(** [isWarning(todo)] *)
Definition isWarning (now : Z) (todo : Todo) : bool :=
  match deadline todo with
  | Some d =>
      if negb (truthy_str d) || completed todo then false
      else
        let today := today_of now in
        let tomorrow := tomorrow_of today in
        match parseDeadline d with
        | Some due => (today <=? due) && (due <=? tomorrow)
        | None => false
        end
  | None => false
  end.

(** [priorityValue(p)] *)
Definition priorityValue (p : jsstring) : Z :=
  if jseqb p (lit "high") then 3 else if jseqb p (lit "low") then 1 else 2.

(** *** The derived view *)

(** [Array.prototype.sort(cmp)] is stable: with a consistent comparator
    its result is the one this insertion sort computes.  [x] comes from
    before every element of [l], so it moves right only past elements
    that [cmp] puts strictly before it.  With a comparator that is not
    consistent the order of the platform's result is implementation-
    defined and may differ from this one; the only such comparator of the
    store is that of ['deadline'] on a deadline that does not read as a
    date, whose difference is [NaN]. *)
Fixpoint insert {A} (cmp : A -> A -> num) (x : A) (l : list A) : list A :=
  match l with
  | [] => [x]
  | y :: l' => if positive (cmp x y) then y :: insert cmp x l' else x :: l
  end.

Fixpoint sort {A} (cmp : A -> A -> num) (l : list A) : list A :=
  match l with
  | [] => []
  | x :: l' => insert cmp x (sort cmp l')
  end.

(** The key of the [deadline] comparator:
    [a.deadline ? parseDeadline(a.deadline).getTime() : Infinity]. *)
Definition deadline_key (a : Todo) : num :=
  match deadline a with
  | Some d =>
      if truthy_str d then
        match parseDeadline d with Some z => Fin z | None => NaN end
      else PosInf
  | None => PosInf
  end.

Definition comparator (k : SortKey) (a b : Todo) : num :=
  match k with
  | Oldest => Fin (createdAt a - createdAt b)
  | Deadline => sub (deadline_key a) (deadline_key b)
  | Priority => Fin (priorityValue (priority b) - priorityValue (priority a))
  | Newest => Fin (createdAt b - createdAt a)
  end.

Definition filter_pred (now : Z) (f : Filter) (t : Todo) : bool :=
  match f with
  | FActive => negb (completed t)
  | FCompleted => completed t
  | FOverdue => isOverdue now t
  | FAll => true
  end.

(** [getVisible()] *)
Definition getVisible (now : Z) (st : State) : list Todo :=
  let list := todos st in
  let list := List.filter (filter_pred now (currentFilter st)) list in
  sort (comparator (currentSort st)) list.
End WithDate.

(** *** Mutations *)

(** Every mutation that changes the collection ends with
    [save(); render();].  [render] draws the view (see [TodosView]) and
    changes neither the collection nor the log; on task records none of
    the calls in it and in [buildTodoEl] throws, so the mutations below
    return, and they are given as functions on the state. *)

(** The options of [add]; [None] is an absent (or [null]) property, and
    for [categories] anything that is not an array. *)
Record Options := {
  o_deadline : option jsstring;
  o_priority : option jsstring;
  o_categories : option (list jsstring);
}.

Definition no_options : Options :=
  {| o_deadline := None; o_priority := None; o_categories := None |}.

(** [v || fallback] on an optional text. *)
Definition or_else (v : option jsstring) (fallback : jsstring) : jsstring :=
  match v with
  | Some s => if truthy_str s then s else fallback
  | None => fallback
  end.

(** [add(text, opts)] *)
Definition add (e : Entropy) (txt : jsstring) (opts : Options) (st : State) : State :=
  let trimmed := trim txt in
  if negb (truthy_str trimmed) then st
  else
    let todo := {|
      id := genId (lit "todo") e;
      text := trimmed;
      completed := false;
      createdAt := now_created e;
      deadline := match o_deadline opts with
                  | Some d => if truthy_str d then Some d else None
                  | None => None
                  end;
      priority := or_else (o_priority opts) (lit "medium");
      subtasks := [];
      categories := match o_categories opts with Some c => c | None => [] end;
    |} in
    save (set_todos (todo :: todos st) st).

Definition has_id (i : jsstring) (t : Todo) : bool := jseqb (id t) i.

(** The effect on the array of mutating in place the object that
    [todos.find(p)] returns: the first element satisfying [p] changes. *)
Fixpoint alter_first {A} (p : A -> bool) (f : A -> A) (l : list A) : list A :=
  match l with
  | [] => []
  | x :: l' => if p x then f x :: l' else x :: alter_first p f l'
  end.

Definition set_completed (b : bool) (t : Todo) : Todo :=
  {| id := id t; text := text t; completed := b; createdAt := createdAt t;
     deadline := deadline t; priority := priority t; subtasks := subtasks t;
     categories := categories t |}.

Definition set_text (s : jsstring) (t : Todo) : Todo :=
  {| id := id t; text := s; completed := completed t; createdAt := createdAt t;
     deadline := deadline t; priority := priority t; subtasks := subtasks t;
     categories := categories t |}.

Definition set_subtasks (l : list Subtask) (t : Todo) : Todo :=
  {| id := id t; text := text t; completed := completed t; createdAt := createdAt t;
     deadline := deadline t; priority := priority t; subtasks := l;
     categories := categories t |}.

(** [toggle(id)] *)
Definition toggle (i : jsstring) (st : State) : State :=
  match List.find (has_id i) (todos st) with
  | None => st
  | Some _ =>
      save (set_todos
              (alter_first (has_id i) (fun t => set_completed (negb (completed t)) t)
                           (todos st)) st)
  end.

(** [update(id, newText)] *)
Definition update (i : jsstring) (newText : jsstring) (st : State) : State :=
  let trimmed := trim newText in
  if negb (truthy_str trimmed) then st
  else
    match List.find (has_id i) (todos st) with
    | None => st
    | Some _ =>
        save (set_todos (alter_first (has_id i) (set_text trimmed) (todos st)) st)
    end.

(** [remove(id)] *)
Definition remove (i : jsstring) (st : State) : State :=
  save (set_todos (List.filter (fun t => negb (has_id i t)) (todos st)) st).

(** [addSubtask(todoId, text)] *)
Definition addSubtask (e : Entropy) (todoId : jsstring) (txt : jsstring) (st : State)
  : State :=
  let trimmed := trim txt in
  if negb (truthy_str trimmed) then st
  else
    match List.find (has_id todoId) (todos st) with
    | None => st
    | Some _ =>
        let s := {| sub_id := genId (lit "sub") e; sub_text := trimmed;
                    sub_completed := false |} in
        save (set_todos
                (alter_first (has_id todoId)
                   (fun t => set_subtasks (subtasks t ++ [s]) t) (todos st)) st)
    end.

Definition has_sub_id (i : jsstring) (s : Subtask) : bool := jseqb (sub_id s) i.

(** [toggleSubtask(todoId, subId)] *)
Definition toggleSubtask (todoId subId : jsstring) (st : State) : State :=
  match List.find (has_id todoId) (todos st) with
  | None => st
  | Some todo =>
      match List.find (has_sub_id subId) (subtasks todo) with
      | None => st
      | Some _ =>
          let flip s := {| sub_id := sub_id s; sub_text := sub_text s;
                           sub_completed := negb (sub_completed s) |} in
          save (set_todos
                  (alter_first (has_id todoId)
                     (fun t => set_subtasks
                                 (alter_first (has_sub_id subId) flip (subtasks t)) t)
                     (todos st)) st)
      end
  end.

(** [removeSubtask(todoId, subId)] *)
Definition removeSubtask (todoId subId : jsstring) (st : State) : State :=
  match List.find (has_id todoId) (todos st) with
  | None => st
  | Some _ =>
      save (set_todos
              (alter_first (has_id todoId)
                 (fun t => set_subtasks
                             (List.filter (fun s => negb (has_sub_id subId s))
                                          (subtasks t)) t)
                 (todos st)) st)
  end.

End Todos.

(* ===================================================================== *)
(** ** Traces of the task store *)
(* ===================================================================== *)

Module Trace.
Import Todos.

(** The calls that change the state of the task store: [init] loads, the
    handlers it wires call the mutations and set the filter and the sort. *)
Inductive op :=
| OpLoad (raw : list (gmap string JSON))
| OpAdd (e : Entropy) (txt : jsstring) (opts : Options)
| OpToggle (i : jsstring)
| OpUpdate (i : jsstring) (txt : jsstring)
| OpRemove (i : jsstring)
| OpAddSubtask (e : Entropy) (i : jsstring) (txt : jsstring)
| OpToggleSubtask (i j : jsstring)
| OpRemoveSubtask (i j : jsstring)
| OpSetFilter (f : Filter)
| OpSetSort (k : SortKey).

Definition apply (o : op) (st : State) : option State :=
  match o with
  | OpLoad raw => load raw st
  | OpAdd e txt opts => Some (add e txt opts st)
  | OpToggle i => Some (toggle i st)
  | OpUpdate i txt => Some (update i txt st)
  | OpRemove i => Some (remove i st)
  | OpAddSubtask e i txt => Some (addSubtask e i txt st)
  | OpToggleSubtask i j => Some (toggleSubtask i j st)
  | OpRemoveSubtask i j => Some (removeSubtask i j st)
  | OpSetFilter f =>
      Some {| todos := todos st; currentFilter := f;
              currentSort := currentSort st; writes := writes st |}
  | OpSetSort k =>
      Some {| todos := todos st; currentFilter := currentFilter st;
              currentSort := k; writes := writes st |}
  end.

(** Running a sequence of calls, first call first. *)
Fixpoint run (ops : list op) (st : State) : option State :=
  match ops with
  | [] => Some st
  | o :: ops' =>
      match apply o st with
      | Some st' => run ops' st'
      | None => None
      end
  end.

(** A state the store can be in: the result of some calls from the state
    the module starts with. *)
Definition reachable (st : State) : Prop :=
  exists ops, run ops init_state = Some st.

(** The three priorities of the record type. *)
Definition valid_priority (p : jsstring) : Prop :=
  p = lit "low" \/ p = lit "medium" \/ p = lit "high".

(** A call that brings no priority from outside the three: [add] with
    [options.priority] absent, empty or one of the three, [load] of records
    whose [priority] key is absent or holds one of the three. *)
Definition op_priorities_valid (o : op) : Prop :=
  match o with
  | OpAdd _ _ opts =>
      match o_priority opts with
      | Some p => p = [] \/ valid_priority p
      | None => True
      end
  | OpLoad raw =>
      Forall (fun t : gmap string JSON =>
                match t !! "priority"%string with
                | Some (JStr p) => valid_priority p
                | Some _ => False
                | None => True
                end) raw
  | _ => True
  end.

End Trace.

(* ===================================================================== *)
(** ** A concrete platform for examples: dates in UTC *)
(* ===================================================================== *)

Module UTC.

Definition msPerDay : Z := 86400000.

(** Day number (days since 1970-01-01) of a proleptic Gregorian date,
    month counted from 1. *)
Definition days_from_civil (y m d : Z) : Z :=
  let y := if m <=? 2 then y - 1 else y in
  let era := y / 400 in
  let yoe := y - era * 400 in
  let doy := (153 * (if 2 <? m then m - 3 else m + 9) + 2) / 5 + d - 1 in
  let doe := yoe * 365 + yoe / 4 - yoe / 100 + doy in
  era * 146097 + doe - 719468.

(** Year, month (from 1) and day of a day number. *)
Definition civil_from_days (z : Z) : Z * Z * Z :=
  let z := z + 719468 in
  let era := z / 146097 in
  let doe := z - era * 146097 in
  let yoe := (doe - doe / 1460 + doe / 36524 - doe / 146096) / 365 in
  let y := yoe + era * 400 in
  let doy := doe - (365 * yoe + yoe / 4 - yoe / 100) in
  let mp := (5 * doy + 2) / 153 in
  let d := doy - (153 * mp + 2) / 5 + 1 in
  let m := if mp <? 10 then mp + 3 else mp - 9 in
  (if m <=? 2 then y + 1 else y, m, d).

Definition getFullYear (t : Z) : Z := fst (fst (civil_from_days (t / msPerDay))).
Definition getMonth (t : Z) : Z := snd (fst (civil_from_days (t / msPerDay))) - 1.
Definition getDate (t : Z) : Z := snd (civil_from_days (t / msPerDay)).

Definition Date_local (y m d : Z) : Z := days_from_civil y (m + 1) d * msPerDay.

Definition setDate (t n : Z) : Z :=
  Date_local (getFullYear t) (getMonth t) n + t mod msPerDay.

Fixpoint digits (acc : Z) (s : jsstring) : option Z :=
  match s with
  | [] => Some acc
  | c :: s' => if is_digit c then digits (10 * acc + (Z.of_N c - 48)) s' else None
  end.

(** [new Date(s)] on the one form the task store builds,
    [YYYY-MM-DDT00:00:00], read as local time. *)
Definition Date_parse (s : jsstring) : option Z :=
  match s with
  | [y1; y2; y3; y4; 45; m1; m2; 45; d1; d2; 84; 48; 48; 58; 48; 48; 58; 48; 48]%N =>
      match digits 0 [y1; y2; y3; y4], digits 0 [m1; m2], digits 0 [d1; d2] with
      | Some y, Some m, Some d =>
          if (1 <=? m) && (m <=? 12) && (1 <=? d) && (d <=? 31)
          then Some (Date_local y (m - 1) d) else None
      | _, _, _ => None
      end
  | _ => None
  end.

End UTC.

(* ===================================================================== *)
(** ** Statements about the task store: predicates and sample data *)
(* ===================================================================== *)

Module TodosSpec.
Import Todos Trace.

Definition sample_entropy : Entropy :=
  {| now_id := 1718020800123; rnd := lit "k3x9q"; now_created := 1718020800123 |}.

Definition sample_todo : Todo :=
  {| id := lit "todo_1_aaaaa"; text := lit "buy milk"; completed := false;
     createdAt := 1; deadline := Some (lit "2024-06-10"); priority := lit "high";
     subtasks := []; categories := [lit "home"] |}.

Definition sample_state : State :=
  {| todos := [sample_todo]; currentFilter := FOverdue; currentSort := Priority;
     writes := [] |}.

Definition flip (t : Todo) : Todo := set_completed (negb (completed t)) t.

Definition priorities_valid (l : list Todo) : Prop :=
  Forall (fun t => valid_priority (priority t)) l.

Definition urgent_options : Options :=
  {| o_deadline := None; o_priority := Some (lit "urgent"); o_categories := None |}.

Definition high_options : Options :=
  {| o_deadline := None; o_priority := Some (lit "high"); o_categories := None |}.

(** A task record as it is in storage: the four fields that every
    version of the store writes, and each of the four optional fields with
    its stored value, or [None] when the record has no such key. *)
Record Stored := {
  s_id : jsstring;
  s_text : jsstring;
  s_completed : bool;
  s_createdAt : Z;
  s_deadline : option (option jsstring);
  s_priority : option jsstring;
  s_subtasks : option (list Subtask);
  s_categories : option (list jsstring);
}.

(** The object that [JSON.parse] gives back for a stored subtask. *)
Definition subtask_object (s : Subtask) : JSON :=
  JObj {[ "id"%string := JStr (sub_id s);
          "text"%string := JStr (sub_text s);
          "completed"%string := JBool (sub_completed s) ]}.

(** The object with [k] bound to [v], when there is a [v]. *)
Definition with_key (k : string) (v : option JSON) (o : gmap string JSON)
  : gmap string JSON :=
  match v with Some v => <[k := v]> o | None => o end.

(** The object that [JSON.parse] gives back for a stored task record. *)
Definition stored_object (r : Stored) : gmap string JSON :=
  with_key "deadline"
    (option_map (fun d => match d with Some s => JStr s | None => JNull end)
                (s_deadline r))
    (with_key "priority" (option_map JStr (s_priority r))
       (with_key "subtasks"
          (option_map (fun l => JArr (List.map subtask_object l)) (s_subtasks r))
          (with_key "categories"
             (option_map (fun l => JArr (List.map JStr l)) (s_categories r))
             {[ "id"%string := JStr (s_id r);
                "text"%string := JStr (s_text r);
                "completed"%string := JBool (s_completed r);
                "createdAt"%string := JNum (s_createdAt r) ]}))).

(** The task expected in memory for a stored record: every
    stored value as it is, and [null], ['medium'], [[]] and [[]] where the
    record has no deadline, priority, subtasks or categories. *)
Definition expected_task (r : Stored) : Todo :=
  {| id := s_id r;
     text := s_text r;
     completed := s_completed r;
     createdAt := s_createdAt r;
     deadline := match s_deadline r with Some d => d | None => None end;
     priority := match s_priority r with Some p => p | None => lit "medium" end;
     subtasks := match s_subtasks r with Some l => l | None => [] end;
     categories := match s_categories r with Some l => l | None => [] end |}.

(** A record written before the optional fields existed, one that has
    some of them, and one that has them all. *)
Definition stored_samples : list Stored :=
  [ {| s_id := lit "todo_1_aaaaa"; s_text := lit "water plants";
       s_completed := true; s_createdAt := 1700000000000;
       s_deadline := None; s_priority := None; s_subtasks := None;
       s_categories := None |};
    {| s_id := lit "todo_2_bbbbb"; s_text := lit "file taxes";
       s_completed := false; s_createdAt := 1700000000500;
       s_deadline := Some (Some (lit "2024-04-15")); s_priority := Some (lit "high");
       s_subtasks := None; s_categories := None |};
    {| s_id := lit "todo_3_ccccc"; s_text := lit "pack";
       s_completed := false; s_createdAt := 1700000000900;
       s_deadline := Some None; s_priority := Some (lit "low");
       s_subtasks :=
         Some [ {| sub_id := lit "sub_1_aaaaa"; sub_text := lit "socks";
                   sub_completed := true |} ];
       s_categories := Some [lit "travel"] |} ].

Definition by_priority (t : Todo) : Z := priorityValue (priority t).

Definition has_priority (p : jsstring) (t : Todo) : bool := jseqb (priority t) p.

(** 2024-06-10, 12:00:00.123 UTC. *)
Definition sample_now : Z := 1718020800123.

Definition task (i : string) (c : bool) (n : Z) (d : option jsstring) (p : string)
  : Todo :=
  {| id := lit i; text := lit "task"; completed := c; createdAt := n;
     deadline := d; priority := lit p; subtasks := []; categories := [] |}.

Definition sample_todos : list Todo :=
  [ task "t1" false 40 (Some (lit "2024-06-01")) "low";
    task "t2" false 30 (Some (lit "2024-06-10")) "high";
    task "t3" true 20 (Some (lit "2024-05-01")) "medium";
    task "t4" false 10 None "high";
    task "t5" false 5 (Some (lit "2024-06-09")) "medium" ].

Definition overdue_by_priority : State :=
  {| todos := sample_todos; currentFilter := FOverdue; currentSort := Priority;
     writes := [] |}.

Definition all_by_priority : State :=
  {| todos := sample_todos; currentFilter := FAll; currentSort := Priority;
     writes := [] |}.

Abbreviation utc_isOverdue :=
  (isOverdue UTC.Date_parse UTC.getFullYear UTC.getMonth UTC.getDate UTC.Date_local).
Abbreviation utc_isWarning :=
  (isWarning UTC.Date_parse UTC.getFullYear UTC.getMonth UTC.getDate UTC.Date_local
     UTC.setDate).
Abbreviation utc_getVisible :=
  (getVisible UTC.Date_parse UTC.getFullYear UTC.getMonth UTC.getDate UTC.Date_local).
Abbreviation utc_filter_pred :=
  (filter_pred UTC.Date_parse UTC.getFullYear UTC.getMonth UTC.getDate UTC.Date_local).
(** Sorting by an integer key, largest first: the comparator
    [(a, b) => key(b) - key(a)], and the order it aims at. *)
Section KeyOrder.
Context {A : Type}.
Variable key : A -> Z.

Definition by_key_desc (a b : A) : num := Fin (key b - key a).

Definition not_below (a b : A) : Prop := key b <= key a.
End KeyOrder.

Section OverdueSpec.
Variable Date_parse : jsstring -> option Z.
Variables getFullYear getMonth getDate : Z -> Z.
Variable Date_local : Z -> Z -> Z -> Z.

(** The glossary's overdue task at the moment [now]: not completed,
    with a deadline, and the local midnight of the deadline (the time
    value of the deadline's date at [T00:00:00]) strictly before the
    local midnight of today (the time value of the date that has the
    year, the month and the day of [now]). *)
Definition Overdue (now : Z) (t : Todo) : Prop :=
  completed t = false /\
  exists d due,
    deadline t = Some d /\ d <> [] /\
    Date_parse (d ++ lit "T00:00:00") = Some due /\
    due < Date_local (getFullYear now) (getMonth now) (getDate now).

(** The same, as a test. *)
Definition overdue (now : Z) (t : Todo) : bool :=
  negb (completed t) &&
  match deadline t with
  | Some (c :: d) =>
      match Date_parse ((c :: d) ++ lit "T00:00:00") with
      | Some due => due <? Date_local (getFullYear now) (getMonth now) (getDate now)
      | None => false
      end
  | _ => false
  end.
End OverdueSpec.

Abbreviation utc_Overdue :=
  (Overdue UTC.Date_parse UTC.getFullYear UTC.getMonth UTC.getDate UTC.Date_local).
Abbreviation utc_overdue :=
  (overdue UTC.Date_parse UTC.getFullYear UTC.getMonth UTC.getDate UTC.Date_local).

End TodosSpec.

(* ===================================================================== *)
(** ** Statements about the link store: predicates and sample data *)
(* ===================================================================== *)

Module LinksSpec.
Import Links.

(** [s] begins with [p], letters compared without regard to case. *)
Fixpoint starts_with_ci (p s : jsstring) : bool :=
  match p, s with
  | [], _ => true
  | a :: p', b :: s' => (upper a =? upper b)%N && starts_with_ci p' s'
  | _ :: _, [] => false
  end.

(** The text begins with [http://] or [https://], in any letter case. *)
Definition has_http_scheme (u : jsstring) : bool :=
  starts_with_ci (lit "http://") u || starts_with_ci (lit "https://") u.

(** What [new URL] returns on the texts of the examples below: a space
    in the host makes the text unparseable; in [https://ftp://example.com]
    the host is [ftp] with an empty port. *)
Definition sample_new_URL (u : jsstring) : option URL :=
  if jseqb u (lit "https://ftp://example.com") then
    Some {| hostname := lit "ftp"; pathname := lit "//example.com" |}
  else if jseqb u (lit "https://www.google.com/search?q=github%20dot%20com%20slash%20octocat") then
    Some {| hostname := lit "www.google.com"; pathname := lit "/search" |}
  else None.

Definition sample_entropy : Entropy :=
  {| now_id := 1718020800123; rnd := lit "k3x9q"; now_created := 1718020800124 |}.

(** What a second [add] reads, a little later. *)
Definition later_entropy : Entropy :=
  {| now_id := 1718020800131; rnd := lit "p0w2z"; now_created := 1718020800131 |}.

Definition empty_state : State := {| links := []; writes := [] |}.

(** The text [add] stores: the trimmed input, behind [https://] unless it
    begins with [http://] or [https://]. *)
Definition stored_url (rawUrl : jsstring) : jsstring :=
  if has_http_scheme (trim rawUrl) then trim rawUrl
  else lit "https://" ++ trim rawUrl.

Definition new_link (new_URL : jsstring -> option URL) (e : Entropy) (u : jsstring)
  : Link :=
  {| id := lit "link_" ++ dec (now_id e) ++ lit "_" ++ rnd e;
     url := u;
     description := autoDescribe new_URL u;
     createdAt := now_created e |}.

Definition github_transcript : jsstring := lit "github dot com slash octocat".

(** [encodeURIComponent] accepts the URL of the link, so that
    [buildLinkEl] can write its card; it refuses it. *)
Definition drawable (l : Link) : Prop := encodeURIComponent (url l) <> None.

Definition undrawable (l : Link) : Prop := encodeURIComponent (url l) = None.

(** The collection can be drawn: the page has no list container, or
    every URL of the collection is accepted by [encodeURIComponent]. *)
Definition can_draw (container : bool) (l : list Link) : Prop :=
  container = false \/ Forall drawable l.

(** A [dateLabel] for the examples: every link was added today. *)
Definition sample_dateLabel (ts : Z) : jsstring := lit "Today".

(** A text that is one lead surrogate with no trail surrogate after it. *)
Definition lone_surrogate : jsstring := [55357%N].

End LinksSpec.

(* ===================================================================== *)
(** ** The storage helper over [localStorage] *)
(* ===================================================================== *)

Module StorageAdapter.

Section WithJSON.
(** The platform's [JSON.parse] ([None]: it throws [SyntaxError]) and
    [JSON.stringify], and whether [localStorage.setItem] accepts an item
    ([false]: it throws, as when the quota is exceeded). *)
Variable JSON_parse : jsstring -> option JSON.
Variable JSON_stringify : JSON -> jsstring.
Variable fits : gmap jsstring jsstring -> jsstring -> jsstring -> bool.

(** [Storage.get(key, defaultValue)] *)
Definition get (ls : gmap jsstring jsstring) (key : jsstring) (defaultValue : JSON)
  : JSON :=
  match ls !! key with
  | None => defaultValue
  | Some raw =>
      match JSON_parse raw with
      | Some v => v
      | None => defaultValue
      end
  end.

(** [Storage.set(key, value)] *)
Definition set (ls : gmap jsstring jsstring) (key : jsstring) (value : JSON)
  : gmap jsstring jsstring :=
  let raw := JSON_stringify value in
  if fits ls key raw then <[key := raw]> ls else ls.

(** [Storage.remove(key)] *)
Definition remove (ls : gmap jsstring jsstring) (key : jsstring)
  : gmap jsstring jsstring :=
  delete key ls.
End WithJSON.

End StorageAdapter.

(* ===================================================================== *)
(** ** The task store: what [render] shows *)
(* ===================================================================== *)

Module TodosView.
Import Todos.

(** What [render] puts into the list container. *)
Inductive View :=
| NoContainer                        (* the container is missing: nothing is drawn *)
| NoTasks                            (* "No tasks yet!" *)
| NoMatch                            (* "No tasks match the current filter." *)
| Groups (g : list (jsstring * list Todo)).

Section WithDate.
Variable Date_parse : jsstring -> option Z.
Variables getFullYear getMonth getDate : Z -> Z.
Variable Date_local : Z -> Z -> Z -> Z.
Variable setDate : Z -> Z -> Z.
(** [dateLabel(ts)], which reads the clock and the locale. *)
Variable dateLabel : Z -> jsstring.

(** [render()], with [container] telling whether [#todo-list] exists. *)
Definition render (container : bool) (now : Z) (st : State) : View :=
  if negb container then NoContainer
  else
    let visible :=
      getVisible Date_parse getFullYear getMonth getDate Date_local now st in
    match todos st with
    | [] => NoTasks
    | _ :: _ =>
        match visible with
        | [] => NoMatch
        | _ :: _ => Groups (Render.group_by (fun t => dateLabel (createdAt t)) visible)
        end
    end.

(** [li.className] as [buildTodoEl] computes it. *)
Definition classes (now : Z) (todo : Todo) : jsstring :=
  let overdue := isOverdue Date_parse getFullYear getMonth getDate Date_local now todo in
  let warning :=
    negb overdue
    && isWarning Date_parse getFullYear getMonth getDate Date_local setDate now todo in
  lit "todo-item"
  ++ (if completed todo then lit " completed" else [])
  ++ (if overdue then lit " is-overdue"
      else if warning then lit " is-warning" else []).
End WithDate.

End TodosView.

(* ===================================================================== *)
(** ** The link store: the other mutations *)
(* ===================================================================== *)

Module LinksOps.
Import Links.

Definition has_id (i : jsstring) (l : Link) : bool := jseqb (id l) i.

Definition set_description (d : jsstring) (l : Link) : Link :=
  {| id := id l; url := url l; description := d; createdAt := createdAt l |}.

(** [updateDesc(id, newDesc)]: [newDesc.trim() || link.description] on the
    first link with the identifier, then [save()]; it does not call
    [render]. *)
Definition updateDesc (i : jsstring) (newDesc : jsstring) (st : State) : State :=
  match List.find (has_id i) (links st) with
  | None => st
  | Some _ =>
      save {| links :=
                Todos.alter_first (has_id i)
                  (fun l => set_description
                              (if truthy_str (trim newDesc) then trim newDesc
                               else description l) l)
                  (links st);
              writes := writes st |}
  end.

(** [remove(id)] *)
Definition remove (dateLabel : Z -> jsstring) (container : bool)
    (i : jsstring) (st : State) : Outcome :=
  save_render dateLabel container
    {| links := List.filter (fun l => negb (has_id i l)) (links st);
       writes := writes st |}.

(** [load()], with [raw] what [Storage.get(STORAGE_KEY, [])] returned. *)
Definition load (raw : list Link) (st : State) : State :=
  {| links := raw; writes := writes st |}.

End LinksOps.

(* ===================================================================== *)
(** ** Further statements about the task store *)
(* ===================================================================== *)

Module TodosOpsSpec.
Import Todos.

(** The fields of a task that no mutation writes after [add] has set
    them. *)
Definition fixed_fields (t : Todo)
  : jsstring * Z * option jsstring * jsstring * list jsstring :=
  (id t, createdAt t, deadline t, priority t, categories t).

Definition flip_sub (s : Subtask) : Subtask :=
  {| sub_id := sub_id s; sub_text := sub_text s;
     sub_completed := negb (sub_completed s) |}.

(** The state with another filter, as the filter buttons set it. *)
Definition set_filter (f : Filter) (st : State) : State :=
  {| todos := todos st; currentFilter := f; currentSort := currentSort st;
     writes := writes st |}.

(** The order the two creation-time sorts aim at. *)
Definition creation_order (k : SortKey) (a b : Todo) : Prop :=
  match k with
  | Oldest => createdAt a <= createdAt b
  | _ => createdAt b <= createdAt a
  end.

Section DeadlineOrder.
Variable Date_parse : jsstring -> option Z.


End DeadlineOrder.

Definition two_subtasks : list Subtask :=
  [ {| sub_id := lit "sub_1_aaaaa"; sub_text := lit "milk"; sub_completed := false |};
    {| sub_id := lit "sub_2_bbbbb"; sub_text := lit "eggs"; sub_completed := true |} ].

Definition shopping : Todo :=
  {| id := lit "todo_7_ccccc"; text := lit "shopping"; completed := false;
     createdAt := 7; deadline := None; priority := lit "medium";
     subtasks := two_subtasks; categories := [] |}.

Definition shopping_state : State :=
  {| todos := [TodosSpec.sample_todo; shopping]; currentFilter := FAll;
     currentSort := Newest; writes := [] |}.

Definition deadline_state : State :=
  {| todos := TodosSpec.sample_todos; currentFilter := FAll; currentSort := Deadline;
     writes := [] |}.

End TodosOpsSpec.

(* ===================================================================== *)
(** ** Statements about rendering *)
(* ===================================================================== *)

Module RenderSpec.

(** The entity [escHtml] writes for a code unit, or the code unit itself. *)
Definition esc_unit (c : N) : jsstring :=
  if (c =? 38)%N then lit "&amp;"
  else if (c =? 60)%N then lit "&lt;"
  else if (c =? 62)%N then lit "&gt;"
  else if (c =? 34)%N then lit "&quot;"
  else if (c =? 39)%N then lit "&#39;"
  else [c].

(** [<], [>], the double quote and the apostrophe. *)
Definition is_markup (c : N) : bool :=
  ((c =? 60) || (c =? 62) || (c =? 34) || (c =? 39))%N.

Section Groups.
Context {A : Type}.
Variable label : A -> jsstring.

(** A group is well formed for a list of items: it is not empty and holds,
    in their order, exactly the items whose label is the group's. *)
Definition group_ok (items : list A) (g : jsstring * list A) : Prop :=
  snd g <> [] /\
  snd g = List.filter (fun x => jseqb (label x) (fst g)) items.

(** The groups draw every item once: no two groups share a label, the
    groups together are a rearrangement of the items, and each group is
    well formed. *)
Definition groups_ok (items : list A) (g : list (jsstring * list A)) : Prop :=
  NoDup (List.map fst g) /\
  Permutation (concat (List.map snd g)) items /\
  Forall (group_ok items) g.
End Groups.

(** The card is the one of the link: it carries the identifier, the
    favicon address ends in the encoded URL, and the URL and the
    description are shown with their markup characters escaped. *)
Definition shows (l : Links.Link) (c : Links.Card) : Prop :=
  Links.card_id c = Links.id l /\
  (exists q, encodeURIComponent (Links.url l) = Some q /\
             Links.favicon c
             = lit "https://www.google.com/s2/favicons?sz=32&domain_url=" ++ q) /\
  Links.shown_url c = flat_map esc_unit (Links.url l) /\
  Links.shown_desc c = flat_map esc_unit (Links.description l).

(** The section is the one of the group: the same label, and the cards of
    its links in their order. *)
Definition section_shows (g : jsstring * list Links.Link)
    (s : jsstring * list Links.Card) : Prop :=
  fst s = fst g /\ Forall2 shows (snd g) (snd s).

End RenderSpec.

(* ===================================================================== *)
(** ** Traces of the link store *)
(* ===================================================================== *)

Module LinksTrace.
Import Links.

(** The text does not begin with whitespace. *)
Definition head_ok (s : jsstring) : Prop :=
  match s with [] => True | c :: _ => is_space c = false end.


(** The calls that change the state of the link store after [load]: the
    form and the voice handler add, the cards edit and delete. *)
Inductive op :=
| OpAdd (e : Entropy) (rawUrl : jsstring)
| OpVoice (e e' : Entropy) (transcript : jsstring)
| OpUpdateDesc (i : jsstring) (newDesc : jsstring)
| OpRemove (i : jsstring).

Section WithPage.
Variable new_URL : jsstring -> option URL.
Variable dateLabel : Z -> jsstring.
Variable container : bool.

Definition apply (o : op) (st : State) : Outcome :=
  match o with
  | OpAdd e rawUrl => add new_URL dateLabel container e rawUrl st
  | OpVoice e e' transcript => onResult new_URL dateLabel container e e' transcript st
  | OpUpdateDesc i newDesc => Returned (LinksOps.updateDesc i newDesc st)
  | OpRemove i => LinksOps.remove dateLabel container i st
  end.

(** Running a sequence of calls, first call first.  Each call is an event
    handler of its own: an exception that escapes it ends that handler
    only, and the next call starts from the state it left. *)
Fixpoint run (ops : list op) (st : State) : State :=
  match ops with
  | [] => st
  | o :: ops' => run ops' (state_of (apply o st))
  end.
End WithPage.

(** A code unit that is not half of a surrogate pair. *)
Definition not_surrogate (c : N) : bool := negb (is_lead c) && negb (is_trail c).

(** The text reads as a sequence of code points: every lead surrogate is
    followed by a trail surrogate and no trail surrogate stands alone. *)
Fixpoint well_formed (s : jsstring) : bool :=
  match s with
  | [] => true
  | c :: s' =>
      if is_trail c then false
      else if is_lead c then
        match s' with
        | d :: s'' => is_trail d && well_formed s''
        | [] => false
        end
      else well_formed s'
  end.

(** The URL of the link begins with [http://] or [https://]. *)
Definition schemed (l : Link) : Prop := LinksSpec.has_http_scheme (url l) = true.

(** What [encodeURIComponent] writes: unreserved characters and [%]. *)
Definition uri_safe (c : N) : bool := uri_unreserved c || (c =? 37)%N.

Definition two_links : State :=
  {| links :=
       [ {| id := lit "link_2_bbbbb"; url := lit "https://example.org/docs";
            description := lit "Docs " ++ [8212%N] ++ lit " example.org";
            createdAt := 2 |};
         {| id := lit "link_1_aaaaa"; url := lit "http://example.com";
            description := lit "Example.com"; createdAt := 1 |} ];
     writes := [] |}.

(** A collection with a link whose URL ends in a lone surrogate, as [add]
    stores it when the form is given such a text. *)
Definition broken_links : State :=
  {| links :=
       [ {| id := lit "link_3_ccccc";
            url := lit "https://" ++ LinksSpec.lone_surrogate;
            description := lit "https://" ++ LinksSpec.lone_surrogate;
            createdAt := 3 |} ];
     writes := [] |}.

End LinksTrace.

(* ===================================================================== *)
(** ** Statements about the voice handler and the descriptions *)
(* ===================================================================== *)

Module VoiceSpec.
Import Links.

(** What is left of a text after its leading run of [p]. *)
Fixpoint drop_run (p : N -> bool) (s : jsstring) : jsstring :=
  match s with
  | x :: s' => if p x then drop_run p s' else s
  | [] => []
  end.

(** The length of the leading run of [p]. *)
Fixpoint run_length (p : N -> bool) (s : jsstring) : nat :=
  match s with
  | x :: s' => if p x then S (run_length p s') else O
  | [] => O
  end.

(** The text has no full stop. *)
Definition dotless (s : jsstring) : Prop := Forall (fun c => c <> 46%N) s.

(** The transcript of the voice handler after its two replacements. *)
Definition cleaned (transcript : jsstring) : jsstring :=
  replace_all true (chars (lit "dot")) (lit ".")
    (replace_all true (PlusCls is_space) [] transcript).





End VoiceSpec.

(* ===================================================================== *)
(** ** A stand-in for [new URL] on plain addresses, for examples *)
(* ===================================================================== *)

Module DemoURL.
Import Links.

Definition lower (c : N) : N := if is_upper c then (c + 32)%N else c.

(** Letters, digits, the hyphen and the full stop. *)
Definition host_unit (c : N) : bool :=
  is_upper c || is_lower c || is_digit c || (c =? 45)%N || (c =? 46)%N.

(** Letters, digits, the slash, the hyphen and the underscore. *)
Definition path_unit (c : N) : bool :=
  is_upper c || is_lower c || is_digit c || (c =? 47)%N || (c =? 45)%N || (c =? 95)%N.

Fixpoint take_until (stop : N -> bool) (s : jsstring) : jsstring :=
  match s with
  | c :: s' => if stop c then [] else c :: take_until stop s'
  | [] => []
  end.

Fixpoint drop_until (stop : N -> bool) (s : jsstring) : jsstring :=
  match s with
  | c :: s' => if stop c then s else drop_until stop s'
  | [] => []
  end.

(** What [new URL(u)] gives on the plain form
    [http(s)://host/path?query#fragment], with a host of letters, digits,
    hyphens and full stops that ends in a letter and a path of letters,
    digits, slashes, hyphens and underscores: the host in lower case and
    the path, [/] when there is none.  Every other text is rejected here;
    the platform accepts many of them. *)
Definition new_URL (u : jsstring) : option URL :=
  let rest :=
    if LinksSpec.starts_with_ci (lit "https://") u then Some (skipn 8 u)
    else if LinksSpec.starts_with_ci (lit "http://") u then Some (skipn 7 u)
    else None in
  match rest with
  | None => None
  | Some r =>
      let host := take_until (fun c => (c =? 47) || (c =? 63) || (c =? 35))%N r in
      let after := drop_until (fun c => (c =? 47) || (c =? 63) || (c =? 35))%N r in
      let path := take_until (fun c => (c =? 63) || (c =? 35))%N after in
      if forallb host_unit host
         && match List.last host 0%N with c => is_upper c || is_lower c end
         && forallb path_unit path
      then Some {| hostname := List.map lower host;
                   pathname := match path with [] => lit "/" | _ :: _ => path end |}
      else None
  end.

End DemoURL.

(* ===================================================================== *)
(** ** The theme preference *)
(* ===================================================================== *)

Module Theme.

Definition THEME_KEY : jsstring := lit "vt_theme".

(** The [data-theme] attribute of the document ([None]: not set), the
    class of the toggle's icon ([None]: no icon element), and
    [localStorage]. *)
Record State := {
  attribute : option jsstring;
  icon : option jsstring;
  storage : gmap jsstring jsstring;
}.

Section WithJSON.
Variable JSON_parse : jsstring -> option JSON.
Variable JSON_stringify : JSON -> jsstring.
Variable fits : gmap jsstring jsstring -> jsstring -> jsstring -> bool.

(** [applyTheme(theme)]; [has_icon]: [#theme-toggle i] exists. *)
Definition applyTheme (has_icon : bool) (theme : jsstring) (st : State) : State :=
  {| attribute := Some theme;
     icon := if has_icon
             then Some (if jseqb theme (lit "dark") then lit "fas fa-sun"
                        else lit "fas fa-moon")
             else icon st;
     storage := StorageAdapter.set JSON_stringify fits (storage st) THEME_KEY
                  (JStr theme) |}.

(** [saved || fallback] for a saved value that is a text or falsy.
    [None]: the saved value is truthy and not a text, which the theme
    code, written for texts, is not modelled on. *)
Definition saved_or (saved : JSON) (fallback : jsstring) : option jsstring :=
  match saved with
  | JNull => Some fallback
  | JBool b => if b then None else Some fallback
  | JNum z => if z =? 0 then Some fallback else None
  | JStr s => Some (if truthy_str s then s else fallback)
  | JArr _ | JObj _ => None
  end.

(** The part of [initTheme()] that sets the theme; [prefersDark] is the
    result of the media query. *)
Definition initTheme (has_icon prefersDark : bool) (st : State) : option State :=
  let saved := StorageAdapter.get JSON_parse (storage st) THEME_KEY JNull in
  match saved_or saved (if prefersDark then lit "dark" else lit "light") with
  | Some theme => Some (applyTheme has_icon theme st)
  | None => None
  end.

(** The click handler of the toggle that [initTheme()] installs. *)
Definition click (has_icon : bool) (st : State) : State :=
  let current := attribute st in
  applyTheme has_icon
    (match current with
     | Some c => if jseqb c (lit "dark") then lit "light" else lit "dark"
     | None => lit "dark"
     end) st.
End WithJSON.

(** A page in the light theme with nothing stored. *)
Definition fresh_page : State :=
  {| attribute := Some (lit "light"); icon := None; storage := ∅ |}.

End Theme.

(* ===================================================================== *)
(** ** The speech module *)
(* ===================================================================== *)

Module Speech.

(** The callbacks given to [toggle]: who gave them, and which of the four
    are there. *)
Record Callbacks := {
  owner : nat;
  onResult : bool;
  onStart : bool;
  onStop : bool;
  onError : bool;
}.

(** The module variables: [SpeechRecognition !== null], [recognition !==
    null], the registered callbacks ([None] before the first [init]), and
    [isListening]. *)
Record State := {
  supported : bool;
  recognition : bool;
  callbacks : option Callbacks;
  isListening : bool;
}.

Definition initial (sup : bool) : State :=
  {| supported := sup; recognition := false; callbacks := None;
     isListening := false |}.

(** What the module does to the outside: a call of a registered callback,
    or a call of [recognition.start()] or [recognition.stop()]. *)
Inductive Effect :=
| CallStart (who : nat)
| CallStop (who : nat)
| CallResult (who : nat) (transcript : jsstring)
| CallError (who : nat) (message : jsstring)
| RecognitionStart
| RecognitionStop.

(** [if (_onX) _onX(...)] *)
Definition call (st : State) (has : Callbacks -> bool) (e : nat -> Effect)
  : list Effect :=
  match callbacks st with
  | Some cb => if has cb then [e (owner cb)] else []
  | None => []
  end.

(** [init(callbacks)] *)
Definition init (cb : Callbacks) (st : State) : State :=
  if negb (supported st) then st
  else {| supported := supported st; recognition := true; callbacks := Some cb;
          isListening := isListening st |}.

(** [start(callbacks)]; an exception of [recognition.start()] is caught. *)
Definition start (cb : Callbacks) (st : State) : State * list Effect :=
  if negb (supported st) then (st, [])
  else (init cb st, [RecognitionStart]).

(** [stop()] *)
Definition stop (st : State) : State * list Effect :=
  if recognition st && isListening st then (st, [RecognitionStop]) else (st, []).

(** [toggle(callbacks)], with the boolean it returns. *)
Definition toggle (cb : Callbacks) (st : State) : State * list Effect * bool :=
  if isListening st then (stop st, false) else (start cb st, true).

Definition set_listening (b : bool) (st : State) : State :=
  {| supported := supported st; recognition := recognition st;
     callbacks := callbacks st; isListening := b |}.

(** [recognition.onstart] *)
Definition handle_start (st : State) : State * list Effect :=
  let st' := set_listening true st in
  (st', call st' onStart CallStart).

(** [recognition.onresult], with the transcript of the first result. *)
Definition handle_result (raw : jsstring) (st : State) : State * list Effect :=
  let transcript := trim raw in
  (st, if truthy_str transcript
       then call st onResult (fun who => CallResult who transcript)
       else []).

(** [recognition.onerror], with [event.error]. *)
Definition handle_error (err : jsstring) (st : State) : State * list Effect :=
  let st' := set_listening false st in
  (st', call st' onStop CallStop
        ++ (if negb (jseqb err (lit "no-speech"))
            then call st' onError
                   (fun who => CallError who (lit "Speech recognition error: " ++ err))
            else [])).

(** [recognition.onend] *)
Definition handle_end (st : State) : State * list Effect :=
  let st' := set_listening false st in
  (st', call st' onStop CallStop).

(** What happens to the module: a click on a microphone button, or an
    event of the recogniser. *)
Inductive Event :=
| Toggle (cb : Callbacks)
| Started
| Result (raw : jsstring)
| Failed (err : jsstring)
| Ended.

Definition step (ev : Event) (st : State) : State * list Effect :=
  match ev with
  | Toggle cb => fst (toggle cb st)
  | Started => handle_start st
  | Result raw => handle_result raw st
  | Failed err => handle_error err st
  | Ended => handle_end st
  end.

(** The effects of a sequence of events, in order. *)
Fixpoint run (evs : list Event) (st : State) : State * list Effect :=
  match evs with
  | [] => (st, [])
  | ev :: evs' =>
      let '(st1, out1) := step ev st in
      let '(st2, out2) := run evs' st1 in
      (st2, out1 ++ out2)
  end.

(** What the callbacks may be given: a transcript that is trimmed and
    not empty, an error message for an error other than [no-speech]. *)
Definition effect_ok (e : Effect) : Prop :=
  match e with
  | CallResult _ t => t <> [] /\ trim t = t
  | CallError _ msg =>
      exists err, msg = lit "Speech recognition error: " ++ err /\
                  err <> lit "no-speech"
  | _ => True
  end.

(** The callbacks of the two microphone buttons. *)
Definition todo_mic : Callbacks :=
  {| owner := 1; onResult := true; onStart := true; onStop := true; onError := true |}.

Definition link_mic : Callbacks :=
  {| owner := 2; onResult := true; onStart := true; onStop := true; onError := true |}.

Definition listening_for_todos : State :=
  {| supported := true; recognition := true; callbacks := Some todo_mic;
     isListening := true |}.

(** Whose callback an effect calls. *)
Definition called (e : Effect) : option nat :=
  match e with
  | CallStart who | CallStop who | CallResult who _ | CallError who _ => Some who
  | RecognitionStart | RecognitionStop => None
  end.

End Speech.

(* ===================================================================== *)
(** ** A stand-in for [JSON] on plain values, for examples *)
(* ===================================================================== *)

Module DemoJSON.

Definition quoted (s : jsstring) : jsstring := [34%N] ++ s ++ [34%N].

(** [JSON.stringify] on [null], the booleans and texts of ASCII letters;
    no other value occurs in the examples. *)
Definition stringify (v : JSON) : jsstring :=
  match v with
  | JBool true => lit "true"
  | JBool false => lit "false"
  | JStr s => quoted s
  | _ => lit "null"
  end.

(** [JSON.parse] on what [stringify] writes; every other text is
    rejected here. *)
Definition parse (raw : jsstring) : option JSON :=
  if jseqb raw (lit "null") then Some JNull
  else if jseqb raw (lit "true") then Some (JBool true)
  else if jseqb raw (lit "false") then Some (JBool false)
  else
    match raw with
    | 34%N :: rest =>
        match rev rest with
        | 34%N :: body =>
            if forallb (fun c => is_upper c || is_lower c) body
            then Some (JStr (rev body)) else None
        | _ => None
        end
    | _ => None
    end.

(** A [localStorage] without quota. *)
Definition roomy (ls : gmap jsstring jsstring) (key raw : jsstring) : bool := true.

End DemoJSON.

(* ===================================================================== *)
(** ** The task store before its extension *)
(* ===================================================================== *)

Module OldTodos.

Record Todo := {
  id : jsstring;
  text : jsstring;
  completed : bool;
  createdAt : Z;
}.

(** The collection and the values written by
    [Storage.set(STORAGE_KEY, _)], newest first. *)
Record State := { todos : list Todo; writes : list (list Todo) }.

(** [save()] *)
Definition save (st : State) : State :=
  {| todos := todos st; writes := Storage.set (todos st) (writes st) |}.

(** [add(text)] *)
Definition add (e : Todos.Entropy) (txt : jsstring) (st : State) : State :=
  let trimmed := trim txt in
  if negb (truthy_str trimmed) then st
  else
    let todo := {|
      id := lit "todo_" ++ dec (Todos.now_id e) ++ lit "_" ++ Todos.rnd e;
      text := trimmed;
      completed := false;
      createdAt := Todos.now_created e;
    |} in
    save {| todos := todo :: todos st; writes := writes st |}.

Definition has_id (i : jsstring) (t : Todo) : bool := jseqb (id t) i.

(** [toggle(id)] *)
Definition toggle (i : jsstring) (st : State) : State :=
  match List.find (has_id i) (todos st) with
  | None => st
  | Some _ =>
      save {| todos :=
                Todos.alter_first (has_id i)
                  (fun t => {| id := id t; text := text t;
                               completed := negb (completed t);
                               createdAt := createdAt t |})
                  (todos st);
              writes := writes st |}
  end.

(** [update(id, newText)] *)
Definition update (i : jsstring) (newText : jsstring) (st : State) : State :=
  let trimmed := trim newText in
  if negb (truthy_str trimmed) then st
  else
    match List.find (has_id i) (todos st) with
    | None => st
    | Some _ =>
        save {| todos :=
                  Todos.alter_first (has_id i)
                    (fun t => {| id := id t; text := trimmed;
                                 completed := completed t;
                                 createdAt := createdAt t |})
                    (todos st);
                writes := writes st |}
    end.

(** [remove(id)] *)
Definition remove (i : jsstring) (st : State) : State :=
  save {| todos := List.filter (fun t => negb (has_id i t)) (todos st);
          writes := writes st |}.

(** The object that a task of this version is in storage. *)
Definition stored (t : Todo) : gmap string JSON :=
  {[ "id"%string := JStr (id t);
     "text"%string := JStr (text t);
     "completed"%string := JBool (completed t);
     "createdAt"%string := JNum (createdAt t) ]}.

(** The task of the extended store that has the fields of [t] and the
    defaults of the new ones. *)
Definition upgrade (t : Todo) : Todos.Todo :=
  {| Todos.id := id t; Todos.text := text t; Todos.completed := completed t;
     Todos.createdAt := createdAt t; Todos.deadline := None;
     Todos.priority := lit "medium"; Todos.subtasks := []; Todos.categories := [] |}.

(** The fields of a task of the extended store that this version has. *)
Definition forget (t : Todos.Todo) : Todo :=
  {| id := Todos.id t; text := Todos.text t; completed := Todos.completed t;
     createdAt := Todos.createdAt t |}.

Definition forget_state (st : Todos.State) : State :=
  {| todos := List.map forget (Todos.todos st);
     writes := List.map (List.map forget) (Todos.writes st) |}.

End OldTodos.

(* ===================================================================== *)
(** ** Facts about strings *)
(* ===================================================================== *)

Module JSFacts.

Lemma trimStart_blank (s : jsstring) : blank s -> trimStart s = [].
Proof.
  induction 1 as [|c s Hc _ IH]; simpl; [reflexivity|].
  now rewrite Hc.
Qed.

Lemma trim_blank (s : jsstring) : blank s -> trim s = [].
Proof.
  intros H. unfold trim, trimEnd. now rewrite (trimStart_blank s H).
Qed.

Lemma truthy_str_false (s : jsstring) : truthy_str s = false <-> s = [].
Proof. destruct s; simpl; split; congruence. Qed.

Lemma truthy_str_true (s : jsstring) : truthy_str s = true <-> s <> [].
Proof. destruct s; simpl; split; congruence. Qed.

Lemma jseqb_eq (a b : jsstring) : jseqb a b = true <-> a = b.
Proof. unfold jseqb. apply bool_decide_eq_true. Qed.

Lemma jseqb_refl (a : jsstring) : jseqb a a = true.
Proof. now apply jseqb_eq. Qed.

End JSFacts.

(* ===================================================================== *)
(** ** Facts about the task store *)
(* ===================================================================== *)

Module TodosFacts.
Import Todos Trace JSFacts TodosSpec.

(** *** Rejection of blank text *)

(** C5: for text that is empty or only whitespace, [add], [update] and
    [addSubtask] return the state they were given: the collection with
    every subtask list, and the log of persistence writes, are unchanged. *)
Theorem blank_text_is_noop (txt : jsstring) (H : blank txt) :
  forall (e : Entropy) (opts : Options) (i : jsstring) (st : State),
    add e txt opts st = st /\
    update i txt st = st /\
    addSubtask e i txt st = st.
Proof.
  intros e opts i st.
  unfold add, update, addSubtask.
  rewrite (trim_blank txt H). simpl. auto.
Qed.

Lemma blank_text_is_noop_witness :
  blank [32; 9; 160]%N /\
  add sample_entropy [32; 9; 160]%N no_options sample_state = sample_state /\
  update (lit "todo_1_aaaaa") [32; 9; 160]%N sample_state = sample_state /\
  addSubtask sample_entropy (lit "todo_1_aaaaa") [32; 9; 160]%N sample_state
    = sample_state.
Proof.
  assert (Hb : blank [32; 9; 160]%N) by (repeat constructor).
  split; [exact Hb|].
  exact (blank_text_is_noop _ Hb sample_entropy no_options
           (lit "todo_1_aaaaa") sample_state).
Defined.

(** *** Toggling *)

Lemma flip_flip (t : Todo) : flip (flip t) = t.
Proof. destruct t; unfold flip, set_completed; simpl. now rewrite negb_involutive. Qed.

Lemma has_id_flip (i : jsstring) (t : Todo) : has_id i (flip t) = has_id i t.
Proof. reflexivity. Qed.

Lemma find_some_of_exists (i : jsstring) (l : list Todo) :
  Exists (fun t => id t = i) l -> exists t, List.find (has_id i) l = Some t.
Proof.
  induction 1 as [t l Ht | t l _ IH]; simpl.
  - unfold has_id. rewrite (proj2 (jseqb_eq _ _) Ht). eauto.
  - destruct (has_id i t); eauto.
Qed.

Lemma find_alter_first (i : jsstring) (l : list Todo) :
  List.find (has_id i) (alter_first (has_id i) flip l)
  = option_map flip (List.find (has_id i) l).
Proof.
  induction l as [|t l IH]; simpl; [reflexivity|].
  destruct (has_id i t) eqn:E; simpl.
  - now rewrite has_id_flip, E.
  - now rewrite E.
Qed.

Lemma alter_first_flip_twice (i : jsstring) (l : list Todo) :
  alter_first (has_id i) flip (alter_first (has_id i) flip l) = l.
Proof.
  induction l as [|t l IH]; simpl; [reflexivity|].
  destruct (has_id i t) eqn:E; simpl.
  - now rewrite has_id_flip, E, flip_flip.
  - now rewrite E, IH.
Qed.

(** What one [toggle] does to the list: the first task with the
    identifier has its flag negated, nothing else changes. *)
Lemma alter_first_flip_spec (i : jsstring) (l : list Todo) (t : Todo) :
  List.find (has_id i) l = Some t ->
  exists l1 l2,
    l = l1 ++ t :: l2 /\
    alter_first (has_id i) flip l = l1 ++ flip t :: l2.
Proof.
  revert t. induction l as [|x l IH]; intros t; simpl; [discriminate|].
  destruct (has_id i x) eqn:E.
  - intros [= ->]. now exists [], l.
  - intros H. destruct (IH t H) as (l1 & l2 & -> & ->).
    now exists (x :: l1), l2.
Qed.

(** C9: for an identifier present in the collection, the first [toggle]
    negates the completion flag of the task it finds and changes nothing
    else, the second restores the collection exactly, and each of the two
    calls appends one persistence write. *)
Theorem toggle_twice (i : jsstring) (st : State)
    (H : Exists (fun t => id t = i) (todos st)) :
  let st1 := toggle i st in
  let st2 := toggle i st1 in
  (exists t l1 l2,
      List.find (has_id i) (todos st) = Some t /\
      todos st = l1 ++ t :: l2 /\
      todos st1 = l1 ++ set_completed (negb (completed t)) t :: l2) /\
  todos st2 = todos st /\
  writes st1 = todos st1 :: writes st /\
  writes st2 = todos st2 :: writes st1.
Proof.
  destruct (find_some_of_exists i _ H) as [t Ht].
  assert (E1 : toggle i st
               = save (set_todos (alter_first (has_id i) flip (todos st)) st)).
  { unfold toggle. now rewrite Ht. }
  assert (E2 : toggle i (toggle i st)
               = save (set_todos (todos st) (toggle i st))).
  { unfold toggle at 1. rewrite E1. simpl.
    fold flip. rewrite find_alter_first, Ht. simpl.
    now rewrite alter_first_flip_twice. }
  cbv zeta. split; [|split; [|split]].
  - destruct (alter_first_flip_spec i _ t Ht) as (l1 & l2 & Hl & Hl').
    exists t, l1, l2. split; [exact Ht|]. split; [exact Hl|].
    rewrite E1. simpl. exact Hl'.
  - rewrite E2. reflexivity.
  - rewrite E1. reflexivity.
  - rewrite E2. reflexivity.
Qed.

Lemma toggle_twice_witness :
  let st1 := toggle (lit "todo_1_aaaaa") sample_state in
  let st2 := toggle (lit "todo_1_aaaaa") st1 in
  (exists t l1 l2,
      List.find (has_id (lit "todo_1_aaaaa")) (todos sample_state) = Some t /\
      todos sample_state = l1 ++ t :: l2 /\
      todos st1 = l1 ++ set_completed (negb (completed t)) t :: l2) /\
  todos st2 = todos sample_state /\
  writes st1 = todos st1 :: writes sample_state /\
  writes st2 = todos st2 :: writes st1.
Proof.
  apply (toggle_twice (lit "todo_1_aaaaa") sample_state).
  apply Exists_cons_hd. reflexivity.
Defined.

(** *** Priorities *)


Lemma Forall_alter_first {A} (P : A -> Prop) (p : A -> bool) (f : A -> A) (l : list A) :
  (forall x, P x -> P (f x)) -> Forall P l -> Forall P (alter_first p f l).
Proof.
  intros Hf. induction 1 as [|x l Hx Hl IH]; simpl; [constructor|].
  destruct (p x); constructor; auto.
Qed.

Lemma Forall_list_filter {A} (P : A -> Prop) (p : A -> bool) (l : list A) :
  Forall P l -> Forall P (List.filter p l).
Proof.
  induction 1 as [|x l Hx Hl IH]; simpl; [constructor|].
  destruct (p x); [constructor|]; auto.
Qed.

Lemma read_str_some (v : option JSON) (s : jsstring) :
  read_str v = Some s -> v = Some (JStr s).
Proof. destruct v as [[]|]; simpl; congruence. Qed.

Lemma read_todo_priority (o : gmap string JSON) (t : Todo) :
  read_todo o = Some t -> o !! "priority"%string = Some (JStr (priority t)).
Proof.
  unfold read_todo. intros H.
  destruct (read_str (o !! "id"%string)); simpl in H; [|discriminate].
  destruct (read_str (o !! "text"%string)); simpl in H; [|discriminate].
  destruct (read_bool (o !! "completed"%string)); simpl in H; [|discriminate].
  destruct (read_num (o !! "createdAt"%string)); simpl in H; [|discriminate].
  destruct (read_nullable_str (o !! "deadline"%string)); simpl in H; [|discriminate].
  destruct (read_str (o !! "priority"%string)) as [p|] eqn:Hp; simpl in H;
    [|discriminate].
  destruct (read_array read_subtask (o !! "subtasks"%string)); simpl in H;
    [|discriminate].
  destruct (read_array _ (o !! "categories"%string)); simpl in H; [|discriminate].
  injection H as <-. simpl. now apply read_str_some.
Qed.

Lemma migrate_lookup_present (t : gmap string JSON) (k : string) (v : JSON) :
  t !! k = Some v -> migrate t !! k = Some v.
Proof. intros H. unfold migrate. now apply lookup_union_Some_l. Qed.

Lemma migrate_lookup_absent (t : gmap string JSON) (k : string) :
  t !! k = None -> migrate t !! k = load_defaults !! k.
Proof. intros H. unfold migrate. now apply lookup_union_r. Qed.

Lemma load_priorities (raw : list (gmap string JSON)) (st st' : State) :
  op_priorities_valid (OpLoad raw) ->
  load raw st = Some st' ->
  priorities_valid (todos st').
Proof.
  unfold load. intros Hraw H.
  destruct (mapM _ raw) as [ts|] eqn:Hts; simpl in H; [|discriminate].
  injection H as <-. simpl.
  apply mapM_Some in Hts. simpl in Hraw.
  induction Hts as [|t todo raw ts Hread _ IH]; [constructor|].
  apply Forall_cons in Hraw as [Ht Hraw].
  constructor; [|now apply IH].
  apply read_todo_priority in Hread.
  destruct (t !! "priority"%string) as [v|] eqn:Hv.
  - rewrite (migrate_lookup_present t _ v Hv) in Hread.
    injection Hread as ->. exact Ht.
  - rewrite (migrate_lookup_absent t _ Hv) in Hread.
    change (Some (JStr (lit "medium")) = Some (JStr (priority todo))) in Hread.
    injection Hread as <-.
    right; left; reflexivity.
Qed.

Lemma or_else_valid (o : option jsstring) :
  match o with Some p => p = [] \/ valid_priority p | None => True end ->
  valid_priority (or_else o (lit "medium")).
Proof.
  destruct o as [[|c p]|]; simpl.
  - intros _. right; left; reflexivity.
  - intros [H|H]; [discriminate|exact H].
  - intros _. right; left; reflexivity.
Qed.

Lemma apply_priorities (o : op) (st st' : State) :
  op_priorities_valid o ->
  priorities_valid (todos st) ->
  apply o st = Some st' ->
  priorities_valid (todos st').
Proof.
  intros Ho Hst H. destruct o; simpl in H.
  - eapply load_priorities; eauto.
  - injection H as <-. unfold add.
    destruct (negb (truthy_str (trim txt))); [exact Hst|].
    simpl. constructor; [|exact Hst]. simpl. now apply or_else_valid.
  - injection H as <-. unfold toggle.
    destruct (List.find _ _); [|exact Hst].
    simpl. now apply Forall_alter_first.
  - injection H as <-. unfold update.
    destruct (negb (truthy_str (trim txt))); [exact Hst|].
    destruct (List.find _ _); [|exact Hst].
    simpl. now apply Forall_alter_first.
  - injection H as <-. simpl. now apply Forall_list_filter.
  - injection H as <-. unfold addSubtask.
    destruct (negb (truthy_str (trim txt))); [exact Hst|].
    destruct (List.find _ _); [|exact Hst].
    simpl. now apply Forall_alter_first.
  - injection H as <-. unfold toggleSubtask.
    destruct (List.find _ _) as [todo|]; [|exact Hst].
    destruct (List.find _ _); [|exact Hst].
    simpl. now apply Forall_alter_first.
  - injection H as <-. unfold removeSubtask.
    destruct (List.find _ _); [|exact Hst].
    simpl. now apply Forall_alter_first.
  - injection H as <-. exact Hst.
  - injection H as <-. exact Hst.
Qed.

Lemma run_priorities (ops : list op) (st st' : State) :
  Forall op_priorities_valid ops ->
  priorities_valid (todos st) ->
  run ops st = Some st' ->
  priorities_valid (todos st').
Proof.
  intros Hops. revert st.
  induction Hops as [|o ops Ho _ IH]; intros st Hst H; simpl in H.
  - now injection H as <-.
  - destruct (apply o st) as [st1|] eqn:E; [|discriminate].
    eapply IH; [|exact H]. eapply apply_priorities; eauto.
Qed.

(** C4, as the code has it: [add] stores a non-empty [options.priority]
    as it is given and ['medium'] when it is unspecified; and in every
    state reached by calls that bring no priority from outside the three
    (see [op_priorities_valid]), every task's priority is one of ['low'],
    ['medium'], ['high']. *)
Theorem priority_invariant :
  (forall (e : Entropy) (txt : jsstring) (opts : Options) (st : State),
      trim txt <> [] ->
      exists t,
        todos (add e txt opts st) = t :: todos st /\
        (o_priority opts = None \/ o_priority opts = Some [] ->
         priority t = lit "medium") /\
        (forall p, o_priority opts = Some p -> p <> [] -> priority t = p)) /\
  (forall (ops : list op) (st : State),
      Forall op_priorities_valid ops ->
      run ops init_state = Some st ->
      priorities_valid (todos st)).
Proof.
  split.
  - intros e txt opts st Htxt. unfold add.
    apply truthy_str_true in Htxt. rewrite Htxt. simpl.
    eexists. split; [reflexivity|]. simpl. split.
    + now intros [-> | ->].
    + intros p -> Hp. simpl. apply truthy_str_true in Hp. now rewrite Hp.
  - intros ops st Hops H.
    eapply run_priorities; [exact Hops| |exact H]. constructor.
Qed.

Lemma priority_invariant_witness :
  (exists t,
      todos (add sample_entropy (lit " call Ana ") high_options sample_state)
      = t :: todos sample_state /\
      (o_priority high_options = None \/ o_priority high_options = Some [] ->
       priority t = lit "medium") /\
      (forall p, o_priority high_options = Some p -> p <> [] -> priority t = p)) /\
  priorities_valid
    (todos (toggle (lit "todo_1_aaaaa")
              (add sample_entropy (lit "call Ana") high_options init_state))).
Proof.
  split.
  - apply (proj1 priority_invariant sample_entropy (lit " call Ana ")
             high_options sample_state).
    vm_compute. discriminate.
  - apply (proj2 priority_invariant
             [OpAdd sample_entropy (lit "call Ana") high_options;
              OpToggle (lit "todo_1_aaaaa")]).
    + constructor; [|constructor; [exact I|constructor]].
      simpl. right; right; right. reflexivity.
    + reflexivity.
Defined.

(** C4 fails as stated: one [add] with [options.priority = 'urgent'] on
    the initial state reaches a state whose task has a priority outside
    ['low'], ['medium'], ['high']. *)
Lemma add_keeps_unknown_priority :
  reachable (add sample_entropy (lit "pay rent") urgent_options init_state) /\
  ~ priorities_valid
      (todos (add sample_entropy (lit "pay rent") urgent_options init_state)).
Proof.
  split.
  - exists [OpAdd sample_entropy (lit "pay rent") urgent_options]. reflexivity.
  - intros H. apply Forall_inv in H. vm_compute in H.
    destruct H as [H|[H|H]]; discriminate.
Qed.

(** *** Migration on load *)

Lemma read_subtask_object (s : Subtask) : read_subtask (subtask_object s) = Some s.
Proof. destruct s as [i x c]. vm_compute. reflexivity. Qed.

Lemma mapM_objects {A} (f : JSON -> option A) (g : A -> JSON) (l : list A) :
  (forall x, f (g x) = Some x) -> mapM f (List.map g l) = Some l.
Proof.
  intros H. induction l as [|x l IH]; simpl; [reflexivity|].
  rewrite H. simpl. rewrite IH. reflexivity.
Qed.

(** The keys of a stored record after the spread over the defaults. *)
Lemma stored_lookups (r : Stored) :
  let o := migrate (stored_object r) in
  o !! "id"%string = Some (JStr (s_id r)) /\
  o !! "text"%string = Some (JStr (s_text r)) /\
  o !! "completed"%string = Some (JBool (s_completed r)) /\
  o !! "createdAt"%string = Some (JNum (s_createdAt r)) /\
  o !! "deadline"%string
  = Some (match s_deadline r with Some (Some d) => JStr d | _ => JNull end) /\
  o !! "priority"%string
  = Some (JStr (match s_priority r with Some p => p | None => lit "medium" end)) /\
  o !! "subtasks"%string
  = Some (JArr (match s_subtasks r with
                | Some l => List.map subtask_object l
                | None => []
                end)) /\
  o !! "categories"%string
  = Some (JArr (match s_categories r with
                | Some l => List.map JStr l
                | None => []
                end)).
Proof.
  destruct r as [i x c n d p s g].
  destruct d as [[d|]|], p as [p|], s as [s|], g as [g|];
    vm_compute; repeat split; reflexivity.
Qed.

Lemma read_stored (r : Stored) :
  read_todo (migrate (stored_object r)) = Some (expected_task r).
Proof.
  destruct (stored_lookups r) as (Hi & Hx & Hc & Hn & Hd & Hp & Hs & Hg).
  unfold read_todo. rewrite Hi, Hx, Hc, Hn, Hd, Hp, Hs, Hg.
  assert (Ed : read_nullable_str
                 (Some (match s_deadline r with Some (Some d) => JStr d | _ => JNull end))
               = Some (match s_deadline r with Some d => d | None => None end)).
  { destruct (s_deadline r) as [[d|]|]; reflexivity. }
  assert (Es : read_array read_subtask
                 (Some (JArr (match s_subtasks r with
                              | Some l => List.map subtask_object l
                              | None => []
                              end)))
               = Some (match s_subtasks r with Some l => l | None => [] end)).
  { destruct (s_subtasks r) as [l|]; [|reflexivity].
    apply mapM_objects, read_subtask_object. }
  assert (Eg : read_array (fun v => read_str (Some v))
                 (Some (JArr (match s_categories r with
                              | Some l => List.map JStr l
                              | None => []
                              end)))
               = Some (match s_categories r with Some l => l | None => [] end)).
  { destruct (s_categories r) as [l|]; [|reflexivity].
    apply mapM_objects. reflexivity. }
  rewrite Ed, Es, Eg. reflexivity.
Qed.

(** C8: [load] of a stored array of task records, each with any of
    [deadline], [priority], [subtasks] and [categories] present or not,
    gives in memory, record by record and in stored order, the task that
    has every stored value as it is and [null], ['medium'], [[]] and [[]]
    for the fields the record lacks; it leaves the filter, the sort and
    the log of persistence writes as they were.  For any stored object,
    task record or not, the spread keeps the value of every key present
    and binds the four optional keys that are absent to their defaults,
    and no other key. *)
Theorem load_defaults_missing_fields (rs : list Stored) (st : State) :
  load (List.map stored_object rs) st
  = Some {| todos := List.map expected_task rs;
            currentFilter := currentFilter st;
            currentSort := currentSort st;
            writes := writes st |} /\
  (forall (t : gmap string JSON) (k : string) (v : JSON),
      t !! k = Some v -> migrate t !! k = Some v) /\
  (forall t : gmap string JSON,
      (t !! "deadline"%string = None ->
       migrate t !! "deadline"%string = Some JNull) /\
      (t !! "priority"%string = None ->
       migrate t !! "priority"%string = Some (JStr (lit "medium"))) /\
      (t !! "subtasks"%string = None ->
       migrate t !! "subtasks"%string = Some (JArr [])) /\
      (t !! "categories"%string = None ->
       migrate t !! "categories"%string = Some (JArr [])) /\
      (forall k : string,
          t !! k = None ->
          k <> "deadline"%string -> k <> "priority"%string ->
          k <> "subtasks"%string -> k <> "categories"%string ->
          migrate t !! k = None)).
Proof.
  split; [|split].
  - unfold load.
    assert (E : mapM (fun t => read_todo (migrate t)) (List.map stored_object rs)
                = Some (List.map expected_task rs)).
    { induction rs as [|r rs IH]; simpl; [reflexivity|].
      rewrite read_stored. simpl. rewrite IH. reflexivity. }
    rewrite E. reflexivity.
  - apply migrate_lookup_present.
  - intros t.
    repeat split; try (intros Hk; rewrite (migrate_lookup_absent t _ Hk); reflexivity).
    intros k Hk Hd Hp Hs Hg. rewrite (migrate_lookup_absent t _ Hk).
    unfold load_defaults.
    rewrite !lookup_insert_ne by congruence.
    apply lookup_singleton_ne. congruence.
Qed.

Example load_stored_samples :
  load (List.map stored_object stored_samples) sample_state
  = Some {| todos :=
              [ {| id := lit "todo_1_aaaaa"; text := lit "water plants";
                   completed := true; createdAt := 1700000000000;
                   deadline := None; priority := lit "medium";
                   subtasks := []; categories := [] |};
                {| id := lit "todo_2_bbbbb"; text := lit "file taxes";
                   completed := false; createdAt := 1700000000500;
                   deadline := Some (lit "2024-04-15"); priority := lit "high";
                   subtasks := []; categories := [] |};
                {| id := lit "todo_3_ccccc"; text := lit "pack";
                   completed := false; createdAt := 1700000000900;
                   deadline := None; priority := lit "low";
                   subtasks :=
                     [ {| sub_id := lit "sub_1_aaaaa"; sub_text := lit "socks";
                          sub_completed := true |} ];
                   categories := [lit "travel"] |} ];
            currentFilter := FOverdue; currentSort := Priority; writes := [] |}.
Proof. vm_compute. reflexivity. Qed.

(** *** Sorting *)

Section Sorting.
Context {A : Type}.
Variable cmp : A -> A -> num.

Lemma insert_perm (x : A) (l : list A) : Permutation (insert cmp x l) (x :: l).
Proof.
  induction l as [|y l IH]; simpl; [reflexivity|].
  destruct (positive (cmp x y)); [|reflexivity].
  rewrite IH. apply perm_swap.
Qed.

Lemma sort_perm (l : list A) : Permutation (sort cmp l) l.
Proof.
  induction l as [|x l IH]; simpl; [reflexivity|].
  rewrite insert_perm. now constructor.
Qed.
End Sorting.

(** Sorting by an integer key, largest first: the comparator
    [(a, b) => key(b) - key(a)]. *)
Section KeySort.
Context {A : Type}.
Variable key : A -> Z.

Local Abbreviation by_key_desc := (by_key_desc key).
Local Abbreviation not_below := (not_below key).

Lemma insert_sorted (x : A) (l : list A) :
  StronglySorted not_below l -> StronglySorted not_below (insert by_key_desc x l).
Proof.
  induction 1 as [|y l Hl IH Hy]; simpl.
  - repeat constructor.
  - destruct (0 <? key y - key x) eqn:E.
    + apply Z.ltb_lt in E. constructor; [exact IH|].
      eapply Permutation_Forall; [symmetry; apply insert_perm|].
      constructor; [unfold not_below; lia|exact Hy].
    + apply Z.ltb_ge in E. constructor; [now constructor|].
      constructor; [unfold not_below; lia|].
      eapply Forall_impl; [exact Hy|].
      unfold not_below. intros z Hz. lia.
Qed.

Lemma sort_sorted (l : list A) : StronglySorted not_below (sort by_key_desc l).
Proof.
  induction l as [|x l IH]; simpl; [constructor|]. now apply insert_sorted.
Qed.

(** Stability: a class of elements that all have the same key keeps
    its order. *)
Lemma insert_stable (q : A -> bool) (x : A) (l : list A) :
  (forall a b, q a = true -> q b = true -> key a = key b) ->
  List.filter q (insert by_key_desc x l) = List.filter q (x :: l).
Proof.
  intros Hq. induction l as [|y l IH]; [reflexivity|].
  simpl insert. destruct (0 <? key y - key x) eqn:E; [|reflexivity].
  apply Z.ltb_lt in E.
  change (List.filter q (y :: insert by_key_desc x l))
    with (if q y then y :: List.filter q (insert by_key_desc x l)
          else List.filter q (insert by_key_desc x l)).
  rewrite IH. simpl.
  destruct (q y) eqn:Ey, (q x) eqn:Ex; try reflexivity.
  specialize (Hq _ _ Ex Ey). lia.
Qed.

Lemma sort_stable (q : A -> bool) (l : list A) :
  (forall a b, q a = true -> q b = true -> key a = key b) ->
  List.filter q (sort by_key_desc l) = List.filter q l.
Proof.
  intros Hq. induction l as [|x l IH]; [reflexivity|].
  simpl sort. rewrite (insert_stable q x _ Hq). simpl. now rewrite IH.
Qed.

Lemma sorted_lookup (l : list A) (i j : nat) (a b : A) :
  StronglySorted not_below l ->
  (i < j)%nat -> l !! i = Some a -> l !! j = Some b -> not_below a b.
Proof.
  intros Hl. revert i j. induction Hl as [|x l Hl IH Hx]; intros i j Hij Hi Hj.
  - discriminate.
  - destruct j as [|j]; [lia|]. simpl in Hj.
    destruct i as [|i]; simpl in Hi.
    + injection Hi as <-.
      rewrite Forall_forall in Hx. apply Hx.
      eapply list_elem_of_lookup_2. exact Hj.
    + apply (IH i j); [lia|exact Hi|exact Hj].
Qed.

(** In the sorted list an element with a larger key stands before one
    with a smaller key. *)
Lemma sorted_larger_first (l : list A) (i j : nat) (a b : A) :
  StronglySorted not_below l ->
  l !! i = Some a -> l !! j = Some b -> key b < key a -> (i < j)%nat.
Proof.
  intros Hl Hi Hj Hk.
  destruct (lt_eq_lt_dec i j) as [[Hlt|Heq]|Hgt]; [exact Hlt| |].
  - subst j. rewrite Hi in Hj. injection Hj as ->. lia.
  - pose proof (sorted_lookup l j i b a Hl Hgt Hj Hi) as H.
    unfold not_below in H. lia.
Qed.
End KeySort.

(** *** The derived view and the deadline predicates *)

Lemma priorityValue_high : priorityValue (lit "high") = 3.
Proof. reflexivity. Qed.

Lemma priorityValue_medium : priorityValue (lit "medium") = 2.
Proof. reflexivity. Qed.

Lemma priorityValue_low : priorityValue (lit "low") = 1.
Proof. reflexivity. Qed.

Section Dates.
Variable Date_parse : jsstring -> option Z.
Variables getFullYear getMonth getDate : Z -> Z.
Variable Date_local : Z -> Z -> Z -> Z.
Variable setDate : Z -> Z -> Z.

Local Abbreviation parseDeadline := (parseDeadline Date_parse).
Local Abbreviation today_of := (today_of getFullYear getMonth getDate Date_local).
Local Abbreviation tomorrow_of := (tomorrow_of getDate setDate).
Local Abbreviation isOverdue :=
  (isOverdue Date_parse getFullYear getMonth getDate Date_local).
Local Abbreviation isWarning :=
  (isWarning Date_parse getFullYear getMonth getDate Date_local setDate).
Local Abbreviation filter_pred :=
  (filter_pred Date_parse getFullYear getMonth getDate Date_local).
Local Abbreviation getVisible :=
  (getVisible Date_parse getFullYear getMonth getDate Date_local).
Local Abbreviation Overdue :=
  (Overdue Date_parse getFullYear getMonth getDate Date_local).
Local Abbreviation overdue :=
  (overdue Date_parse getFullYear getMonth getDate Date_local).

Lemma isOverdue_overdue (now : Z) (t : Todo) : isOverdue now t = overdue now t.
Proof.
  unfold Todos.isOverdue, TodosSpec.overdue, Todos.parseDeadline, Todos.today_of.
  destruct (deadline t) as [[|c d]|]; simpl.
  - now rewrite andb_false_r.
  - destruct (completed t); simpl; [reflexivity|].
    destruct (Date_parse _); reflexivity.
  - now rewrite andb_false_r.
Qed.

Lemma overdue_iff (now : Z) (t : Todo) : overdue now t = true <-> Overdue now t.
Proof.
  unfold TodosSpec.overdue, Overdue. rewrite andb_true_iff, negb_true_iff. split.
  - intros [Hc H]. split; [exact Hc|].
    destruct (deadline t) as [[|c d]|]; try discriminate.
    destruct (Date_parse ((c :: d) ++ lit "T00:00:00")) as [due|] eqn:Ep;
      [|discriminate].
    exists (c :: d), due. apply Z.ltb_lt in H.
    split; [reflexivity|]. split; [discriminate|]. split; [exact Ep|exact H].
  - intros (Hc & d & due & Hd & Hne & Hp & Hlt). split; [exact Hc|].
    rewrite Hd. destruct d as [|c d]; [contradiction|].
    rewrite Hp. now apply Z.ltb_lt.
Qed.

(** C3: under the filter ['overdue'], and at every moment [now],
    [getVisible()] is a rearrangement of the tasks of the collection that
    are not completed, have a deadline, and whose deadline's local
    midnight is strictly before the local midnight of the day of [now];
    a task is in it exactly when it is such a task of the collection; so
    no completed task and no task without a deadline is in it. *)
Theorem overdue_view_exact (now : Z) (st : State)
    (H : currentFilter st = FOverdue) :
  Permutation (getVisible now st) (List.filter (overdue now) (todos st)) /\
  (forall t, In t (getVisible now st) <-> In t (todos st) /\ Overdue now t) /\
  (forall t, In t (getVisible now st) ->
             completed t = false /\ exists d, deadline t = Some d /\ d <> []).
Proof.
  assert (Hp : Permutation (getVisible now st)
                 (List.filter (overdue now) (todos st))).
  { unfold Todos.getVisible. rewrite H. simpl filter_pred.
    rewrite (List.filter_ext _ _ (isOverdue_overdue now)). apply sort_perm. }
  assert (Hiff : forall t, In t (getVisible now st)
                           <-> In t (todos st) /\ Overdue now t).
  { intros t. rewrite <- overdue_iff, <- List.filter_In.
    split; apply Permutation_in; [exact Hp|symmetry; exact Hp]. }
  split; [exact Hp|]. split; [exact Hiff|].
  intros t Ht. apply Hiff in Ht as (_ & Hc & d & due & Hd & Hne & _).
  split; [exact Hc|]. now exists d.
Qed.

(** C6: under the sort ['priority'], [getVisible()] is a rearrangement
    of the filtered collection in which every ['high'] task stands before
    every ['medium'] task and every ['medium'] task before every ['low']
    task, whatever the creation times, and in which the tasks of any one
    priority are in the order the collection has them. *)
Theorem priority_view_order (now : Z) (st : State)
    (H : currentSort st = Priority) :
  let shown := List.filter (filter_pred now (currentFilter st)) (todos st) in
  let v := getVisible now st in
  Permutation v shown /\
  (forall (i j : nat) (a b : Todo),
      v !! i = Some a -> v !! j = Some b ->
      (priority a = lit "high" /\ priority b = lit "medium") \/
      (priority a = lit "medium" /\ priority b = lit "low") \/
      (priority a = lit "high" /\ priority b = lit "low") ->
      (i < j)%nat) /\
  (forall p, List.filter (has_priority p) v = List.filter (has_priority p) shown).
Proof.
  intros shown v.
  assert (Hv : v = sort (by_key_desc by_priority) shown).
  { unfold v, Todos.getVisible. rewrite H. reflexivity. }
  rewrite Hv. split; [apply sort_perm|]. split.
  - intros i j a b Hi Hj Hab.
    apply (sorted_larger_first by_priority _ i j a b (sort_sorted _ _) Hi Hj).
    unfold by_priority.
    destruct Hab as [[-> ->]|[[-> ->]|[-> ->]]];
      rewrite ?priorityValue_high, ?priorityValue_medium, ?priorityValue_low; lia.
  - intros p. apply sort_stable.
    intros a b Ha Hb. unfold has_priority in *. unfold by_priority.
    apply jseqb_eq in Ha, Hb. congruence.
Qed.

End Dates.

(** *** Examples on the UTC platform *)

Example overdue_view_sample :
  List.map id (utc_getVisible sample_now overdue_by_priority) = [lit "t5"; lit "t1"].
Proof. vm_compute. reflexivity. Qed.

Example priority_view_sample :
  List.map id (utc_getVisible sample_now all_by_priority)
  = [lit "t2"; lit "t4"; lit "t3"; lit "t5"; lit "t1"].
Proof. vm_compute. reflexivity. Qed.

Lemma overdue_view_exact_witness :
  Permutation (utc_getVisible sample_now overdue_by_priority)
    (List.filter (utc_overdue sample_now) (todos overdue_by_priority)) /\
  (forall t, In t (utc_getVisible sample_now overdue_by_priority)
             <-> In t (todos overdue_by_priority) /\ utc_Overdue sample_now t) /\
  (forall t, In t (utc_getVisible sample_now overdue_by_priority) ->
             completed t = false /\ exists d, deadline t = Some d /\ d <> []).
Proof.
  apply (overdue_view_exact UTC.Date_parse UTC.getFullYear UTC.getMonth UTC.getDate
           UTC.Date_local sample_now overdue_by_priority).
  reflexivity.
Defined.

Lemma priority_view_order_witness :
  let shown := List.filter (utc_filter_pred sample_now (currentFilter all_by_priority))
                 (todos all_by_priority) in
  let v := utc_getVisible sample_now all_by_priority in
  Permutation v shown /\
  (forall (i j : nat) (a b : Todo),
      v !! i = Some a -> v !! j = Some b ->
      (priority a = lit "high" /\ priority b = lit "medium") \/
      (priority a = lit "medium" /\ priority b = lit "low") \/
      (priority a = lit "high" /\ priority b = lit "low") ->
      (i < j)%nat) /\
  (forall p, List.filter (has_priority p) v = List.filter (has_priority p) shown).
Proof.
  apply (priority_view_order UTC.Date_parse UTC.getFullYear UTC.getMonth UTC.getDate
           UTC.Date_local sample_now all_by_priority).
  reflexivity.
Defined.


End TodosFacts.

(* ===================================================================== *)
(** ** More facts about the mutations of the task store *)
(* ===================================================================== *)

Module TodosOpsFacts.
Import Todos JSFacts TodosSpec TodosOpsSpec.

(** *** Lists changed at the first match *)

Section AlterFirst.
Context {A : Type}.
Variable p : A -> bool.

Lemma alter_first_split (f : A -> A) (l : list A) (x : A) :
  List.find p l = Some x ->
  exists l1 l2,
    l = l1 ++ x :: l2 /\ Forall (fun y => p y = false) l1 /\ p x = true /\
    alter_first p f l = l1 ++ f x :: l2.
Proof.
  revert x. induction l as [|y l IH]; intros x; simpl; [discriminate|].
  destruct (p y) eqn:E.
  - intros [= ->]. exists [], l. repeat split; auto.
  - intros H. destruct (IH x H) as (l1 & l2 & -> & Hl1 & Hx & ->).
    exists (y :: l1), l2. repeat split; auto.
Qed.

Lemma alter_first_none (f : A -> A) (l : list A) :
  List.find p l = None -> alter_first p f l = l.
Proof.
  induction l as [|y l IH]; simpl; [reflexivity|].
  destruct (p y); [discriminate|]. intros H. now rewrite IH.
Qed.

Lemma alter_first_fix (f : A -> A) (l : list A) :
  (forall x, p x = true -> f x = x) -> alter_first p f l = l.
Proof.
  intros Hf. induction l as [|y l IH]; simpl; [reflexivity|].
  destruct (p y) eqn:E; [now rewrite Hf|now rewrite IH].
Qed.

Lemma alter_first_fix_found (f : A -> A) (l : list A) (x : A) :
  List.find p l = Some x -> f x = x -> alter_first p f l = l.
Proof.
  revert x. induction l as [|y l IH]; intros x; simpl; [discriminate|].
  destruct (p y).
  - intros [= ->] Hf. now rewrite Hf.
  - intros H Hf. now rewrite (IH x H Hf).
Qed.

Lemma alter_first_twice (f g : A -> A) (l : list A) :
  (forall x, p (g x) = p x) ->
  alter_first p f (alter_first p g l) = alter_first p (fun x => f (g x)) l.
Proof.
  intros Hg. induction l as [|y l IH]; simpl; [reflexivity|].
  destruct (p y) eqn:E; simpl.
  - now rewrite Hg, E.
  - now rewrite E, IH.
Qed.

Lemma find_alter_first_any (f : A -> A) (l : list A) :
  (forall x, p (f x) = p x) ->
  List.find p (alter_first p f l) = option_map f (List.find p l).
Proof.
  intros Hf. induction l as [|y l IH]; simpl; [reflexivity|].
  destruct (p y) eqn:E; simpl.
  - now rewrite Hf, E.
  - now rewrite E.
Qed.

Lemma find_at (l1 : list A) (x : A) (l2 : list A) :
  Forall (fun y => p y = false) l1 -> p x = true ->
  List.find p (l1 ++ x :: l2) = Some x.
Proof.
  intros H Hx. induction H as [|y l1 Hy _ IH]; simpl; [now rewrite Hx|].
  now rewrite Hy.
Qed.

Lemma alter_first_at (f : A -> A) (l1 : list A) (x : A) (l2 : list A) :
  Forall (fun y => p y = false) l1 -> p x = true ->
  alter_first p f (l1 ++ x :: l2) = l1 ++ f x :: l2.
Proof.
  intros H Hx. induction H as [|y l1 Hy _ IH]; simpl; [now rewrite Hx|].
  now rewrite Hy, IH.
Qed.

Lemma map_alter_first {B} (g : A -> B) (f : A -> A) (l : list A) :
  (forall x, g (f x) = g x) -> List.map g (alter_first p f l) = List.map g l.
Proof.
  intros Hf. induction l as [|y l IH]; simpl; [reflexivity|].
  destruct (p y); simpl; [now rewrite Hf|now rewrite IH].
Qed.
End AlterFirst.

Lemma find_none_of_forall (i : jsstring) (l : list Todo) :
  Forall (fun t => id t <> i) l -> List.find (has_id i) l = None.
Proof.
  induction 1 as [|t l Ht _ IH]; simpl; [reflexivity|].
  destruct (has_id i t) eqn:E; [|exact IH].
  apply jseqb_eq in E. contradiction.
Qed.

Lemma find_sub_none_of_forall (j : jsstring) (l : list Subtask) :
  Forall (fun s => sub_id s <> j) l -> List.find (has_sub_id j) l = None.
Proof.
  induction 1 as [|s l Hs _ IH]; simpl; [reflexivity|].
  destruct (has_sub_id j s) eqn:E; [|exact IH].
  apply jseqb_eq in E. contradiction.
Qed.

Lemma find_sub_some_of_exists (j : jsstring) (l : list Subtask) :
  Exists (fun s => sub_id s = j) l -> exists s, List.find (has_sub_id j) l = Some s.
Proof.
  induction 1 as [s l Hs | s l _ IH]; simpl.
  - unfold has_sub_id. rewrite (proj2 (jseqb_eq _ _) Hs). eauto.
  - destruct (has_sub_id j s); eauto.
Qed.

Lemma filter_none_removed {A} (q : A -> bool) (l : list A) :
  Forall (fun x => q x = true) l -> List.filter q l = l.
Proof.
  induction 1 as [|x l Hx _ IH]; simpl; [reflexivity|]. now rewrite Hx, IH.
Qed.

Lemma set_subtasks_same (t : Todo) : set_subtasks (subtasks t) t = t.
Proof. now destruct t. Qed.

(** *** Creation *)

(** X1: [add] with text that is not blank puts exactly one new task at
    the head of the collection, leaves the tasks that were there as they
    were, and writes the new collection once.  The new task has the trimmed
    text, is not completed, has no subtasks, carries the identifier and
    the creation time read from the environment, and never has the empty
    text as its deadline. *)
Theorem add_prepends_task (e : Entropy) (txt : jsstring) (opts : Options)
    (st : State) (H : trim txt <> []) :
  exists t,
    add e txt opts st
    = {| todos := t :: todos st; currentFilter := currentFilter st;
         currentSort := currentSort st;
         writes := (t :: todos st) :: writes st |} /\
    id t = genId (lit "todo") e /\
    text t = trim txt /\
    completed t = false /\
    createdAt t = now_created e /\
    subtasks t = [] /\
    deadline t <> Some [].
Proof.
  unfold add. apply truthy_str_true in H. rewrite H. simpl.
  eexists. split; [reflexivity|]. simpl. repeat split.
  destruct (o_deadline opts) as [[|c d]|]; simpl; congruence.
Qed.

Lemma add_prepends_task_witness :
  exists t,
    add sample_entropy (lit "  call Ana ") high_options shopping_state
    = {| todos := t :: todos shopping_state;
         currentFilter := currentFilter shopping_state;
         currentSort := currentSort shopping_state;
         writes := (t :: todos shopping_state) :: writes shopping_state |} /\
    id t = genId (lit "todo") sample_entropy /\
    text t = trim (lit "  call Ana ") /\
    completed t = false /\
    createdAt t = now_created sample_entropy /\
    subtasks t = [] /\
    deadline t <> Some [].
Proof.
  apply (add_prepends_task sample_entropy (lit "  call Ana ") high_options
           shopping_state).
  vm_compute. discriminate.
Defined.

(** *** Unknown identifiers *)

(** X2: when no task has the identifier, [toggle], [update], [addSubtask],
    [toggleSubtask] and [removeSubtask] return the state they were given:
    nothing changes and nothing is written. *)
Theorem unknown_id_is_noop (i : jsstring) (st : State)
    (H : Forall (fun t => id t <> i) (todos st)) :
  forall (e : Entropy) (txt j : jsstring),
    toggle i st = st /\
    update i txt st = st /\
    addSubtask e i txt st = st /\
    toggleSubtask i j st = st /\
    removeSubtask i j st = st.
Proof.
  intros e txt j. apply find_none_of_forall in H.
  unfold toggle, update, addSubtask, toggleSubtask, removeSubtask.
  rewrite H. destruct (negb (truthy_str (trim txt))); auto.
Qed.

Lemma unknown_id_is_noop_witness :
  toggle (lit "todo_0_zzzzz") shopping_state = shopping_state /\
  update (lit "todo_0_zzzzz") (lit "tea") shopping_state = shopping_state /\
  addSubtask sample_entropy (lit "todo_0_zzzzz") (lit "tea") shopping_state
  = shopping_state /\
  toggleSubtask (lit "todo_0_zzzzz") (lit "sub_1_aaaaa") shopping_state
  = shopping_state /\
  removeSubtask (lit "todo_0_zzzzz") (lit "sub_1_aaaaa") shopping_state
  = shopping_state.
Proof.
  apply (unknown_id_is_noop (lit "todo_0_zzzzz") shopping_state).
  repeat constructor; vm_compute; discriminate.
Defined.

(** *** Removal *)

(** X3: [remove] deletes every task that has the identifier and keeps
    the others in their order; it writes the resulting collection even
    when no task had the identifier, in which case the collection is the
    one it was; removing the same identifier again changes nothing more. *)
Theorem remove_deletes_every_match (i : jsstring) (st : State) :
  let st' := remove i st in
  Forall (fun t => id t <> i) (todos st') /\
  (forall t, In t (todos st') <-> In t (todos st) /\ id t <> i) /\
  sublist (todos st') (todos st) /\
  writes st' = todos st' :: writes st /\
  (Forall (fun t => id t <> i) (todos st) -> todos st' = todos st) /\
  todos (remove i st') = todos st'.
Proof.
  assert (Hneg : forall t, negb (has_id i t) = true <-> id t <> i).
  { intros t. unfold has_id. rewrite negb_true_iff, <- not_true_iff_false.
    now rewrite jseqb_eq. }
  assert (Hfilter : forall l : list Todo,
             Forall (fun t => id t <> i) (List.filter (fun t => negb (has_id i t)) l)).
  { intros l. apply List.Forall_forall. intros t Ht.
    apply List.filter_In in Ht as [_ Ht]. now apply Hneg. }
  cbv zeta. simpl.
  split; [apply Hfilter|].
  split.
  { intros t. rewrite List.filter_In. now rewrite Hneg. }
  split.
  { induction (todos st) as [|t l IH]; simpl; [constructor|].
    destruct (negb (has_id i t)); now constructor. }
  split; [reflexivity|].
  split.
  - intros Hall. apply filter_none_removed.
    eapply Forall_impl; [exact Hall|]. intros t Ht. now apply Hneg.
  - apply filter_none_removed.
    eapply Forall_impl; [apply Hfilter|]. intros t Ht. now apply Hneg.
Qed.

(** *** Fields that are never written *)

(** X4: [toggle], [update], [addSubtask], [toggleSubtask] and
    [removeSubtask] never change the number or the order of the tasks, nor
    any task's identifier, creation time, deadline, priority or
    categories. *)
Theorem mutations_keep_fixed_fields (e : Entropy) (i j txt : jsstring) (st : State) :
  List.map fixed_fields (todos (toggle i st)) = List.map fixed_fields (todos st) /\
  List.map fixed_fields (todos (update i txt st)) = List.map fixed_fields (todos st) /\
  List.map fixed_fields (todos (addSubtask e i txt st))
  = List.map fixed_fields (todos st) /\
  List.map fixed_fields (todos (toggleSubtask i j st))
  = List.map fixed_fields (todos st) /\
  List.map fixed_fields (todos (removeSubtask i j st))
  = List.map fixed_fields (todos st).
Proof.
  unfold toggle, update, addSubtask, toggleSubtask, removeSubtask.
  repeat split.
  - destruct (List.find _ _); [|reflexivity]. simpl. now apply map_alter_first.
  - destruct (negb _); [reflexivity|].
    destruct (List.find _ _); [|reflexivity]. simpl. now apply map_alter_first.
  - destruct (negb _); [reflexivity|].
    destruct (List.find _ _); [|reflexivity]. simpl. now apply map_alter_first.
  - destruct (List.find _ _) as [t|]; [|reflexivity].
    destruct (List.find _ _); [|reflexivity]. simpl. now apply map_alter_first.
  - destruct (List.find _ _); [|reflexivity]. simpl. now apply map_alter_first.
Qed.

(** *** Editing the text *)

(** X5: [update] with text that is not blank, for an identifier that is
    present, replaces the text of the first task that has the identifier
    by the trimmed text, changes nothing else in the collection, and
    writes the collection once. *)
Theorem update_replaces_text (i txt : jsstring) (st : State)
    (Htxt : trim txt <> [])
    (Hi : Exists (fun t => id t = i) (todos st)) :
  exists t l1 l2,
    todos st = l1 ++ t :: l2 /\
    Forall (fun t' => id t' <> i) l1 /\
    id t = i /\
    todos (update i txt st)
    = l1 ++ {| id := id t; text := trim txt; completed := completed t;
               createdAt := createdAt t; deadline := deadline t;
               priority := priority t; subtasks := subtasks t;
               categories := categories t |} :: l2 /\
    writes (update i txt st) = todos (update i txt st) :: writes st.
Proof.
  destruct (TodosFacts.find_some_of_exists i _ Hi) as [t Ht].
  destruct (alter_first_split (has_id i) (set_text (trim txt)) _ t Ht)
    as (l1 & l2 & Hl & Hl1 & Hti & Hal).
  exists t, l1, l2. unfold update.
  apply truthy_str_true in Htxt. rewrite Htxt, Ht. simpl.
  split; [exact Hl|]. split.
  - eapply Forall_impl; [exact Hl1|]. intros t' Hf Hid.
    unfold has_id in Hf. rewrite (proj2 (jseqb_eq _ _) Hid) in Hf. discriminate.
  - split; [now apply jseqb_eq|]. split; [exact Hal|reflexivity].
Qed.

Lemma update_replaces_text_witness :
  exists t l1 l2,
    todos shopping_state = l1 ++ t :: l2 /\
    Forall (fun t' => id t' <> lit "todo_7_ccccc") l1 /\
    id t = lit "todo_7_ccccc" /\
    todos (update (lit "todo_7_ccccc") (lit " groceries ") shopping_state)
    = l1 ++ {| id := id t; text := trim (lit " groceries ");
               completed := completed t; createdAt := createdAt t;
               deadline := deadline t; priority := priority t;
               subtasks := subtasks t; categories := categories t |} :: l2 /\
    writes (update (lit "todo_7_ccccc") (lit " groceries ") shopping_state)
    = todos (update (lit "todo_7_ccccc") (lit " groceries ") shopping_state)
      :: writes shopping_state.
Proof.
  apply (update_replaces_text (lit "todo_7_ccccc") (lit " groceries ")
           shopping_state).
  - vm_compute. discriminate.
  - apply Exists_cons_tl, Exists_cons_hd. reflexivity.
Defined.

(** *** Subtasks *)

Lemma filter_app_fresh (j : jsstring) (l : list Subtask) (s : Subtask) :
  Forall (fun s' => sub_id s' <> j) l -> sub_id s = j ->
  List.filter (fun s' => negb (has_sub_id j s')) (l ++ [s]) = l.
Proof.
  intros Hl Hs. rewrite List.filter_app. simpl.
  unfold has_sub_id at 2. rewrite (proj2 (jseqb_eq _ _) Hs). simpl.
  rewrite app_nil_r. apply filter_none_removed.
  eapply Forall_impl; [exact Hl|]. intros s' Hs'.
  unfold has_sub_id. apply negb_true_iff, not_true_iff_false.
  now rewrite jseqb_eq.
Qed.

Lemma no_id_match (i : jsstring) (l : list Todo) :
  Forall (fun t => id t <> i) l -> Forall (fun t => has_id i t = false) l.
Proof.
  intros H. eapply Forall_impl; [exact H|]. intros t Ht.
  unfold has_id. apply not_true_iff_false. now rewrite jseqb_eq.
Qed.

Lemma no_sub_id_match (j : jsstring) (l : list Subtask) :
  Forall (fun s => sub_id s <> j) l -> Forall (fun s => has_sub_id j s = false) l.
Proof.
  intros H. eapply Forall_impl; [exact H|]. intros s Hs.
  unfold has_sub_id. apply not_true_iff_false. now rewrite jseqb_eq.
Qed.

(** X6: [addSubtask] with text that is not blank, for the first task that
    has the identifier, appends one subtask, not completed and with the
    trimmed text, to the end of the subtask list of that task, changes
    nothing else, and writes once.  When no subtask of that task already
    has the new subtask's identifier, [removeSubtask] of it gives the
    collection back. *)
Theorem addSubtask_appends (e : Entropy) (i txt : jsstring) (st : State)
    (l1 l2 : list Todo) (t : Todo)
    (Htxt : trim txt <> [])
    (Hsplit : todos st = l1 ++ t :: l2)
    (Hl1 : Forall (fun t' => id t' <> i) l1)
    (Hid : id t = i) :
  let s := {| sub_id := genId (lit "sub") e; sub_text := trim txt;
              sub_completed := false |} in
  let st' := addSubtask e i txt st in
  todos st'
  = l1 ++ {| id := id t; text := text t; completed := completed t;
             createdAt := createdAt t; deadline := deadline t;
             priority := priority t; subtasks := subtasks t ++ [s];
             categories := categories t |} :: l2 /\
  writes st' = todos st' :: writes st /\
  (Forall (fun s' => sub_id s' <> sub_id s) (subtasks t) ->
   todos (removeSubtask i (sub_id s) st') = todos st).
Proof.
  intros s st'.
  assert (Hp : has_id i t = true) by (now apply jseqb_eq).
  pose proof (find_at (has_id i) l1 t l2 (no_id_match i l1 Hl1) Hp) as Ht.
  rewrite <- Hsplit in Ht.
  assert (E : st' = save (set_todos
                            (alter_first (has_id i)
                               (fun t => set_subtasks (subtasks t ++ [s]) t)
                               (todos st)) st)).
  { unfold st', addSubtask. apply truthy_str_true in Htxt. now rewrite Htxt, Ht. }
  split; [|split; [rewrite E; reflexivity|]].
  - rewrite E. simpl. rewrite Hsplit.
    now rewrite (alter_first_at (has_id i) _ l1 t l2 (no_id_match i l1 Hl1) Hp).
  - intros Hfresh. unfold removeSubtask. rewrite E. simpl.
    rewrite find_alter_first_any by reflexivity. rewrite Ht. simpl.
    rewrite alter_first_twice by reflexivity.
    apply (alter_first_fix_found (has_id i) _ _ t Ht). simpl.
    rewrite (filter_app_fresh (genId (lit "sub") e) (subtasks t) s Hfresh eq_refl).
    now destruct t.
Qed.

Lemma addSubtask_appends_witness :
  let s := {| sub_id := genId (lit "sub") sample_entropy; sub_text := trim (lit " bread ");
              sub_completed := false |} in
  let st' := addSubtask sample_entropy (lit "todo_7_ccccc") (lit " bread ")
               shopping_state in
  todos st'
  = [sample_todo]
    ++ {| id := id shopping; text := text shopping; completed := completed shopping;
          createdAt := createdAt shopping; deadline := deadline shopping;
          priority := priority shopping; subtasks := subtasks shopping ++ [s];
          categories := categories shopping |} :: [] /\
  writes st' = todos st' :: writes shopping_state /\
  (Forall (fun s' => sub_id s' <> sub_id s) (subtasks shopping) ->
   todos (removeSubtask (lit "todo_7_ccccc") (sub_id s) st') = todos shopping_state).
Proof.
  apply (addSubtask_appends sample_entropy (lit "todo_7_ccccc") (lit " bread ")
           shopping_state [sample_todo] [] shopping).
  - vm_compute. discriminate.
  - reflexivity.
  - repeat constructor. vm_compute. discriminate.
  - reflexivity.
Defined.

Lemma flip_sub_twice (s : Subtask) : flip_sub (flip_sub s) = s.
Proof. destruct s. unfold flip_sub. simpl. now rewrite negb_involutive. Qed.

(** X7: for the first task that has the task identifier and the first of
    its subtasks that has the subtask identifier, [toggleSubtask] negates
    the completion flag of that subtask and changes nothing else; a
    second call restores the collection; each call writes once.  When the
    task has no such subtask, nothing changes and nothing is written. *)
Theorem toggleSubtask_twice (i j : jsstring) (st : State)
    (l1 l2 : list Todo) (t : Todo)
    (Hsplit : todos st = l1 ++ t :: l2)
    (Hl1 : Forall (fun t' => id t' <> i) l1)
    (Hid : id t = i) :
  let st1 := toggleSubtask i j st in
  let st2 := toggleSubtask i j st1 in
  (forall (k1 k2 : list Subtask) (s : Subtask),
      subtasks t = k1 ++ s :: k2 ->
      Forall (fun s' => sub_id s' <> j) k1 ->
      sub_id s = j ->
      todos st1
      = l1 ++ {| id := id t; text := text t; completed := completed t;
                 createdAt := createdAt t; deadline := deadline t;
                 priority := priority t;
                 subtasks :=
                   k1 ++ {| sub_id := sub_id s; sub_text := sub_text s;
                            sub_completed := negb (sub_completed s) |} :: k2;
                 categories := categories t |} :: l2 /\
      todos st2 = todos st /\
      writes st1 = todos st1 :: writes st /\
      writes st2 = todos st2 :: writes st1) /\
  (Forall (fun s => sub_id s <> j) (subtasks t) -> st1 = st).
Proof.
  intros st1 st2.
  assert (Hp : has_id i t = true) by (now apply jseqb_eq).
  pose proof (find_at (has_id i) l1 t l2 (no_id_match i l1 Hl1) Hp) as Ht.
  rewrite <- Hsplit in Ht.
  split.
  - intros k1 k2 s Hk Hk1 Hsj.
    assert (Hq : has_sub_id j s = true) by (now apply jseqb_eq).
    pose proof (find_at (has_sub_id j) k1 s k2 (no_sub_id_match j k1 Hk1) Hq) as Hs.
    rewrite <- Hk in Hs.
    set (h := fun t : Todo =>
                set_subtasks (alter_first (has_sub_id j) flip_sub (subtasks t)) t).
    assert (E1 : st1 = save (set_todos (alter_first (has_id i) h (todos st)) st)).
    { unfold st1, toggleSubtask. now rewrite Ht, Hs. }
    assert (Hh : forall x, h (h x) = x).
    { intros x. unfold h. simpl.
      rewrite alter_first_twice by reflexivity.
      rewrite alter_first_fix by (intros; apply flip_sub_twice).
      now destruct x. }
    assert (E2 : st2 = save (set_todos (todos st) st1)).
    { unfold st2, toggleSubtask. rewrite E1. simpl.
      rewrite find_alter_first_any by reflexivity. rewrite Ht. simpl.
      rewrite find_alter_first_any by reflexivity. rewrite Hs. simpl.
      fold flip_sub. fold h.
      rewrite alter_first_twice by reflexivity.
      rewrite alter_first_fix by (intros; apply Hh).
      reflexivity. }
    split; [|split; [|split]].
    + rewrite E1. simpl. rewrite Hsplit.
      rewrite (alter_first_at (has_id i) h l1 t l2 (no_id_match i l1 Hl1) Hp).
      unfold h. rewrite Hk.
      now rewrite (alter_first_at (has_sub_id j) flip_sub k1 s k2
                     (no_sub_id_match j k1 Hk1) Hq).
    + rewrite E2. reflexivity.
    + rewrite E1. reflexivity.
    + rewrite E2. reflexivity.
  - intros Hj. apply find_sub_none_of_forall in Hj.
    unfold st1, toggleSubtask. now rewrite Ht, Hj.
Qed.

Lemma toggleSubtask_twice_witness :
  let st1 := toggleSubtask (lit "todo_7_ccccc") (lit "sub_2_bbbbb") shopping_state in
  let st2 := toggleSubtask (lit "todo_7_ccccc") (lit "sub_2_bbbbb") st1 in
  (forall (k1 k2 : list Subtask) (s : Subtask),
      subtasks shopping = k1 ++ s :: k2 ->
      Forall (fun s' => sub_id s' <> lit "sub_2_bbbbb") k1 ->
      sub_id s = lit "sub_2_bbbbb" ->
      todos st1
      = [sample_todo]
        ++ {| id := id shopping; text := text shopping;
              completed := completed shopping;
              createdAt := createdAt shopping; deadline := deadline shopping;
              priority := priority shopping;
              subtasks :=
                k1 ++ {| sub_id := sub_id s; sub_text := sub_text s;
                         sub_completed := negb (sub_completed s) |} :: k2;
              categories := categories shopping |} :: [] /\
      todos st2 = todos shopping_state /\
      writes st1 = todos st1 :: writes shopping_state /\
      writes st2 = todos st2 :: writes st1) /\
  (Forall (fun s => sub_id s <> lit "sub_2_bbbbb") (subtasks shopping) ->
   st1 = shopping_state).
Proof.
  apply (toggleSubtask_twice (lit "todo_7_ccccc") (lit "sub_2_bbbbb")
           shopping_state [sample_todo] [] shopping).
  - reflexivity.
  - repeat constructor. vm_compute. discriminate.
  - reflexivity.
Defined.

Example toggleSubtask_sample :
  List.map subtasks
    (todos (toggleSubtask (lit "todo_7_ccccc") (lit "sub_2_bbbbb") shopping_state))
  = [ [];
      [ {| sub_id := lit "sub_1_aaaaa"; sub_text := lit "milk"; sub_completed := false |};
        {| sub_id := lit "sub_2_bbbbb"; sub_text := lit "eggs"; sub_completed := false |} ] ].
Proof. vm_compute. reflexivity. Qed.

End TodosOpsFacts.

(* ===================================================================== *)
(** ** More facts about the derived view *)
(* ===================================================================== *)

Module TodosViewFacts.
Import Todos JSFacts TodosSpec TodosOpsSpec TodosView.

(** *** Sorting with any comparator that orders its elements *)

Section GenSort.
Context {A : Type}.
Variable cmp : A -> A -> num.
Variable P : A -> Prop.
Variable R : A -> A -> Prop.
Hypothesis R_of_positive :
  forall x y, P x -> P y -> positive (cmp x y) = true -> R y x.
Hypothesis R_of_not_positive :
  forall x y, P x -> P y -> positive (cmp x y) = false -> R x y.
Hypothesis R_trans :
  forall x y z, P x -> P y -> P z -> R x y -> R y z -> R x z.

Lemma insert_sorted_gen (x : A) (l : list A) :
  P x -> Forall P l -> StronglySorted R l -> StronglySorted R (insert cmp x l).
Proof.
  intros Hx Hl Hs. induction Hs as [|y l Hs IH Hy]; simpl.
  - repeat constructor.
  - apply Forall_cons in Hl as [HPy HPl].
    destruct (positive (cmp x y)) eqn:E.
    + constructor; [now apply IH|].
      eapply Permutation_Forall; [symmetry; apply TodosFacts.insert_perm|].
      constructor; [now apply R_of_positive|exact Hy].
    + constructor; [now constructor|].
      assert (Hxy : R x y) by now apply R_of_not_positive.
      constructor; [exact Hxy|].
      rewrite Forall_forall in Hy, HPl. apply Forall_forall. intros z Hz.
      apply (R_trans x y z); auto.
Qed.

Lemma sort_sorted_gen (l : list A) :
  Forall P l -> StronglySorted R (sort cmp l).
Proof.
  induction 1 as [|x l Hx Hl IH]; simpl; [constructor|].
  apply insert_sorted_gen; [exact Hx| |exact IH].
  eapply Permutation_Forall; [symmetry; apply TodosFacts.sort_perm|exact Hl].
Qed.

Lemma insert_stable_gen (q : A -> bool) (x : A) (l : list A) :
  (forall a b, q a = true -> q b = true -> positive (cmp a b) = false) ->
  List.filter q (insert cmp x l) = List.filter q (x :: l).
Proof.
  intros Hq. induction l as [|y l IH]; [reflexivity|].
  simpl insert. destruct (positive (cmp x y)) eqn:E; [|reflexivity].
  change (List.filter q (y :: insert cmp x l))
    with (if q y then y :: List.filter q (insert cmp x l)
          else List.filter q (insert cmp x l)).
  rewrite IH. simpl.
  destruct (q y) eqn:Ey, (q x) eqn:Ex; try reflexivity.
  rewrite (Hq _ _ Ex Ey) in E. discriminate.
Qed.

Lemma sort_stable_gen (q : A -> bool) (l : list A) :
  (forall a b, q a = true -> q b = true -> positive (cmp a b) = false) ->
  List.filter q (sort cmp l) = List.filter q l.
Proof.
  intros Hq. induction l as [|x l IH]; [reflexivity|].
  simpl sort. rewrite (insert_stable_gen q x _ Hq). simpl. now rewrite IH.
Qed.
End GenSort.

Lemma filter_partition_perm {A} (q : A -> bool) (l : list A) :
  Permutation (List.filter (fun x => negb (q x)) l ++ List.filter q l) l.
Proof.
  induction l as [|x l IH]; simpl; [constructor|].
  destruct (q x); simpl.
  - rewrite <- Permutation_middle. now constructor.
  - now constructor.
Qed.

Lemma filter_length_le {A} (q : A -> bool) (l : list A) :
  (length (List.filter q l) <= length l)%nat.
Proof.
  induction l as [|x l IH]; simpl; [lia|]. destruct (q x); simpl; lia.
Qed.

Section Dates.
Variable Date_parse : jsstring -> option Z.
Variables getFullYear getMonth getDate : Z -> Z.
Variable Date_local : Z -> Z -> Z -> Z.
Variable setDate : Z -> Z -> Z.
Variable dateLabel : Z -> jsstring.

Local Abbreviation isOverdue :=
  (isOverdue Date_parse getFullYear getMonth getDate Date_local).
Local Abbreviation isWarning :=
  (isWarning Date_parse getFullYear getMonth getDate Date_local setDate).
Local Abbreviation filter_pred :=
  (filter_pred Date_parse getFullYear getMonth getDate Date_local).
Local Abbreviation getVisible :=
  (getVisible Date_parse getFullYear getMonth getDate Date_local).
Local Abbreviation classes :=
  (classes Date_parse getFullYear getMonth getDate Date_local setDate).
Local Abbreviation render :=
  (render Date_parse getFullYear getMonth getDate Date_local dateLabel).

(** X8: whatever the filter and the sort, [getVisible()] is a
    rearrangement of the tasks of the collection that pass the filter, so
    it is never longer than the collection; under the filter ['all'] it
    has every task exactly once; and the views under ['active'] and
    ['completed'] together have every task exactly once. *)
Theorem view_is_rearrangement (now : Z) (st : State) :
  Permutation (getVisible now st)
    (List.filter (filter_pred now (currentFilter st)) (todos st)) /\
  (length (getVisible now st) <= length (todos st))%nat /\
  Permutation (getVisible now (set_filter FAll st)) (todos st) /\
  Permutation (getVisible now (set_filter FActive st)
               ++ getVisible now (set_filter FCompleted st)) (todos st).
Proof.
  assert (Hp : forall s, Permutation (getVisible now s)
                 (List.filter (filter_pred now (currentFilter s)) (todos s))).
  { intros s. apply TodosFacts.sort_perm. }
  split; [apply Hp|]. split.
  - rewrite (Permutation_length (Hp st)). apply filter_length_le.
  - split.
    + rewrite (Hp (set_filter FAll st)). simpl.
      rewrite TodosOpsFacts.filter_none_removed; [reflexivity|].
      apply Forall_forall. reflexivity.
    + rewrite (Hp (set_filter FActive st)), (Hp (set_filter FCompleted st)).
      simpl. apply (filter_partition_perm completed).
Qed.

(** X9: under the sorts ['newest'] and ['oldest'], [getVisible()] is in
    order of creation time, latest first for ['newest'] and earliest first
    for ['oldest'], and tasks created at the same time keep the order the
    collection has them in. *)
Theorem creation_time_view_order (now : Z) (st : State)
    (H : currentSort st = Newest \/ currentSort st = Oldest) :
  let shown := List.filter (filter_pred now (currentFilter st)) (todos st) in
  let v := getVisible now st in
  StronglySorted (creation_order (currentSort st)) v /\
  (forall n, List.filter (fun t => createdAt t =? n) v
             = List.filter (fun t => createdAt t =? n) shown).
Proof.
  intros shown v.
  assert (Hv : v = sort (comparator Date_parse (currentSort st)) shown) by reflexivity.
  rewrite Hv. split.
  - apply (sort_sorted_gen _ (fun _ => True)).
    + intros x y _ _. destruct H as [-> | ->]; simpl; intros E;
        apply Z.ltb_lt in E; lia.
    + intros x y _ _. destruct H as [-> | ->]; simpl; intros E;
        apply Z.ltb_ge in E; lia.
    + intros x y z _ _ _. destruct H as [-> | ->]; simpl; lia.
    + apply Forall_forall. auto.
  - intros n. apply sort_stable_gen. intros a b Ha Hb.
    apply Z.eqb_eq in Ha, Hb.
    destruct H as [-> | ->]; simpl; apply Z.ltb_ge; lia.
Qed.




(** X11: [isOverdue] and [isWarning] are never both true of a task, and
    a completed task gets the class text [todo-item completed], with
    neither the overdue nor the warning marker. *)
Theorem overdue_excludes_warning (now : Z) (t : Todo) :
  isOverdue now t && isWarning now t = false /\
  (completed t = true -> classes now t = lit "todo-item completed").
Proof.
  unfold TodosView.classes, Todos.isOverdue, Todos.isWarning. split.
  - destruct (deadline t) as [d|]; [|reflexivity].
    destruct (negb (truthy_str d) || completed t); [reflexivity|].
    destruct (parseDeadline Date_parse d) as [due|]; [|reflexivity].
    destruct (due <? _) eqn:E1; [|reflexivity]. simpl.
    apply Z.ltb_lt in E1. apply andb_false_iff. left. apply Z.leb_gt. exact E1.
  - intros Hc. rewrite Hc.
    destruct (deadline t) as [d|]; [|reflexivity].
    now rewrite orb_true_r.
Qed.
End Dates.

Lemma creation_time_view_order_witness :
  let shown := List.filter (utc_filter_pred sample_now (currentFilter shopping_state))
                 (todos shopping_state) in
  let v := utc_getVisible sample_now shopping_state in
  StronglySorted (creation_order (currentSort shopping_state)) v /\
  (forall n, List.filter (fun t => createdAt t =? n) v
             = List.filter (fun t => createdAt t =? n) shown).
Proof.
  apply (creation_time_view_order UTC.Date_parse UTC.getFullYear UTC.getMonth
           UTC.getDate UTC.Date_local sample_now shopping_state).
  left. reflexivity.
Defined.


Example deadline_view_sample :
  List.map id (utc_getVisible sample_now deadline_state)
  = [lit "t3"; lit "t1"; lit "t5"; lit "t2"; lit "t4"].
Proof. vm_compute. reflexivity. Qed.

End TodosViewFacts.

(* ===================================================================== *)
(** ** Facts about loading, grouping and escaping *)
(* ===================================================================== *)

Module RenderFacts.
Import JSFacts RenderSpec Render.

(** *** Migration *)

(** X12: the migration of [load] only fills gaps: the migrated record has
    the keys of the stored record and the four optional keys, a record
    that has the four optional keys is left as it is, and migrating a
    migrated record changes nothing. *)
Theorem migrate_only_fills_gaps (t : gmap string JSON) :
  dom (Todos.migrate t)
  = dom t ∪ {[ "deadline"%string; "priority"%string; "subtasks"%string;
               "categories"%string ]} /\
  (is_Some (t !! "deadline"%string) -> is_Some (t !! "priority"%string) ->
   is_Some (t !! "subtasks"%string) -> is_Some (t !! "categories"%string) ->
   Todos.migrate t = t) /\
  Todos.migrate (Todos.migrate t) = Todos.migrate t.
Proof.
  assert (Hd : dom Todos.load_defaults
               = ({[ "deadline"%string; "priority"%string; "subtasks"%string;
                     "categories"%string ]} : gset string)).
  { unfold Todos.load_defaults. rewrite !dom_insert_L, dom_singleton_L. set_solver. }
  unfold Todos.migrate. split; [|split].
  - now rewrite dom_union_L, Hd.
  - intros H1 H2 H3 H4. apply map_eq. intros k.
    destruct (t !! k) as [v|] eqn:Hk.
    + now apply lookup_union_Some_l.
    + rewrite lookup_union_r by exact Hk.
      apply not_elem_of_dom. rewrite Hd. intros Hin.
      assert (is_Some (t !! k)) as [v Hv]; [|congruence].
      rewrite !elem_of_union, !elem_of_singleton in Hin.
      destruct Hin as [[[-> | ->] | ->] | ->]; assumption.
  - now rewrite <- (assoc_L (∪)), (idemp_L (∪)).
Qed.

(** *** Grouping by label *)

Section Groups.
Context {A : Type}.
Variable label : A -> jsstring.

Local Abbreviation group_push := (group_push (A := A)).
Local Abbreviation same_label l := (fun x : A => jseqb (label x) l).

Lemma group_push_known (l : jsstring) (x : A) (g : list (jsstring * list A)) :
  In l (List.map fst g) -> List.map fst (group_push l x g) = List.map fst g.
Proof.
  induction g as [|[l' xs] g IH]; simpl; [tauto|].
  destruct (jseqb l' l) eqn:E; simpl; [reflexivity|].
  intros [->|Hin]; [rewrite jseqb_refl in E; discriminate|].
  now rewrite IH.
Qed.

Lemma group_push_new (l : jsstring) (x : A) (g : list (jsstring * list A)) :
  ~ In l (List.map fst g) -> List.map fst (group_push l x g) = List.map fst g ++ [l].
Proof.
  induction g as [|[l' xs] g IH]; simpl; [reflexivity|].
  intros Hn. destruct (jseqb l' l) eqn:E; simpl.
  - apply jseqb_eq in E. tauto.
  - rewrite IH; [reflexivity|tauto].
Qed.

Lemma In_label_dec (l : jsstring) (ls : list jsstring) : In l ls \/ ~ In l ls.
Proof.
  destruct (decide (l ∈ ls)) as [H|H]; rewrite list_elem_of_In in H; auto.
Qed.

Lemma group_push_nodup (l : jsstring) (x : A) (g : list (jsstring * list A)) :
  NoDup (List.map fst g) -> NoDup (List.map fst (group_push l x g)).
Proof.
  intros Hg. destruct (In_label_dec l (List.map fst g)) as [B|B].
  - now rewrite group_push_known.
  - rewrite group_push_new by exact B.
    apply NoDup_app. split; [exact Hg|]. split.
    + intros y Hy Hy'. apply list_elem_of_In in Hy.
      apply list_elem_of_singleton in Hy'. subst y. contradiction.
    + apply NoDup_singleton.
Qed.

Lemma group_push_items (l : jsstring) (x : A) (g : list (jsstring * list A)) :
  Permutation (concat (List.map snd (group_push l x g)))
              (concat (List.map snd g) ++ [x]).
Proof.
  induction g as [|[l' xs] g IH]; simpl; [reflexivity|].
  destruct (jseqb l' l); simpl.
  - rewrite <- !app_assoc. apply Permutation_app_head. apply Permutation_app_comm.
  - rewrite IH. now rewrite app_assoc.
Qed.

Lemma filter_snoc (l : jsstring) (pre : list A) (x : A) :
  List.filter (same_label l) (pre ++ [x])
  = List.filter (same_label l) pre ++ (if jseqb (label x) l then [x] else []).
Proof. rewrite List.filter_app. simpl. now destruct (jseqb (label x) l). Qed.

Lemma group_push_groups (x : A) (pre : list A) (g : list (jsstring * list A)) :
  NoDup (List.map fst g) ->
  Forall (group_ok label pre) g ->
  (~ In (label x) (List.map fst g) -> List.filter (same_label (label x)) pre = []) ->
  Forall (group_ok label (pre ++ [x])) (group_push (label x) x g).
Proof.
  induction g as [|[l' xs] g IH]; intros Hnd Hok Hnew; simpl.
  - constructor; [|constructor]. split; simpl; [discriminate|].
    rewrite filter_snoc, jseqb_refl, Hnew; [reflexivity|tauto].
  - apply NoDup_cons in Hnd as [Hl' Hnd].
    apply Forall_cons in Hok as [[Hxs1 Hxs2] Hok]. simpl in Hxs1, Hxs2.
    destruct (jseqb l' (label x)) eqn:E.
    + apply jseqb_eq in E. subst l'. constructor.
      * split; simpl; [now destruct xs|].
        now rewrite filter_snoc, jseqb_refl, <- Hxs2.
      * rewrite Forall_forall in Hok. apply Forall_forall. intros [l'' ys] Hin.
        destruct (Hok _ Hin) as [Hy1 Hy2]. simpl in *.
        split; simpl; [exact Hy1|].
        rewrite filter_snoc.
        destruct (jseqb (label x) l'') eqn:E'; [|now rewrite app_nil_r].
        apply jseqb_eq in E'. subst l''. exfalso. apply Hl'.
        apply list_elem_of_In. apply list_elem_of_In in Hin.
        now apply (in_map fst) in Hin.
    + assert (Hne : l' <> label x).
      { intros ->. rewrite jseqb_refl in E. discriminate. }
      constructor.
      * split; simpl; [exact Hxs1|].
        rewrite filter_snoc.
        destruct (jseqb (label x) l') eqn:E'; [|now rewrite app_nil_r].
        apply jseqb_eq in E'. congruence.
      * apply IH; [exact Hnd|exact Hok|].
        intros Hn. apply Hnew. simpl. intros [?|?]; [congruence|contradiction].
Qed.

Lemma fold_group_ok (items pre : list A) (g : list (jsstring * list A)) :
  groups_ok label pre g ->
  (forall y, In y pre -> In (label y) (List.map fst g)) ->
  groups_ok label (pre ++ items)
    (fold_left (fun groups x => group_push (label x) x groups) items g).
Proof.
  revert pre g. induction items as [|x items IH]; intros pre g Hg Hcov; simpl.
  - now rewrite app_nil_r.
  - replace (pre ++ x :: items) with ((pre ++ [x]) ++ items)
      by now rewrite <- app_assoc.
    destruct Hg as (Hnd & Hperm & Hok).
    apply IH.
    + split; [now apply group_push_nodup|]. split.
      * rewrite group_push_items. now apply Permutation_app_tail.
      * apply group_push_groups; [exact Hnd|exact Hok|].
        intros Hn. destruct (List.filter _ pre) as [|y ys] eqn:F; [reflexivity|].
        exfalso. apply Hn.
        assert (Hy : In y (List.filter (same_label (label x)) pre))
          by (rewrite F; now left).
        apply List.filter_In in Hy as [Hy1 Hy2].
        apply jseqb_eq in Hy2. rewrite <- Hy2. now apply Hcov.
    + intros y Hy.
      destruct (In_label_dec (label x) (List.map fst g)) as [B|B].
      * rewrite group_push_known by exact B.
        apply in_app_or in Hy as [Hy|[<-|[]]]; [now apply Hcov|exact B].
      * rewrite group_push_new by exact B. apply in_or_app.
        apply in_app_or in Hy as [Hy|[<-|[]]]; [left; now apply Hcov|right; now left].
Qed.

Lemma group_by_ok (items : list A) : groups_ok label items (group_by label items).
Proof.
  apply (fold_group_ok items [] []).
  - split; [constructor|]. split; [reflexivity|constructor].
  - intros y [].
Qed.
End Groups.


(** *** Escaping *)

Lemma replace_go_cons (ic : bool) (r : regex) (repl : jsstring) (prev : option N)
    (x : N) (s : jsstring) :
  replace_go ic r repl O prev (x :: s)
  = match match_here ic r prev (x :: s) with
    | Some rest =>
        match (length (x :: s) - length rest)%nat with
        | O => repl ++ x :: replace_go ic r repl O (Some x) s
        | S n => repl ++ replace_go ic r repl n (Some x) s
        end
    | None => x :: replace_go ic r repl O (Some x) s
    end.
Proof. reflexivity. Qed.

(** A global replacement of one character rewrites the text unit by
    unit. *)
Lemma replace_all_chr (c : N) (repl s : jsstring) :
  replace_all false (Chr c) repl s
  = flat_map (fun x => if (c =? x)%N then repl else [x]) s.
Proof.
  unfold replace_all. generalize (@None N).
  induction s as [|x s IH]; intros prev; [reflexivity|].
  rewrite replace_go_cons. unfold match_here. simpl m. unfold chr_eq.
  simpl flat_map. destruct (c =? x)%N.
  - replace (length (x :: s) - length s)%nat with 1%nat by (simpl length; lia).
    now rewrite IH.
  - now rewrite IH.
Qed.

Lemma flat_map_twice {A B C} (f : B -> list C) (g : A -> list B) (l : list A) :
  flat_map f (flat_map g l) = flat_map (fun x => flat_map f (g x)) l.
Proof.
  induction l as [|x l IH]; simpl; [reflexivity|].
  now rewrite flat_map_app, IH.
Qed.

Lemma flat_map_single {A B} (f : A -> list B) (x : A) : flat_map f [x] = f x.
Proof. simpl. apply app_nil_r. Qed.

Lemma esc_unit_steps (x : N) :
  flat_map
    (fun a =>
       flat_map
         (fun b =>
            flat_map
              (fun c =>
                 flat_map (fun d => if (39 =? d)%N then lit "&#39;" else [d])
                   (if (34 =? c)%N then lit "&quot;" else [c]))
              (if (62 =? b)%N then lit "&gt;" else [b]))
         (if (60 =? a)%N then lit "&lt;" else [a]))
    (if (38 =? x)%N then lit "&amp;" else [x])
  = esc_unit x.
Proof.
  unfold esc_unit.
  rewrite (N.eqb_sym x 38), (N.eqb_sym x 60), (N.eqb_sym x 62),
    (N.eqb_sym x 34), (N.eqb_sym x 39).
  destruct (38 =? x)%N eqn:E38; [reflexivity|].
  rewrite flat_map_single.
  destruct (60 =? x)%N eqn:E60; [reflexivity|].
  rewrite flat_map_single.
  destruct (62 =? x)%N eqn:E62; [reflexivity|].
  rewrite flat_map_single.
  destruct (34 =? x)%N eqn:E34; [reflexivity|].
  rewrite flat_map_single.
  destruct (39 =? x)%N eqn:E39; reflexivity.
Qed.

Lemma esc_unit_no_markup (x : N) :
  Forall (fun c => is_markup c = false) (esc_unit x).
Proof.
  unfold esc_unit.
  destruct (x =? 38)%N; [repeat constructor|].
  destruct (x =? 60)%N eqn:E60; [repeat constructor|].
  destruct (x =? 62)%N eqn:E62; [repeat constructor|].
  destruct (x =? 34)%N eqn:E34; [repeat constructor|].
  destruct (x =? 39)%N eqn:E39; [repeat constructor|].
  constructor; [|constructor]. unfold is_markup. now rewrite E60, E62, E34, E39.
Qed.

Lemma escHtml_units (s : jsstring) : escHtml s = flat_map esc_unit s.
Proof.
  unfold escHtml. rewrite !replace_all_chr, !flat_map_twice.
  apply flat_map_ext. intros x. apply esc_unit_steps.
Qed.

(** X15: [escHtml] rewrites its text unit by unit: [&], [<], [>], the
    double quote and the apostrophe become their entities and every other
    code unit stays, so an ampersand written by an earlier replacement is
    never escaped again.  The result holds no [<], [>], double quote or
    apostrophe, and a text without the five characters is returned as it
    is. *)
Theorem escHtml_escapes_each_unit (s : jsstring) :
  escHtml s = flat_map esc_unit s /\
  Forall (fun c => is_markup c = false) (escHtml s) /\
  (Forall (fun c => is_markup c = false /\ c <> 38%N) s -> escHtml s = s).
Proof.
  pose proof (escHtml_units s) as E.
  split; [exact E|]. rewrite E. clear E. split.
  - induction s as [|x s IH]; simpl; [constructor|].
    apply Forall_app. split; [apply esc_unit_no_markup|exact IH].
  - induction 1 as [|x s [Hm Hx] _ IH]; simpl; [reflexivity|].
    rewrite IH. unfold esc_unit, is_markup in *.
    apply N.eqb_neq in Hx. rewrite Hx.
    apply orb_false_iff in Hm as [Hm H39].
    apply orb_false_iff in Hm as [Hm H34].
    apply orb_false_iff in Hm as [H60 H62].
    now rewrite H60, H62, H34, H39.
Qed.

Example escHtml_sample :
  escHtml (lit "<b>Tom & Jerry's</b>")
  = lit "&lt;b&gt;Tom &amp; Jerry&#39;s&lt;/b&gt;".
Proof. vm_compute. reflexivity. Qed.

End RenderFacts.

(* ===================================================================== *)
(** ** Facts about the drawing of the link store *)
(* ===================================================================== *)

Module LinksViewFacts.
Import Links JSFacts LinksSpec RenderSpec.

Lemma drawable_or_not (l : Link) : drawable l \/ undrawable l.
Proof.
  unfold drawable, undrawable.
  destruct (encodeURIComponent (url l)); [left; discriminate|now right].
Qed.

Lemma all_or_one {A} (P Q : A -> Prop) (l : list A) :
  (forall x, P x \/ Q x) -> Forall P l \/ Exists Q l.
Proof.
  intros H. induction l as [|x l [IH|IH]].
  - left. constructor.
  - destruct (H x) as [Hx|Hx]; [left; now constructor|right; now constructor].
  - right. now constructor.
Qed.

Lemma not_both (l : list Link) : Forall drawable l -> Exists undrawable l -> False.
Proof.
  intros Hall Hex. induction Hex as [x l Hx|x l _ IH].
  - apply Forall_cons in Hall as [Hd _]. exact (Hd Hx).
  - apply Forall_cons in Hall as [_ Hall]. exact (IH Hall).
Qed.

Lemma buildLinkEl_shows (l : Link) :
  drawable l -> exists c, buildLinkEl l = Some c /\ shows l c.
Proof.
  unfold drawable, buildLinkEl.
  destruct (encodeURIComponent (url l)) as [q|] eqn:E; [|contradiction].
  intros _. eexists. split; [reflexivity|]. unfold shows. simpl.
  split; [reflexivity|]. split; [now exists q|].
  split; apply RenderFacts.escHtml_units.
Qed.

Lemma build_cards_ok (items : list Link) :
  Forall drawable items ->
  exists cards, build_cards items = Some cards /\ Forall2 shows items cards.
Proof.
  induction 1 as [|l items Hl _ (cards & E & Hc)]; simpl.
  - exists []. split; [reflexivity|constructor].
  - destruct (buildLinkEl_shows l Hl) as (c & -> & Hs). rewrite E.
    exists (c :: cards). split; [reflexivity|now constructor].
Qed.

Lemma build_cards_fail (items : list Link) :
  Exists undrawable items -> build_cards items = None.
Proof.
  induction 1 as [l items Hl|l items _ IH]; simpl.
  - unfold buildLinkEl. unfold undrawable in Hl. now rewrite Hl.
  - rewrite IH. now destruct (buildLinkEl l).
Qed.

Lemma draw_sections_ok (groups : list (jsstring * list Link)) :
  Forall (fun g => Forall drawable (snd g)) groups ->
  forall done,
    exists secs,
      draw_sections done groups = Groups (done ++ secs) /\
      Forall2 section_shows groups secs.
Proof.
  induction 1 as [|[label items] groups Hg _ IH]; intros done; simpl.
  - exists []. rewrite app_nil_r. split; [reflexivity|constructor].
  - destruct (build_cards_ok items Hg) as (cards & -> & Hc).
    destruct (IH (done ++ [(label, cards)])) as (secs & -> & Hs).
    exists ((label, cards) :: secs). rewrite <- app_assoc.
    split; [reflexivity|]. constructor; [|exact Hs]. now split.
Qed.

Lemma draw_sections_fail (groups : list (jsstring * list Link)) :
  Exists (fun g => Exists undrawable (snd g)) groups ->
  forall done,
    exists before bad rest secs,
      groups = before ++ bad :: rest /\
      Forall (fun g => Forall drawable (snd g)) before /\
      Exists undrawable (snd bad) /\
      draw_sections done groups = Failed (done ++ secs) /\
      Forall2 section_shows before secs.
Proof.
  induction groups as [|[label items] groups IH]; intros Hex done.
  - inversion Hex.
  - destruct (all_or_one drawable undrawable items drawable_or_not) as [Hall|Hone].
    + assert (Hrest : Exists (fun g => Exists undrawable (snd g)) groups).
      { apply Exists_cons in Hex as [Hex|Hex]; [|exact Hex].
        exfalso. exact (not_both _ Hall Hex). }
      destruct (build_cards_ok items Hall) as (cards & E & Hc).
      destruct (IH Hrest (done ++ [(label, cards)]))
        as (before & bad & rest & secs & -> & Hb & Hbad & Hd & Hs).
      exists ((label, items) :: before), bad, rest, ((label, cards) :: secs).
      split; [reflexivity|]. split; [now constructor|]. split; [exact Hbad|].
      simpl. rewrite E, Hd, <- app_assoc. split; [reflexivity|].
      constructor; [|exact Hs]. now split.
    + exists [], (label, items), groups, [].
      split; [reflexivity|]. split; [constructor|]. split; [exact Hone|].
      simpl. rewrite (build_cards_fail items Hone), app_nil_r.
      split; [reflexivity|constructor].
Qed.

Section Spread.
Context {A : Type}.
Variable P : A -> Prop.

Lemma Forall_groups (g : list (jsstring * list A)) :
  Forall P (concat (List.map snd g)) -> Forall (fun x => Forall P (snd x)) g.
Proof.
  induction g as [|[l items] g IH]; simpl; intros H; [constructor|].
  apply Forall_app in H as [H1 H2]. constructor; [exact H1|now apply IH].
Qed.

Lemma Exists_groups (g : list (jsstring * list A)) :
  Exists P (concat (List.map snd g)) -> Exists (fun x => Exists P (snd x)) g.
Proof.
  induction g as [|[l items] g IH]; simpl; intros H; [inversion H|].
  apply Exists_app in H as [H|H]; [now left|right; now apply IH].
Qed.

Lemma Exists_ungroup (g : list (jsstring * list A)) :
  Exists (fun x => Exists P (snd x)) g -> Exists P (concat (List.map snd g)).
Proof.
  induction 1 as [[l items] g H|[l items] g _ IH]; simpl; apply Exists_app; auto.
Qed.
End Spread.

Lemma Forall_perm {A} (P : A -> Prop) (l l' : list A) :
  Permutation l l' -> Forall P l' -> Forall P l.
Proof. intros Hp. apply Permutation_Forall. now symmetry. Qed.

Lemma Exists_perm {A} (P : A -> Prop) (l l' : list A) :
  Permutation l l' -> Exists P l' -> Exists P l.
Proof.
  intros Hp H. apply List.Exists_exists in H as (x & Hx & HP).
  apply List.Exists_exists. exists x. split; [|exact HP].
  eapply Permutation_in; [symmetry; exact Hp|exact Hx].
Qed.

Section Grouped.
Variable dateLabel : Z -> jsstring.

Local Abbreviation grouped l :=
  (Render.group_by (fun x : Link => dateLabel (createdAt x)) l).

Lemma grouped_perm (l : list Link) :
  Permutation (concat (List.map snd (grouped l))) l.
Proof. apply (RenderFacts.group_by_ok (fun x => dateLabel (createdAt x)) l). Qed.

Lemma grouped_drawable (l : list Link) :
  Forall drawable l -> Forall (fun g => Forall drawable (snd g)) (grouped l).
Proof.
  intros H. apply Forall_groups. exact (Forall_perm _ _ _ (grouped_perm l) H).
Qed.

Lemma grouped_undrawable (l : list Link) :
  Exists undrawable l -> Exists (fun g => Exists undrawable (snd g)) (grouped l).
Proof.
  intros H. apply Exists_groups. exact (Exists_perm _ _ _ (grouped_perm l) H).
Qed.

Lemma render_returns (container : bool) (st : State) :
  can_draw container (links st) ->
  forall secs, render dateLabel container st <> Failed secs.
Proof.
  intros Hd secs. unfold render.
  destruct container; simpl; [|discriminate].
  destruct Hd as [Hd|Hd]; [discriminate|].
  destruct (links st) as [|l ls] eqn:Hl; [discriminate|].
  destruct (draw_sections_ok _ (grouped_drawable _ Hd) []) as (secs' & -> & _).
  discriminate.
Qed.

Lemma render_throws (st : State) :
  Exists undrawable (links st) ->
  exists secs, render dateLabel true st = Failed secs.
Proof.
  intros Hex. unfold render. simpl.
  destruct (links st) as [|l ls] eqn:Hl; [inversion Hex|].
  destruct (draw_sections_fail _ (grouped_undrawable _ Hex) [])
    as (before & bad & rest & secs & _ & _ & _ & -> & _).
  now exists secs.
Qed.
End Grouped.

(** X14: [render] of the link store draws nothing when the container is
    missing and the empty state exactly when there is no link.  When
    [encodeURIComponent] accepts every stored URL it draws every link
    once, in sections with distinct labels, each section holding in
    stored order the cards of exactly the links with its label, and each
    card showing its link.  When it refuses a stored URL the exception
    escapes [render], and the container is left with the sections that
    come before the first group holding such a link. *)
Theorem links_render_draws_links (dateLabel : Z -> jsstring) (container : bool)
    (st : State) :
  let label := fun l => dateLabel (createdAt l) in
  match render dateLabel container st with
  | NoContainer => container = false
  | NoLinks => container = true /\ links st = []
  | Groups secs =>
      container = true /\ links st <> [] /\ Forall drawable (links st) /\
      exists groups,
        groups_ok label (links st) groups /\ Forall2 section_shows groups secs
  | Failed secs =>
      container = true /\ Exists undrawable (links st) /\
      exists before bad rest,
        groups_ok label (links st) (before ++ bad :: rest) /\
        Forall (fun g => Forall drawable (snd g)) before /\
        Exists undrawable (snd bad) /\
        Forall2 section_shows before secs
  end.
Proof.
  intros label. unfold render. destruct container; simpl; [|reflexivity].
  destruct (links st) as [|l ls] eqn:Hl; [auto|]. rewrite <- Hl.
  fold label.
  pose proof (RenderFacts.group_by_ok label (links st)) as Hok.
  destruct (all_or_one drawable undrawable (links st) drawable_or_not)
    as [Hall|Hone].
  - destruct (draw_sections_ok (Render.group_by label (links st))
                (grouped_drawable dateLabel _ Hall) [])
      as (secs & -> & Hs).
    simpl. split; [reflexivity|]. split; [rewrite Hl; discriminate|].
    split; [exact Hall|]. now exists (Render.group_by label (links st)).
  - destruct (draw_sections_fail (Render.group_by label (links st))
                (grouped_undrawable dateLabel _ Hone) [])
      as (before & bad & rest & secs & E & Hb & Hbad & -> & Hs).
    simpl. split; [reflexivity|]. split; [exact Hone|].
    exists before, bad, rest. rewrite <- E. auto.
Qed.

Example render_two_links :
  render sample_dateLabel true LinksTrace.two_links
  = Groups
      [ (lit "Today",
         [ {| card_id := lit "link_2_bbbbb";
              favicon := lit "https://www.google.com/s2/favicons?sz=32&domain_url=https%3A%2F%2Fexample.org%2Fdocs";
              shown_url := lit "https://example.org/docs";
              shown_desc := lit "Docs " ++ [8212%N] ++ lit " example.org" |};
           {| card_id := lit "link_1_aaaaa";
              favicon := lit "https://www.google.com/s2/favicons?sz=32&domain_url=http%3A%2F%2Fexample.com";
              shown_url := lit "http://example.com";
              shown_desc := lit "Example.com" |} ]) ].
Proof. vm_compute. reflexivity. Qed.

Example render_lone_surrogate :
  render sample_dateLabel true LinksTrace.broken_links = Failed [].
Proof. vm_compute. reflexivity. Qed.

(** *** The end of [add] and of [remove] *)

Lemma save_render_state (dateLabel : Z -> jsstring) (container : bool) (st : State) :
  state_of (save_render dateLabel container st) = save st.
Proof.
  unfold save_render. now destruct (render dateLabel container (save st)).
Qed.

Lemma save_render_returned (dateLabel : Z -> jsstring) (container : bool)
    (st : State) :
  can_draw container (links st) ->
  save_render dateLabel container st = Returned (save st).
Proof.
  intros Hd. unfold save_render.
  pose proof (render_returns dateLabel container (save st) Hd) as H.
  destruct (render dateLabel container (save st)) as [| |secs|secs];
    try reflexivity.
  now destruct (H secs).
Qed.

Lemma save_render_threw (dateLabel : Z -> jsstring) (container : bool)
    (st : State) :
  container = true -> Exists undrawable (links st) ->
  save_render dateLabel container st = Threw (save st).
Proof.
  intros -> Hex. unfold save_render.
  destruct (render_throws dateLabel (save st) Hex) as (secs & ->).
  reflexivity.
Qed.

End LinksViewFacts.

(* ===================================================================== *)
(** ** Facts about the link store *)
(* ===================================================================== *)

Module LinksFacts.
Import Links JSFacts LinksSpec LinksViewFacts.

Lemma search_bol_later (ic : bool) (r : regex) (s : jsstring) :
  forall x, search ic (Seq Bol r) (Some x) s = false.
Proof.
  induction s as [|y s IH]; intros x; simpl; [reflexivity|]. apply IH.
Qed.

Lemma test_anchored (ic : bool) (r : regex) (s : jsstring) :
  test ic (Seq Bol r) s
  = match match_here ic (Seq Bol r) None s with Some _ => true | None => false end.
Proof.
  unfold test. destruct s as [|x s]; simpl; unfold match_here; simpl.
  - now destruct (m ic r None [] (fun _ s' => Some s')).
  - destruct (m ic r None (x :: s) (fun _ s' => Some s')); [reflexivity|].
    apply search_bol_later.
Qed.

Lemma test_scheme_re (u : jsstring) : test true scheme_re u = has_http_scheme u.
Proof.
  unfold scheme_re. rewrite test_anchored.
  destruct u as [|c1 [|c2 [|c3 [|c4 [|c5 [|c6 [|c7 [|c8 u]]]]]]]];
    cbv -[N.eqb upper];
    repeat match goal with
           | |- context [(upper ?a =? upper ?b)%N] =>
               destruct (upper a =? upper b)%N
           end; reflexivity.
Qed.

Section Page.
Variable new_URL : jsstring -> option URL.
Variable dateLabel : Z -> jsstring.
Variable container : bool.

Local Abbreviation add := (add new_URL dateLabel container).
Local Abbreviation onResult := (onResult new_URL dateLabel container).
Local Abbreviation save_render := (save_render dateLabel container).

Lemma add_nonempty (e : Entropy) (rawUrl : jsstring) (st : State) :
  trim rawUrl <> [] ->
  add e rawUrl st
  = save_render {| links := new_link new_URL e (stored_url rawUrl) :: links st;
                   writes := writes st |}.
Proof.
  intros Hne. unfold Links.add, stored_url, new_link.
  apply truthy_str_true in Hne. rewrite Hne. simpl.
  rewrite test_scheme_re. now destruct (has_http_scheme (trim rawUrl)).
Qed.

Lemma add_blank (e : Entropy) (rawUrl : jsstring) (st : State) :
  trim rawUrl = [] -> add e rawUrl st = Returned st.
Proof. intros H. unfold Links.add. now rewrite H. Qed.

(** The state [add] leaves for an input that is not blank, whether it
    returns or throws. *)
Lemma add_state (e : Entropy) (rawUrl : jsstring) (st : State) :
  trim rawUrl <> [] ->
  state_of (add e rawUrl st)
  = {| links := new_link new_URL e (stored_url rawUrl) :: links st;
       writes := (new_link new_URL e (stored_url rawUrl) :: links st)
                 :: writes st |}.
Proof.
  intros Hne. rewrite (add_nonempty e rawUrl st Hne). apply save_render_state.
Qed.

Lemma add_returned (e : Entropy) (rawUrl : jsstring) (st : State) :
  trim rawUrl <> [] ->
  can_draw container (new_link new_URL e (stored_url rawUrl) :: links st) ->
  add e rawUrl st
  = Returned {| links := new_link new_URL e (stored_url rawUrl) :: links st;
                writes := (new_link new_URL e (stored_url rawUrl) :: links st)
                          :: writes st |}.
Proof.
  intros Hne Hd. rewrite (add_nonempty e rawUrl st Hne).
  now rewrite save_render_returned.
Qed.

Lemma add_threw (e : Entropy) (rawUrl : jsstring) (st : State) :
  trim rawUrl <> [] ->
  container = true ->
  Exists undrawable (new_link new_URL e (stored_url rawUrl) :: links st) ->
  add e rawUrl st
  = Threw {| links := new_link new_URL e (stored_url rawUrl) :: links st;
             writes := (new_link new_URL e (stored_url rawUrl) :: links st)
                       :: writes st |}.
Proof.
  intros Hne Hc Hex. rewrite (add_nonempty e rawUrl st Hne).
  now rewrite save_render_threw.
Qed.

(** C10: when the trimmed input is not empty and does not begin with
    [http://] or [https://] in any letter case, [add] prepends one record
    whose URL is [https://] followed by the whole trimmed input, whatever
    other scheme the input may begin with, and writes the collection. *)
Theorem add_prepends_https (e : Entropy) (rawUrl : jsstring) (st : State)
    (Hne : trim rawUrl <> [])
    (Hscheme : has_http_scheme (trim rawUrl) = false) :
  exists link,
    state_of (add e rawUrl st)
    = {| links := link :: links st; writes := (link :: links st) :: writes st |} /\
    url link = lit "https://" ++ trim rawUrl.
Proof.
  exists (new_link new_URL e (lit "https://" ++ trim rawUrl)).
  rewrite (add_state e rawUrl st Hne).
  unfold stored_url. rewrite Hscheme. split; reflexivity.
Qed.

End Page.

Lemma add_prepends_https_witness :
  exists link,
    state_of (add sample_new_URL sample_dateLabel true sample_entropy
                (lit " ftp://example.com ") empty_state)
    = {| links := link :: links empty_state;
         writes := (link :: links empty_state) :: writes empty_state |} /\
    url link = lit "https://" ++ trim (lit " ftp://example.com ").
Proof.
  apply (add_prepends_https sample_new_URL sample_dateLabel true sample_entropy
           (lit " ftp://example.com ") empty_state).
  - vm_compute. discriminate.
  - vm_compute. reflexivity.
Defined.



(** The other way [add] ends: the text is one lone surrogate, the record
    is stored and written, and the exception of the card builder escapes. *)
Example add_lone_surrogate_throws :
  add sample_new_URL sample_dateLabel true sample_entropy lone_surrogate empty_state
  = Threw
      {| links :=
           [ {| id := lit "link_1718020800123_k3x9q";
                url := lit "https://" ++ lone_surrogate;
                description := lit "https://" ++ lone_surrogate;
                createdAt := 1718020800124 |} ];
         writes :=
           [ [ {| id := lit "link_1718020800123_k3x9q";
                  url := lit "https://" ++ lone_surrogate;
                  description := lit "https://" ++ lone_surrogate;
                  createdAt := 1718020800124 |} ] ] |}.
Proof. vm_compute. reflexivity. Qed.

(** *** The voice handler *)

Lemma github_transcript_not_url_like : test true tld_re github_transcript = false.
Proof. vm_compute. reflexivity. Qed.

(** The cleaning step alone, had the transcript reached it: the spoken
    word for the slash stays, as letters. *)
Lemma github_transcript_cleaned :
  replace_all true (chars (lit "dot")) (lit ".")
    (replace_all true (PlusCls is_space) [] github_transcript)
  = lit "github.comslashoctocat".
Proof. vm_compute. reflexivity. Qed.

(** C1, evaluated: for the transcript [github dot com slash octocat] the
    handler finds no [word.tld] token, since the transcript has no full
    stop, and stores a search query for the verbatim transcript, not
    [https://github.com/octocat]; it returns whenever the collection can
    be drawn. *)
Theorem github_transcript_becomes_search (new_URL : jsstring -> option URL)
    (dateLabel : Z -> jsstring) (container : bool)
    (e e' : Entropy) (st : State) :
  exists link,
    state_of (onResult new_URL dateLabel container e e' github_transcript st)
    = {| links := link :: links st;
         writes := (link :: links st) :: writes st |} /\
    url link
    = lit "https://www.google.com/search?q=github%20dot%20com%20slash%20octocat" /\
    url link <> lit "https://github.com/octocat" /\
    (can_draw container (links st) ->
     onResult new_URL dateLabel container e e' github_transcript st
     = Returned {| links := link :: links st;
                   writes := (link :: links st) :: writes st |}).
Proof.
  exists (new_link new_URL e
            (lit "https://www.google.com/search?q=github%20dot%20com%20slash%20octocat")).
  unfold onResult. rewrite github_transcript_not_url_like.
  replace (encodeURIComponent github_transcript)
    with (Some (lit "github%20dot%20com%20slash%20octocat"))
    by (vm_compute; reflexivity).
  assert (Hne : trim (search_prefix ++ lit "github%20dot%20com%20slash%20octocat") <> [])
    by (vm_compute; discriminate).
  assert (Hs : stored_url (search_prefix ++ lit "github%20dot%20com%20slash%20octocat")
               = lit "https://www.google.com/search?q=github%20dot%20com%20slash%20octocat")
    by (vm_compute; reflexivity).
  split; [rewrite (add_state _ _ _ _ _ _ Hne), Hs; reflexivity|].
  split; [reflexivity|]. split; [vm_compute; discriminate|].
  intros Hd. rewrite (add_returned _ _ _ _ _ _ Hne); rewrite Hs; [reflexivity|].
  destruct Hd as [Hd|Hd]; [now left|right].
  constructor; [vm_compute; discriminate|exact Hd].
Qed.

End LinksFacts.

(* ===================================================================== *)
(** ** Facts about trimming and cleaning *)
(* ===================================================================== *)

Module TrimFacts.
Import JSFacts LinksTrace.

Lemma trimStart_head_ok (s : jsstring) : head_ok (trimStart s).
Proof.
  induction s as [|c s IH]; simpl; [exact I|].
  destruct (is_space c) eqn:E; [exact IH|exact E].
Qed.

Lemma trimStart_of_head_ok (s : jsstring) : head_ok s -> trimStart s = s.
Proof. destruct s as [|c s]; simpl; [reflexivity|]. now intros ->. Qed.

Lemma trimStart_snoc (l : jsstring) (c : N) :
  is_space c = false -> trimStart (l ++ [c]) = trimStart l ++ [c].
Proof.
  intros Hc. induction l as [|x l IH]; simpl; [now rewrite Hc|].
  now destruct (is_space x).
Qed.

Lemma trimEnd_cons (c : N) (s : jsstring) :
  is_space c = false -> trimEnd (c :: s) = c :: trimEnd s.
Proof.
  intros Hc. unfold trimEnd. simpl rev.
  rewrite trimStart_snoc by exact Hc. now rewrite rev_app_distr.
Qed.

Lemma trimEnd_app (a u : jsstring) :
  Forall (fun c => is_space c = false) a -> trimEnd (a ++ u) = a ++ trimEnd u.
Proof.
  induction 1 as [|c a Hc _ IH]; simpl; [reflexivity|].
  now rewrite trimEnd_cons, IH.
Qed.

Lemma trimEnd_idem (s : jsstring) : trimEnd (trimEnd s) = trimEnd s.
Proof.
  unfold trimEnd. rewrite rev_involutive.
  now rewrite (trimStart_of_head_ok _ (trimStart_head_ok _)).
Qed.

Lemma trimEnd_head_ok (s : jsstring) : head_ok s -> head_ok (trimEnd s).
Proof.
  destruct s as [|c s]; simpl; [intros _; exact I|].
  intros Hc. now rewrite trimEnd_cons.
Qed.

Lemma trim_head_ok (s : jsstring) : head_ok (trim s).
Proof. apply trimEnd_head_ok, trimStart_head_ok. Qed.

Lemma trim_idem (s : jsstring) : trim (trim s) = trim s.
Proof.
  unfold trim at 1.
  rewrite (trimStart_of_head_ok _ (trim_head_ok s)).
  unfold trim. apply trimEnd_idem.
Qed.

Lemma trimEnd_trim (s : jsstring) : trimEnd (trim s) = trim s.
Proof. unfold trim. apply trimEnd_idem. Qed.

(** A text without whitespace is its own trimming. *)
Lemma trim_no_space (s : jsstring) :
  Forall (fun c => is_space c = false) s -> trim s = s.
Proof.
  intros H. unfold trim.
  rewrite trimStart_of_head_ok by (destruct H; simpl; auto).
  rewrite <- (app_nil_r s) at 1. rewrite trimEnd_app by exact H.
  now rewrite app_nil_r.
Qed.

(** Trimming leaves a text empty only when it is blank. *)
Lemma trimStart_nil_blank (s : jsstring) : trimStart s = [] -> blank s.
Proof.
  induction s as [|c s IH]; simpl; [constructor|].
  destruct (is_space c) eqn:E; [|discriminate].
  intros H. constructor; [exact E|now apply IH].
Qed.

Lemma trim_nil_blank (s : jsstring) : trim s = [] -> blank s.
Proof.
  unfold trim, trimEnd. intros H.
  apply (f_equal (@rev N)) in H. rewrite rev_involutive in H. simpl in H.
  apply trimStart_nil_blank in H.
  apply trimStart_nil_blank.
  destruct (trimStart s) as [|c t] eqn:E; [reflexivity|].
  exfalso. pose proof (trimStart_head_ok s) as Hh. rewrite E in Hh. simpl in Hh.
  unfold blank in H. rewrite Forall_forall in H.
  assert (Hc : is_space c = true).
  { apply H. apply list_elem_of_In. apply in_rev. rewrite rev_involutive. now left. }
  congruence.
Qed.

End TrimFacts.

(* ===================================================================== *)
(** ** More facts about the link store *)
(* ===================================================================== *)

Module LinksOpsFacts.
Import Links JSFacts LinksSpec LinksOps LinksTrace TrimFacts.

Lemma has_http_scheme_https (u : jsstring) :
  has_http_scheme (lit "https://" ++ u) = true.
Proof. reflexivity. Qed.

Lemma stored_url_schemed (rawUrl : jsstring) :
  trim rawUrl <> [] -> has_http_scheme (stored_url rawUrl) = true.
Proof.
  intros _. unfold stored_url.
  destruct (has_http_scheme (trim rawUrl)) eqn:E; [exact E|].
  apply has_http_scheme_https.
Qed.

Lemma stored_url_trimmed (rawUrl : jsstring) :
  trim (stored_url rawUrl) = stored_url rawUrl.
Proof.
  unfold stored_url. destruct (has_http_scheme (trim rawUrl)).
  - apply trim_idem.
  - unfold trim at 1. rewrite trimStart_of_head_ok by reflexivity.
    rewrite trimEnd_app by (repeat constructor).
    now rewrite trimEnd_trim.
Qed.

Section Page.
Variable new_URL : jsstring -> option URL.
Variable dateLabel : Z -> jsstring.
Variable container : bool.

Local Abbreviation add := (add new_URL dateLabel container).
Local Abbreviation onResult := (onResult new_URL dateLabel container).
Local Abbreviation remove := (remove dateLabel container).
Local Abbreviation run := (run new_URL dateLabel container).

(** X16: the URL of a record that [add] creates always begins with
    [http://] or [https://] and has no whitespace at either end, and it is
    stable: giving the stored URL to [add] again stores that same URL. *)
Theorem add_stores_schemed_url (e : Entropy) (rawUrl : jsstring) (st : State)
    (H : trim rawUrl <> []) :
  exists link,
    links (state_of (add e rawUrl st)) = link :: links st /\
    has_http_scheme (url link) = true /\
    trim (url link) = url link /\
    stored_url (url link) = url link.
Proof.
  exists (new_link new_URL e (stored_url rawUrl)).
  rewrite (LinksFacts.add_state new_URL dateLabel container e rawUrl st H). simpl.
  split; [reflexivity|].
  split; [now apply stored_url_schemed|].
  split; [apply stored_url_trimmed|].
  unfold stored_url at 1. rewrite stored_url_trimmed.
  now rewrite (stored_url_schemed rawUrl H).
Qed.

Lemma add_keeps_schemed (e : Entropy) (rawUrl : jsstring) (st : State) :
  Forall schemed (links st) -> Forall schemed (links (state_of (add e rawUrl st))).
Proof.
  intros Hst. destruct (trim rawUrl) as [|c u] eqn:E.
  - now rewrite (LinksFacts.add_blank new_URL dateLabel container e rawUrl st E).
  - assert (Hne : trim rawUrl <> []) by (rewrite E; discriminate).
    rewrite (LinksFacts.add_state new_URL dateLabel container e rawUrl st Hne). simpl.
    constructor; [|exact Hst]. now apply stored_url_schemed.
Qed.

Lemma onResult_keeps_schemed (e e' : Entropy) (transcript : jsstring) (st : State) :
  Forall schemed (links st) ->
  Forall schemed (links (state_of (onResult e e' transcript st))).
Proof.
  intros Hst.
  assert (Hsearch : forall e0 st0,
             Forall schemed (links st0) ->
             Forall schemed
               (links (state_of
                         match encodeURIComponent transcript with
                         | Some q => add e0 (search_prefix ++ q) st0
                         | None => Threw st0
                         end))).
  { intros e0 st0 H0. destruct (encodeURIComponent transcript); [|exact H0].
    now apply add_keeps_schemed. }
  unfold Links.onResult.
  destruct (test true tld_re transcript); [|now apply Hsearch].
  destruct (new_URL _); [|now apply Hsearch].
  match goal with
  | |- context [Links.add new_URL dateLabel container e ?c st] =>
      pose proof (add_keeps_schemed e c st Hst) as Hadd;
      destruct (Links.add new_URL dateLabel container e c st) as [st1|st1]
  end.
  - exact Hadd.
  - now apply Hsearch.
Qed.

(** X17: every call that changes the link store, from the form, from the
    voice handler or from a card, keeps this invariant, whether the call
    returns or throws: every stored URL begins with [http://] or
    [https://]. *)
Theorem urls_stay_schemed (ops : list op) (st : State)
    (H : Forall schemed (links st)) :
  Forall schemed (links (run ops st)).
Proof.
  revert st H. induction ops as [|o ops IH]; intros st H; simpl; [exact H|].
  apply IH. destruct o; simpl.
  - now apply add_keeps_schemed.
  - now apply onResult_keeps_schemed.
  - unfold updateDesc.
    destruct (List.find _ _); [|exact H]. simpl.
    now apply TodosFacts.Forall_alter_first.
  - unfold LinksOps.remove. rewrite LinksViewFacts.save_render_state. simpl.
    now apply TodosFacts.Forall_list_filter.
Qed.
End Page.

Lemma add_stores_schemed_url_witness :
  exists link,
    links (state_of (add DemoURL.new_URL sample_dateLabel true sample_entropy
                       (lit "  example.com/docs ") two_links))
    = link :: links two_links /\
    has_http_scheme (url link) = true /\
    trim (url link) = url link /\
    stored_url (url link) = url link.
Proof.
  apply (add_stores_schemed_url DemoURL.new_URL sample_dateLabel true sample_entropy
           (lit "  example.com/docs ") two_links).
  vm_compute. discriminate.
Defined.

Lemma urls_stay_schemed_witness :
  Forall schemed
    (links (run DemoURL.new_URL sample_dateLabel true
              [OpAdd sample_entropy (lit "example.com/docs");
               OpVoice sample_entropy sample_entropy
                 (lit "github dot com slash octocat");
               OpUpdateDesc (lit "link_1_aaaaa") (lit "home");
               OpRemove (lit "link_2_bbbbb")]
              two_links)).
Proof.
  apply (urls_stay_schemed DemoURL.new_URL sample_dateLabel true).
  repeat constructor.
Defined.

(** *** Editing a description *)

Lemma find_link_some (i : jsstring) (l : list Link) :
  Exists (fun x => id x = i) l -> exists x, List.find (has_id i) l = Some x.
Proof.
  induction 1 as [x l Hx | x l _ IH]; simpl.
  - unfold has_id. rewrite (proj2 (jseqb_eq _ _) Hx). eauto.
  - destruct (has_id i x); eauto.
Qed.

Lemma find_link_none (i : jsstring) (l : list Link) :
  Forall (fun x => id x <> i) l -> List.find (has_id i) l = None.
Proof.
  induction 1 as [|x l Hx _ IH]; simpl; [reflexivity|].
  destruct (has_id i x) eqn:E; [|exact IH].
  apply jseqb_eq in E. contradiction.
Qed.

Lemma set_description_same (l : Link) : set_description (description l) l = l.
Proof. now destruct l. Qed.

(** X18: for an identifier that is present, [updateDesc] sets the
    description of the first link with the identifier to the trimmed new
    text, or leaves it when the new text is blank; it changes no URL,
    identifier or creation time and no other link, and it writes the
    collection once in both cases. *)
Theorem updateDesc_edits_first_match (i newDesc : jsstring) (st : State)
    (Hi : Exists (fun l => id l = i) (links st)) :
  let st' := updateDesc i newDesc st in
  exists l l1 l2,
    links st = l1 ++ l :: l2 /\
    Forall (fun l' => id l' <> i) l1 /\
    id l = i /\
    links st'
    = l1 ++ {| id := id l;
               url := url l;
               description := match trim newDesc with
                              | [] => description l
                              | _ :: _ => trim newDesc
                              end;
               createdAt := createdAt l |}
         :: l2 /\
    writes st' = links st' :: writes st /\
    (blank newDesc -> links st' = links st).
Proof.
  intros st'. destruct (find_link_some i _ Hi) as [l Hl].
  set (f := fun l : Link =>
              set_description
                (if truthy_str (trim newDesc) then trim newDesc else description l) l).
  assert (E : st' = save {| links := Todos.alter_first (has_id i) f (links st);
                            writes := writes st |}).
  { unfold st', updateDesc. now rewrite Hl. }
  destruct (TodosOpsFacts.alter_first_split (has_id i) f _ l Hl)
    as (l1 & l2 & Hs & Hl1 & Hli & Hal).
  exists l, l1, l2. split; [exact Hs|]. split.
  { eapply Forall_impl; [exact Hl1|]. intros l' Hf Hid.
    unfold has_id in Hf. rewrite (proj2 (jseqb_eq _ _) Hid) in Hf. discriminate. }
  split; [now apply jseqb_eq|].
  split; [rewrite E; simpl; rewrite Hal; unfold f, set_description;
          now destruct (trim newDesc)|].
  split; [rewrite E; reflexivity|].
  intros Hb. rewrite E. simpl. apply TodosOpsFacts.alter_first_fix.
  intros x _. unfold f. rewrite (trim_blank newDesc Hb). simpl.
  apply set_description_same.
Qed.

Lemma updateDesc_edits_first_match_witness :
  let st' := updateDesc (lit "link_1_aaaaa") (lit " my site ") two_links in
  exists l l1 l2,
    links two_links = l1 ++ l :: l2 /\
    Forall (fun l' => id l' <> lit "link_1_aaaaa") l1 /\
    id l = lit "link_1_aaaaa" /\
    links st'
    = l1 ++ {| id := id l;
               url := url l;
               description := match trim (lit " my site ") with
                              | [] => description l
                              | _ :: _ => trim (lit " my site ")
                              end;
               createdAt := createdAt l |}
         :: l2 /\
    writes st' = links st' :: writes two_links /\
    (blank (lit " my site ") -> links st' = links two_links).
Proof.
  apply (updateDesc_edits_first_match (lit "link_1_aaaaa") (lit " my site ") two_links).
  apply Exists_cons_tl, Exists_cons_hd. reflexivity.
Defined.

(** X19: [remove] of the link store deletes every link that has the
    identifier, keeps the others in their order, and writes the resulting
    collection even when no link had the identifier; it returns whenever
    what is left can be drawn.  [updateDesc] for an identifier that no
    link has changes nothing and writes nothing. *)
Theorem links_remove_deletes_every_match (dateLabel : Z -> jsstring)
    (container : bool) (i : jsstring) (st : State) :
  let st' := state_of (remove dateLabel container i st) in
  Forall (fun l => id l <> i) (links st') /\
  (forall l, In l (links st') <-> In l (links st) /\ id l <> i) /\
  sublist (links st') (links st) /\
  writes st' = links st' :: writes st /\
  (can_draw container (links st') -> remove dateLabel container i st = Returned st') /\
  (Forall (fun l => id l <> i) (links st) ->
   links st' = links st /\ forall d, updateDesc i d st = st).
Proof.
  assert (Hneg : forall l, negb (has_id i l) = true <-> id l <> i).
  { intros l. unfold has_id. rewrite negb_true_iff, <- not_true_iff_false.
    now rewrite jseqb_eq. }
  cbv zeta. unfold remove. rewrite LinksViewFacts.save_render_state. simpl.
  split.
  { apply List.Forall_forall. intros l Hl.
    apply List.filter_In in Hl as [_ Hl]. now apply Hneg. }
  split.
  { intros l. rewrite List.filter_In. now rewrite Hneg. }
  split.
  { induction (links st) as [|l ls IH]; simpl; [constructor|].
    destruct (negb (has_id i l)); now constructor. }
  split; [reflexivity|].
  split.
  { intros Hd. now rewrite LinksViewFacts.save_render_returned. }
  intros Hall. split.
  - apply TodosOpsFacts.filter_none_removed.
    eapply Forall_impl; [exact Hall|]. intros l Hl. now apply Hneg.
  - intros d. unfold updateDesc. now rewrite (find_link_none i _ Hall).
Qed.

End LinksOpsFacts.

(* ===================================================================== *)
(** ** Facts about the query encoding *)
(* ===================================================================== *)

Module UriFacts.
Import JSFacts LinksTrace.

Lemma unreserved_marks : lit "-_.!~*'()" = [45; 95; 46; 33; 126; 42; 39; 40; 41]%N.
Proof. reflexivity. Qed.

Lemma uri_unreserved_small (c : N) : uri_unreserved c = true -> (c < 128)%N.
Proof.
  unfold uri_unreserved, is_upper, is_lower, is_digit.
  rewrite unreserved_marks. cbn [existsb].
  rewrite !orb_true_iff, !andb_true_iff, !N.leb_le, !N.eqb_eq. lia.
Qed.

Lemma uri_unreserved_not_surrogate (c : N) :
  uri_unreserved c = true -> is_trail c = false /\ is_lead c = false.
Proof.
  intros H. apply uri_unreserved_small in H.
  unfold is_trail, is_lead. split; apply andb_false_iff; left; apply N.leb_gt; lia.
Qed.

Lemma uri_unreserved_not_space (c : N) : uri_unreserved c = true -> is_space c = false.
Proof.
  unfold uri_unreserved, is_upper, is_lower, is_digit, is_space.
  rewrite unreserved_marks. cbn [existsb].
  rewrite !orb_true_iff, !andb_true_iff, !N.leb_le, !N.eqb_eq. intros H.
  repeat (apply orb_false_iff; split);
    try (apply N.eqb_neq; lia);
    apply andb_false_iff; rewrite !N.leb_gt; lia.
Qed.

Lemma uri_safe_not_space (c : N) : uri_safe c = true -> is_space c = false.
Proof.
  unfold uri_safe. rewrite orb_true_iff, N.eqb_eq.
  intros [H| ->]; [now apply uri_unreserved_not_space|reflexivity].
Qed.

Lemma hex_digit_safe (d : N) : (d < 16)%N -> uri_safe (hex_digit d) = true.
Proof.
  intros H.
  assert (d = 0 \/ d = 1 \/ d = 2 \/ d = 3 \/ d = 4 \/ d = 5 \/ d = 6 \/ d = 7 \/
          d = 8 \/ d = 9 \/ d = 10 \/ d = 11 \/ d = 12 \/ d = 13 \/ d = 14 \/
          d = 15)%N as Hd by lia.
  repeat (destruct Hd as [->|Hd]; [reflexivity|]). now subst.
Qed.

Lemma pct_safe (b : N) : (b < 256)%N -> Forall (fun c => uri_safe c = true) (pct b).
Proof.
  intros H. unfold pct. constructor; [reflexivity|].
  constructor; [apply hex_digit_safe|constructor; [apply hex_digit_safe|constructor]].
  - apply N.Div0.div_lt_upper_bound. lia.
  - apply N.mod_lt. discriminate.
Qed.

Lemma utf8_octets (cp : N) :
  (cp < 1114112)%N -> Forall (fun b => (b < 256)%N) (utf8 cp).
Proof.
  intros H. unfold utf8.
  destruct (cp <? 128)%N eqn:E1; [apply N.ltb_lt in E1; repeat constructor; lia|].
  destruct (cp <? 2048)%N eqn:E2.
  { apply N.ltb_lt in E2.
    assert (cp / 64 < 32)%N by (apply N.Div0.div_lt_upper_bound; lia).
    assert (cp mod 64 < 64)%N by (apply N.mod_lt; discriminate).
    repeat constructor; lia. }
  destruct (cp <? 65536)%N eqn:E3.
  { apply N.ltb_lt in E3.
    assert (cp / 4096 < 16)%N by (apply N.Div0.div_lt_upper_bound; lia).
    assert ((cp / 64) mod 64 < 64)%N by (apply N.mod_lt; discriminate).
    assert (cp mod 64 < 64)%N by (apply N.mod_lt; discriminate).
    repeat constructor; lia. }
  assert (cp / 262144 < 5)%N by (apply N.Div0.div_lt_upper_bound; lia).
  assert ((cp / 4096) mod 64 < 64)%N by (apply N.mod_lt; discriminate).
  assert ((cp / 64) mod 64 < 64)%N by (apply N.mod_lt; discriminate).
  assert (cp mod 64 < 64)%N by (apply N.mod_lt; discriminate).
  repeat constructor; lia.
Qed.

Lemma escape_safe (cp : N) :
  (cp < 1114112)%N -> Forall (fun c => uri_safe c = true) (flat_map pct (utf8 cp)).
Proof.
  intros H. apply utf8_octets in H.
  induction H as [|b l Hb _ IH]; [constructor|].
  change (flat_map pct (b :: l)) with (pct b ++ flat_map pct l).
  apply Forall_app. split; [now apply pct_safe|exact IH].
Qed.

(** The statement below for the texts of at most [n] code units. *)
Lemma encode_by_length (n : nat) (s : jsstring) :
  (length s <= n)%nat ->
  Forall (fun c => (c < 65536)%N) s ->
  if well_formed s
  then exists r, encodeURIComponent s = Some r /\ Forall (fun c => uri_safe c = true) r
  else encodeURIComponent s = None.
Proof.
  revert s. induction n as [|n IH]; intros s Hn Hs.
  - destruct s; [|simpl in Hn; lia]. simpl. eauto.
  - destruct s as [|c s]; [simpl; eauto|].
    apply Forall_cons in Hs as [Hc Hs]. simpl in Hn.
    simpl encodeURIComponent. simpl well_formed.
    destruct (uri_unreserved c) eqn:Eu.
    + destruct (uri_unreserved_not_surrogate c Eu) as [-> ->].
      specialize (IH s ltac:(lia) Hs).
      destruct (well_formed s).
      * destruct IH as (r & -> & Hr). eexists. split; [reflexivity|].
        constructor; [|exact Hr]. unfold uri_safe. now rewrite Eu.
      * now rewrite IH.
    + destruct (is_trail c) eqn:Et; [reflexivity|].
      destruct (is_lead c) eqn:El.
      * destruct s as [|d s2]; [reflexivity|].
        apply Forall_cons in Hs as [Hd Hs]. simpl in Hn.
        destruct (is_trail d) eqn:Etd; [|reflexivity]. simpl.
        specialize (IH s2 ltac:(lia) Hs).
        destruct (well_formed s2).
        -- destruct IH as (r & -> & Hr). eexists. split; [reflexivity|].
           apply Forall_app. split; [|exact Hr]. apply escape_safe.
           unfold is_lead, is_trail in El, Etd.
           apply andb_true_iff in El as [El1 El2].
           apply andb_true_iff in Etd as [Et1 Et2].
           apply N.leb_le in El1, El2, Et1, Et2. lia.
        -- now rewrite IH.
      * specialize (IH s ltac:(lia) Hs).
        destruct (well_formed s).
        -- destruct IH as (r & -> & Hr). eexists. split; [reflexivity|].
           apply Forall_app. split; [|exact Hr]. apply escape_safe. lia.
        -- now rewrite IH.
Qed.

Lemma encodeURIComponent_safe_parts (s : jsstring) :
  Forall (fun c => (c < 65536)%N) s ->
  (well_formed s = true ->
   exists r, encodeURIComponent s = Some r /\ Forall (fun c => uri_safe c = true) r) /\
  (well_formed s = false -> encodeURIComponent s = None).
Proof.
  intros H. pose proof (encode_by_length (length s) s (le_n _) H) as E.
  split; intros Hw; now rewrite Hw in E.
Qed.

(** On a text of 16-bit code units, [encodeURIComponent] succeeds
    exactly when every surrogate is half of a pair, and what it returns
    consists only of unreserved characters and [%]: no whitespace, no
    [&], no [#].  A text of unreserved characters is returned as it is. *)
Theorem encodeURIComponent_safe (s : jsstring)
    (H : Forall (fun c => (c < 65536)%N) s) :
  (well_formed s = true ->
   exists r, encodeURIComponent s = Some r /\ Forall (fun c => uri_safe c = true) r) /\
  (well_formed s = false -> encodeURIComponent s = None) /\
  (Forall (fun c => uri_unreserved c = true) s -> encodeURIComponent s = Some s).
Proof.
  pose proof (encode_by_length (length s) s (le_n _) H) as E.
  split; [|split].
  - intros Hw. now rewrite Hw in E.
  - intros Hw. now rewrite Hw in E.
  - clear. induction 1 as [|c s Hc _ IH]; simpl; [reflexivity|].
    now rewrite Hc, IH.
Qed.

Lemma encodeURIComponent_safe_witness :
  (well_formed (lit "buy milk & eggs") = true ->
   exists r, encodeURIComponent (lit "buy milk & eggs") = Some r /\
             Forall (fun c => uri_safe c = true) r) /\
  (well_formed (lit "buy milk & eggs") = false ->
   encodeURIComponent (lit "buy milk & eggs") = None) /\
  (Forall (fun c => uri_unreserved c = true) (lit "buy milk & eggs") ->
   encodeURIComponent (lit "buy milk & eggs") = Some (lit "buy milk & eggs")).
Proof.
  apply (encodeURIComponent_safe (lit "buy milk & eggs")).
  repeat constructor.
Defined.

Example encode_pair :
  encodeURIComponent [104; 105; 32; 55357; 56832]%N = Some (lit "hi%20%F0%9F%98%80").
Proof. vm_compute. reflexivity. Qed.

Example encode_lone_surrogate : encodeURIComponent [104; 55357; 105]%N = None.
Proof. vm_compute. reflexivity. Qed.

End UriFacts.

(* ===================================================================== *)
(** ** Facts about the voice handler and the descriptions *)
(* ===================================================================== *)

Module VoiceFacts.
Import Links JSFacts LinksSpec LinksTrace TrimFacts VoiceSpec.

(** *** The whitespace replacement *)

Lemma run_split (p : N -> bool) (s : jsstring) :
  length s = (run_length p s + length (drop_run p s))%nat.
Proof.
  induction s as [|x s IH]; simpl; [reflexivity|].
  destruct (p x); simpl; lia.
Qed.

Lemma plus_loop_run (ic : bool) (p : N -> bool) (x : N) (s : jsstring) :
  plus_loop (X := jsstring) p (fun _ s' => Some s') x s = Some (drop_run p s).
Proof.
  revert x. induction s as [|y s IH]; intros x; simpl; [reflexivity|].
  destruct (p y); [now rewrite IH|reflexivity].
Qed.

Lemma match_here_plus (ic : bool) (p : N -> bool) (prev : option N) (x : N)
    (s : jsstring) :
  match_here ic (PlusCls p) prev (x :: s)
  = if p x then Some (drop_run p s) else None.
Proof.
  unfold match_here. simpl. destruct (p x); [|reflexivity].
  apply (plus_loop_run ic).
Qed.

Lemma replace_run_go (ic : bool) (p : N -> bool) (s : jsstring) :
  forall (n : nat) (prev : option N),
    (n <= run_length p s)%nat ->
    replace_go ic (PlusCls p) [] n prev s = List.filter (fun c => negb (p c)) s.
Proof.
  induction s as [|x s IH]; intros n prev Hn.
  - simpl in Hn. assert (n = O) by lia. subst n. reflexivity.
  - destruct n as [|n].
    + rewrite RenderFacts.replace_go_cons, match_here_plus. simpl List.filter.
      destruct (p x) eqn:E; simpl negb; cbv iota.
      * replace (length (x :: s) - length (drop_run p s))%nat
          with (S (run_length p s))
          by (simpl length; rewrite (run_split p s) at 1; lia).
        simpl app. apply IH. lia.
      * f_equal. apply IH. lia.
    + simpl in Hn. destruct (p x) eqn:E; [|lia].
      simpl. rewrite E. simpl. apply IH. lia.
Qed.

(** The replacement of [/\s+/g] by the empty text removes exactly the
    whitespace code units. *)
Lemma strip_is_filter (ic : bool) (s : jsstring) :
  replace_all ic (PlusCls is_space) [] s
  = List.filter (fun c => negb (is_space c)) s.
Proof. unfold replace_all. apply replace_run_go. lia. Qed.

Lemma filter_space_nil (s : jsstring) :
  List.filter (fun c => negb (is_space c)) s = [] -> blank s.
Proof.
  induction s as [|c s IH]; simpl; [constructor|].
  destruct (is_space c) eqn:E; simpl; [|discriminate].
  intros H. constructor; [exact E|now apply IH].
Qed.

Lemma filter_space_all (s : jsstring) :
  Forall (fun c => is_space c = false) (List.filter (fun c => negb (is_space c)) s).
Proof.
  apply List.Forall_forall. intros c Hc.
  apply List.filter_In in Hc as [_ Hc]. now apply negb_true_iff.
Qed.

(** *** Any replacement *)

Lemma replace_go_all (ic : bool) (r : regex) (repl : jsstring) (P : N -> Prop)
    (s : jsstring) :
  Forall P repl -> Forall P s ->
  forall n prev, Forall P (replace_go ic r repl n prev s).
Proof.
  intros Hr. induction 1 as [|x s Hx Hs IH]; intros n prev.
  - destruct n; simpl; [|constructor].
    destruct (match_here ic r prev []); [exact Hr|constructor].
  - destruct n as [|n]; [|simpl; apply IH].
    rewrite RenderFacts.replace_go_cons.
    destruct (match_here ic r prev (x :: s)) as [rest|].
    + destruct (length (x :: s) - length rest)%nat.
      * apply Forall_app. split; [exact Hr|]. constructor; [exact Hx|apply IH].
      * apply Forall_app. split; [exact Hr|apply IH].
    + constructor; [exact Hx|apply IH].
Qed.

Lemma replace_go_nonempty (ic : bool) (r : regex) (repl : jsstring)
    (prev : option N) (s : jsstring) :
  repl <> [] -> s <> [] -> replace_go ic r repl O prev s <> [].
Proof.
  intros Hr Hs. destruct s as [|x s]; [contradiction|].
  rewrite RenderFacts.replace_go_cons.
  destruct (match_here ic r prev (x :: s)) as [rest|]; [|discriminate].
  destruct (length (x :: s) - length rest)%nat; destruct repl; try contradiction;
    discriminate.
Qed.

Lemma cleaned_solid (transcript : jsstring) :
  trim transcript <> [] ->
  cleaned transcript <> [] /\ Forall (fun c => is_space c = false) (cleaned transcript).
Proof.
  intros Hne. unfold cleaned. rewrite strip_is_filter. split.
  - apply replace_go_nonempty; [discriminate|].
    intros H. apply filter_space_nil in H. now apply trim_blank in H.
  - apply replace_go_all; [repeat constructor|apply filter_space_all].
Qed.

(** *** Transcripts without a full stop *)

Lemma upper_not_full_stop (x : N) : x <> 46%N -> (upper 46 =? upper x)%N = false.
Proof.
  intros Hx. apply N.eqb_neq. unfold upper at 2, is_lower.
  destruct ((97 <=? x) && (x <=? 122))%N eqn:E.
  - apply andb_true_iff in E as [E1 E2]. apply N.leb_le in E1, E2.
    change (upper 46) with 46%N. lia.
  - change (upper 46) with 46%N. congruence.
Qed.

Lemma plus_loop_dotless {X} (p : N -> bool) (k : option N -> jsstring -> option X)
    (s : jsstring) :
  (forall prev' s', dotless s' -> k prev' s' = None) ->
  dotless s -> forall prev, plus_loop p k prev s = None.
Proof.
  intros Hk. induction 1 as [|x s Hx Hs IH]; intros prev; simpl.
  - apply Hk. constructor.
  - destruct (p x).
    + rewrite IH. apply Hk. now constructor.
    + apply Hk. now constructor.
Qed.

Lemma tld_no_match (prev : option N) (s : jsstring) :
  dotless s -> match_here true tld_re prev s = None.
Proof.
  intros Hs. unfold match_here, tld_re. cbn [m].
  destruct (xorb _ _); [|reflexivity].
  destruct Hs as [|x s Hx Hs]; [reflexivity|].
  destruct (is_word x); [|reflexivity].
  apply plus_loop_dotless; [|exact Hs].
  intros prev' s' Hs'. destruct Hs' as [|y s' Hy Hs']; [reflexivity|].
  unfold chr_eq. now rewrite (upper_not_full_stop y Hy).
Qed.

Lemma tld_test_dotless (s : jsstring) : dotless s -> test true tld_re s = false.
Proof.
  intros H. unfold test. generalize (@None N).
  induction H as [|x s Hx Hs IH]; intros prev; simpl.
  - now rewrite (tld_no_match prev []) by constructor.
  - rewrite (tld_no_match prev (x :: s)) by now constructor. apply IH.
Qed.

Lemma search_url_solid (q : jsstring) :
  Forall (fun c => uri_safe c = true) q ->
  Forall (fun c => is_space c = false) (search_prefix ++ q).
Proof.
  intros Hq. apply Forall_app. split; [repeat constructor|].
  eapply Forall_impl; [exact Hq|]. apply UriFacts.uri_safe_not_space.
Qed.

Lemma search_url_nonempty (q : jsstring) :
  Forall (fun c => uri_safe c = true) q -> trim (search_prefix ++ q) <> [].
Proof.
  intros Hq. rewrite (trim_no_space _ (search_url_solid q Hq)). discriminate.
Qed.

Lemma search_url_stored (q : jsstring) :
  Forall (fun c => uri_safe c = true) q ->
  stored_url (search_prefix ++ q) = search_prefix ++ q.
Proof.
  intros Hq.
  assert (Ht : trim (search_prefix ++ q) = search_prefix ++ q).
  { apply trim_no_space. apply Forall_app. split; [repeat constructor|].
    eapply Forall_impl; [exact Hq|]. apply UriFacts.uri_safe_not_space. }
  unfold stored_url. rewrite Ht. reflexivity.
Qed.

(** *** Well-formed texts *)

Lemma wf_cons_clean (x : N) (s : jsstring) :
  not_surrogate x = true -> well_formed (x :: s) = well_formed s.
Proof.
  unfold not_surrogate. rewrite andb_true_iff, !negb_true_iff.
  intros [Hl Ht]. simpl. now rewrite Ht, Hl.
Qed.

Lemma wf_app_clean (a s : jsstring) :
  Forall (fun c => not_surrogate c = true) a -> well_formed (a ++ s) = well_formed s.
Proof.
  induction 1 as [|x a Hx _ IH]; [reflexivity|].
  simpl app. now rewrite wf_cons_clean.
Qed.

Lemma clean_wf (s : jsstring) :
  Forall (fun c => not_surrogate c = true) s -> well_formed s = true.
Proof.
  intros H. rewrite <- (app_nil_r s). now rewrite wf_app_clean.
Qed.

Lemma small_clean (c : N) : (c < 55296)%N -> not_surrogate c = true.
Proof.
  intros H. unfold not_surrogate, is_lead, is_trail.
  rewrite !andb_true_iff, !negb_true_iff, !andb_false_iff, !N.leb_gt. lia.
Qed.

Lemma space_clean (c : N) : is_space c = true -> not_surrogate c = true.
Proof.
  unfold is_space, not_surrogate, is_lead, is_trail.
  rewrite !orb_true_iff, !andb_true_iff, !negb_true_iff, !andb_false_iff,
    !N.leb_le, !N.leb_gt, !N.eqb_eq.
  lia.
Qed.

Lemma chr_eq_ascii (c x : N) :
  (c < 128)%N -> chr_eq true c x = true -> not_surrogate x = true.
Proof.
  unfold chr_eq. intros Hc H. apply N.eqb_eq in H.
  apply small_clean.
  assert (Hu : forall y, (upper y <= y)%N /\ (y <= upper y + 32)%N).
  { intros y. unfold upper, is_lower.
    destruct ((97 <=? y) && (y <=? 122))%N eqn:E; [|lia].
    apply andb_true_iff in E as [E1 E2]. apply N.leb_le in E1, E2. lia. }
  pose proof (Hu c) as [Hc1 _]. pose proof (Hu x) as [_ Hx2]. lia.
Qed.

Section ReplaceClean.
Variable ic : bool.
Variable r : regex.
Variable repl : jsstring.
Hypothesis Hrepl : Forall (fun c => not_surrogate c = true) repl.
(** Every match of [r] is a non-empty run of code units that are not
    surrogates. *)
Hypothesis Hmatch : forall prev s rest,
  match_here ic r prev s = Some rest ->
  exists seg, s = seg ++ rest /\ seg <> [] /\
              Forall (fun c => not_surrogate c = true) seg.

Lemma match_starts_clean (prev : option N) (x : N) (s rest : jsstring) :
  match_here ic r prev (x :: s) = Some rest ->
  not_surrogate x = true /\
  exists seg', s = seg' ++ rest /\
               Forall (fun c => not_surrogate c = true) seg' /\
               (length (x :: s) - length rest)%nat = S (length seg').
Proof.
  intros H. destruct (Hmatch _ _ _ H) as (seg & E & Hne & Hseg).
  destruct seg as [|y seg']; [contradiction|].
  simpl in E. injection E as <- ->.
  apply Forall_cons in Hseg as [Hy Hseg]. split; [exact Hy|].
  exists seg'. split; [reflexivity|]. split; [exact Hseg|].
  simpl length. rewrite length_app. lia.
Qed.

Lemma replace_go_wf (k : nat) :
  forall (s : jsstring) (n : nat) (prev : option N),
    (length s <= k)%nat ->
    well_formed s = true ->
    Forall (fun c => not_surrogate c = true) (firstn n s) ->
    well_formed (replace_go ic r repl n prev s) = true.
Proof.
  induction k as [|k IH]; intros s n prev Hk Hwf Hn.
  - destruct s; [|simpl in Hk; lia].
    destruct n; simpl; [|reflexivity].
    destruct (match_here ic r prev []); [now apply clean_wf|reflexivity].
  - destruct s as [|x s].
    { destruct n; simpl; [|reflexivity].
      destruct (match_here ic r prev []); [now apply clean_wf|reflexivity]. }
    simpl in Hk. destruct n as [|n].
    + rewrite RenderFacts.replace_go_cons.
      destruct (match_here ic r prev (x :: s)) as [rest|] eqn:Em.
      * destruct (match_starts_clean _ _ _ _ Em) as (Hx & seg' & -> & Hseg & ->).
        rewrite wf_app_clean by exact Hrepl.
        rewrite wf_cons_clean in Hwf by exact Hx.
        apply IH; [lia|exact Hwf|].
        now rewrite firstn_app, Nat.sub_diag, firstn_all, firstn_O, app_nil_r.
      * simpl in Hwf. destruct (is_trail x) eqn:Et; [discriminate|].
        destruct (is_lead x) eqn:El.
        -- destruct s as [|d s2]; [discriminate|].
           apply andb_true_iff in Hwf as [Hd Hwf].
           rewrite RenderFacts.replace_go_cons.
           destruct (match_here ic r (Some x) (d :: s2)) as [rest|] eqn:Em2.
           ++ destruct (match_starts_clean _ _ _ _ Em2) as (Hclean & _).
              unfold not_surrogate in Hclean. rewrite Hd in Hclean.
              now rewrite andb_false_r in Hclean.
           ++ simpl. rewrite Et, El, Hd. simpl.
              apply IH; [simpl in Hk; lia|exact Hwf|constructor].
        -- simpl. rewrite Et, El. apply IH; [lia|exact Hwf|constructor].
    + simpl in Hn. apply Forall_cons in Hn as [Hx Hn].
      rewrite wf_cons_clean in Hwf by exact Hx.
      simpl. apply IH; [lia|exact Hwf|exact Hn].
Qed.

Lemma replace_all_wf (s : jsstring) :
  well_formed s = true -> well_formed (replace_all ic r repl s) = true.
Proof.
  intros H. unfold replace_all.
  apply (replace_go_wf (length s)); [lia|exact H|constructor].
Qed.
End ReplaceClean.

Lemma run_parts (p : N -> bool) (s : jsstring) :
  exists seg, s = seg ++ drop_run p s /\ Forall (fun c => p c = true) seg.
Proof.
  induction s as [|x s (seg & E & Hseg)]; simpl.
  - exists []. split; [reflexivity|constructor].
  - destruct (p x) eqn:Ex.
    + exists (x :: seg). split; [simpl; now rewrite <- E|now constructor].
    + exists []. split; [reflexivity|constructor].
Qed.

Lemma strip_matches (ic : bool) (prev : option N) (s rest : jsstring) :
  match_here ic (PlusCls is_space) prev s = Some rest ->
  exists seg, s = seg ++ rest /\ seg <> [] /\
              Forall (fun c => not_surrogate c = true) seg.
Proof.
  destruct s as [|x s]; [discriminate|].
  rewrite match_here_plus. destruct (is_space x) eqn:Ex; [|discriminate].
  intros [= <-]. destruct (run_parts is_space s) as (seg & E & Hseg).
  exists (x :: seg). split; [simpl; now rewrite <- E|].
  split; [discriminate|]. constructor; [now apply space_clean|].
  eapply Forall_impl; [exact Hseg|]. apply space_clean.
Qed.

Lemma dot_matches (prev : option N) (s rest : jsstring) :
  match_here true (chars (lit "dot")) prev s = Some rest ->
  exists seg, s = seg ++ rest /\ seg <> [] /\
              Forall (fun c => not_surrogate c = true) seg.
Proof.
  change (chars (lit "dot")) with (Seq (Chr 100) (Seq (Chr 111) (Seq (Chr 116) Eps))).
  unfold match_here. cbn [m].
  destruct s as [|x [|y [|z s]]]; try discriminate.
  - destruct (chr_eq true 100 x); discriminate.
  - destruct (chr_eq true 100 x); [|discriminate].
    destruct (chr_eq true 111 y); discriminate.
  - destruct (chr_eq true 100 x) eqn:Ex; [|discriminate].
    destruct (chr_eq true 111 y) eqn:Ey; [|discriminate].
    destruct (chr_eq true 116 z) eqn:Ez; [|discriminate].
    intros [= <-]. exists [x; y; z]. split; [reflexivity|]. split; [discriminate|].
    repeat constructor; eapply chr_eq_ascii; try eassumption; lia.
Qed.

Lemma cleaned_well_formed (transcript : jsstring) :
  well_formed transcript = true -> well_formed (cleaned transcript) = true.
Proof.
  intros H. unfold cleaned.
  apply (replace_all_wf true (chars (lit "dot")) (lit "."));
    [repeat constructor|exact dot_matches|].
  apply (replace_all_wf true (PlusCls is_space) []);
    [constructor|exact (strip_matches true)|exact H].
Qed.

Lemma cleaned_units (transcript : jsstring) :
  Forall (fun c => (c < 65536)%N) transcript ->
  Forall (fun c => (c < 65536)%N) (cleaned transcript).
Proof.
  intros H. unfold cleaned, replace_all.
  apply replace_go_all; [repeat constructor|].
  apply replace_go_all; [constructor|exact H].
Qed.

(** *** Links that can be drawn *)

Lemma encodes (s : jsstring) :
  Forall (fun c => (c < 65536)%N) s -> well_formed s = true ->
  encodeURIComponent s <> None.
Proof.
  intros Hcu Hwf.
  destruct (proj1 (UriFacts.encodeURIComponent_safe_parts s Hcu) Hwf) as (q & -> & _).
  discriminate.
Qed.

Lemma uri_safe_small (c : N) : uri_safe c = true -> (c < 128)%N.
Proof.
  unfold uri_safe. rewrite orb_true_iff, N.eqb_eq.
  intros [H| ->]; [now apply UriFacts.uri_unreserved_small|lia].
Qed.

Lemma search_link_drawable (new_URL : jsstring -> option URL) (e : Entropy)
    (q : jsstring) :
  Forall (fun c => uri_safe c = true) q ->
  drawable (new_link new_URL e (search_prefix ++ q)).
Proof.
  intros Hq. unfold drawable, new_link. cbn [url].
  assert (Hsmall : Forall (fun c => (c < 128)%N) (search_prefix ++ q)).
  { apply Forall_app. split; [repeat constructor|].
    eapply Forall_impl; [exact Hq|]. apply uri_safe_small. }
  apply encodes.
  - eapply Forall_impl; [exact Hsmall|]. intros c Hc. cbv beta in Hc. lia.
  - apply clean_wf. eapply Forall_impl; [exact Hsmall|].
    intros c Hc. apply small_clean. cbv beta in Hc. lia.
Qed.

Lemma cleaned_link_drawable (new_URL : jsstring -> option URL) (e : Entropy)
    (transcript : jsstring) :
  trim transcript <> [] ->
  Forall (fun c => (c < 65536)%N) transcript ->
  well_formed transcript = true ->
  drawable (new_link new_URL e (stored_url (cleaned transcript))).
Proof.
  intros Hne Hcu Hwf. unfold drawable, new_link. cbn [url].
  destruct (cleaned_solid transcript Hne) as [_ Hsolid].
  unfold stored_url. rewrite (trim_no_space _ Hsolid).
  pose proof (cleaned_well_formed transcript Hwf) as Hw.
  pose proof (cleaned_units transcript Hcu) as Hu.
  destruct (has_http_scheme (cleaned transcript)); apply encodes;
    try assumption.
  apply Forall_app. split; [repeat constructor|exact Hu].
Qed.

Lemma can_draw_cons (container : bool) (l : Link) (ls : list Link) :
  drawable l -> can_draw container ls -> can_draw container (l :: ls).
Proof. intros Hl [Hc|Hd]; [now left|right; now constructor]. Qed.

Section Page.
Variable new_URL : jsstring -> option URL.
Variable dateLabel : Z -> jsstring.
Variable container : bool.

Local Abbreviation add := (add new_URL dateLabel container).
Local Abbreviation onResult := (onResult new_URL dateLabel container).

(** X20: a transcript without a full stop is never taken for a URL,
    whatever words it has: the handler stores one link whose URL is the
    search address followed by the encoded transcript, and returns
    whenever the collection can be drawn.  So a spoken "dot" that the
    recogniser delivers as a word always ends in a search. *)
Theorem voice_without_full_stop (e e' : Entropy)
    (transcript : jsstring) (st : State)
    (Hdot : Forall (fun c => c <> 46%N) transcript)
    (Hcu : Forall (fun c => (c < 65536)%N) transcript)
    (Hwf : well_formed transcript = true) :
  exists q link,
    encodeURIComponent transcript = Some q /\
    state_of (onResult e e' transcript st)
    = {| links := link :: links st;
         writes := (link :: links st) :: writes st |} /\
    url link = search_prefix ++ q /\
    (can_draw container (links st) ->
     onResult e e' transcript st
     = Returned {| links := link :: links st;
                   writes := (link :: links st) :: writes st |}).
Proof.
  destruct (proj1 (UriFacts.encodeURIComponent_safe_parts transcript Hcu) Hwf)
    as (q & Hq & Hsafe).
  exists q, (new_link new_URL e (search_prefix ++ q)).
  split; [exact Hq|].
  unfold Links.onResult. rewrite (tld_test_dotless transcript Hdot), Hq.
  pose proof (search_url_nonempty q Hsafe) as Hne.
  pose proof (search_url_stored q Hsafe) as Hs.
  split; [|split; [reflexivity|]].
  - rewrite (LinksFacts.add_state _ _ _ _ _ _ Hne), Hs. reflexivity.
  - intros Hd.
    rewrite (LinksFacts.add_returned _ _ _ _ _ _ Hne); rewrite Hs; [reflexivity|].
    apply can_draw_cons; [now apply search_link_drawable|exact Hd].
Qed.

(** X21: for every transcript the speech module can deliver (not blank,
    and a well-formed text of 16-bit code units), on a collection that
    can be drawn, the handler returns and stores exactly one new link at
    the head of the collection, writing once; the URL of the link begins
    with [http://] or [https://], and it is either the cleaned
    transcript, behind [https://] if it has no scheme, or the search
    address. *)
Theorem voice_always_adds_one (e e' : Entropy)
    (transcript : jsstring) (st : State)
    (Hne : trim transcript <> [])
    (Hcu : Forall (fun c => (c < 65536)%N) transcript)
    (Hwf : well_formed transcript = true)
    (Hst : can_draw container (links st)) :
  exists q link,
    encodeURIComponent transcript = Some q /\
    onResult e e' transcript st
    = Returned {| links := link :: links st;
                  writes := (link :: links st) :: writes st |} /\
    has_http_scheme (url link) = true /\
    (url link = stored_url (cleaned transcript) \/ url link = search_prefix ++ q).
Proof.
  destruct (proj1 (UriFacts.encodeURIComponent_safe_parts transcript Hcu) Hwf)
    as (q & Hq & Hsafe).
  assert (Hsearch : trim (search_prefix ++ q) <> [])
    by now apply search_url_nonempty.
  destruct (cleaned_solid transcript Hne) as [Hc1 Hc2].
  assert (Hclean : trim (cleaned transcript) <> []).
  { now rewrite (trim_no_space _ Hc2). }
  assert (Hfall :
            exists link,
              add e (search_prefix ++ q) st
              = Returned {| links := link :: links st;
                            writes := (link :: links st) :: writes st |} /\
              has_http_scheme (url link) = true /\
              (url link = stored_url (cleaned transcript) \/
               url link = search_prefix ++ q)).
  { exists (new_link new_URL e (stored_url (search_prefix ++ q))).
    split.
    - apply LinksFacts.add_returned; [exact Hsearch|].
      rewrite (search_url_stored q Hsafe).
      apply can_draw_cons; [now apply search_link_drawable|exact Hst].
    - simpl. split; [now apply LinksOpsFacts.stored_url_schemed|].
      right. now apply search_url_stored. }
  exists q.
  unfold Links.onResult. fold (cleaned transcript). rewrite Hq.
  destruct (test true tld_re transcript); [|destruct Hfall as (l & H); now exists l].
  destruct (new_URL _); [|destruct Hfall as (l & H); now exists l].
  exists (new_link new_URL e (stored_url (cleaned transcript))).
  split; [reflexivity|].
  rewrite (LinksFacts.add_returned _ _ _ _ _ _ Hclean).
  - split; [reflexivity|]. simpl.
    split; [now apply LinksOpsFacts.stored_url_schemed|now left].
  - apply can_draw_cons; [now apply cleaned_link_drawable|exact Hst].
Qed.

(** X30: when the page has the list container and [encodeURIComponent]
    refuses the URL of a stored link, a transcript that is taken for a URL
    and parses is stored twice: [add] stores and writes the cleaned
    transcript and throws while drawing, the [catch] block of the handler
    takes that for a URL that does not parse, and its [add] stores and
    writes the search address and throws again, out of the handler. *)
Theorem voice_stores_twice_after_failed_draw (e e' : Entropy)
    (transcript : jsstring) (st : State)
    (Hc : container = true)
    (Hbad : Exists undrawable (links st))
    (Hlike : test true tld_re transcript = true)
    (Hparse : new_URL (stored_url (cleaned transcript)) <> None)
    (Hne : trim transcript <> [])
    (Hcu : Forall (fun c => (c < 65536)%N) transcript)
    (Hwf : well_formed transcript = true) :
  exists q first second,
    encodeURIComponent transcript = Some q /\
    onResult e e' transcript st
    = Threw {| links := second :: first :: links st;
               writes := (second :: first :: links st)
                         :: (first :: links st) :: writes st |} /\
    url first = stored_url (cleaned transcript) /\
    createdAt first = now_created e /\
    url second = search_prefix ++ q /\
    createdAt second = now_created e'.
Proof.
  destruct (proj1 (UriFacts.encodeURIComponent_safe_parts transcript Hcu) Hwf)
    as (q & Hq & Hsafe).
  assert (Hsearch : trim (search_prefix ++ q) <> [])
    by now apply search_url_nonempty.
  destruct (cleaned_solid transcript Hne) as [Hc1 Hc2].
  assert (Hclean : trim (cleaned transcript) <> []).
  { now rewrite (trim_no_space _ Hc2). }
  exists q, (new_link new_URL e (stored_url (cleaned transcript))),
    (new_link new_URL e' (search_prefix ++ q)).
  split; [exact Hq|].
  split; [|repeat split].
  unfold Links.onResult. fold (cleaned transcript). rewrite Hlike, Hq.
  assert (Hcand : (if test true scheme_re (cleaned transcript)
                   then cleaned transcript
                   else lit "https://" ++ cleaned transcript)
                  = stored_url (cleaned transcript)).
  { unfold stored_url. rewrite (trim_no_space _ Hc2).
    now rewrite LinksFacts.test_scheme_re. }
  rewrite Hcand. destruct (new_URL (stored_url (cleaned transcript))); [|contradiction].
  rewrite (LinksFacts.add_threw _ _ _ _ _ _ Hclean Hc) by now right.
  rewrite (LinksFacts.add_threw _ _ _ _ _ _ Hsearch Hc) by (simpl; now do 2 right).
  rewrite (search_url_stored q Hsafe). reflexivity.
Qed.
End Page.

Lemma voice_without_full_stop_witness :
  exists q link,
    encodeURIComponent (lit "example dot org") = Some q /\
    state_of (onResult DemoURL.new_URL sample_dateLabel true sample_entropy
                sample_entropy (lit "example dot org") two_links)
    = {| links := link :: links two_links;
         writes := (link :: links two_links) :: writes two_links |} /\
    url link = search_prefix ++ q /\
    (can_draw true (links two_links) ->
     onResult DemoURL.new_URL sample_dateLabel true sample_entropy sample_entropy
       (lit "example dot org") two_links
     = Returned {| links := link :: links two_links;
                   writes := (link :: links two_links) :: writes two_links |}).
Proof.
  apply (voice_without_full_stop DemoURL.new_URL sample_dateLabel true
           sample_entropy sample_entropy (lit "example dot org") two_links).
  - repeat constructor; discriminate.
  - repeat constructor.
  - reflexivity.
Defined.

Lemma voice_always_adds_one_witness :
  exists q link,
    encodeURIComponent (lit "open github.com now") = Some q /\
    onResult DemoURL.new_URL sample_dateLabel true sample_entropy sample_entropy
      (lit "open github.com now") two_links
    = Returned {| links := link :: links two_links;
                  writes := (link :: links two_links) :: writes two_links |} /\
    has_http_scheme (url link) = true /\
    (url link = stored_url (cleaned (lit "open github.com now")) \/
     url link = search_prefix ++ q).
Proof.
  apply (voice_always_adds_one DemoURL.new_URL sample_dateLabel true
           sample_entropy sample_entropy (lit "open github.com now") two_links).
  - vm_compute. discriminate.
  - repeat constructor.
  - reflexivity.
  - right. repeat constructor; vm_compute; discriminate.
Defined.

Lemma voice_stores_twice_after_failed_draw_witness :
  exists q first second,
    encodeURIComponent (lit "open github.com now") = Some q /\
    onResult DemoURL.new_URL sample_dateLabel true sample_entropy later_entropy
      (lit "open github.com now") broken_links
    = Threw {| links := second :: first :: links broken_links;
               writes := (second :: first :: links broken_links)
                         :: (first :: links broken_links) :: writes broken_links |} /\
    url first = stored_url (cleaned (lit "open github.com now")) /\
    createdAt first = now_created sample_entropy /\
    url second = search_prefix ++ q /\
    createdAt second = now_created later_entropy.
Proof.
  apply (voice_stores_twice_after_failed_draw DemoURL.new_URL sample_dateLabel true
           sample_entropy later_entropy (lit "open github.com now") broken_links).
  - reflexivity.
  - left. vm_compute. reflexivity.
  - vm_compute. reflexivity.
  - vm_compute. discriminate.
  - vm_compute. discriminate.
  - repeat constructor.
  - reflexivity.
Defined.

Example voice_twice_sample :
  List.map url
    (links (state_of (onResult DemoURL.new_URL sample_dateLabel true sample_entropy
                        later_entropy (lit "open github.com now") broken_links)))
  = [ lit "https://www.google.com/search?q=open%20github.com%20now";
      lit "https://opengithub.comnow";
      lit "https://" ++ lone_surrogate ].
Proof. vm_compute. reflexivity. Qed.

(** *** Descriptions *)










Example autoDescribe_sample :
  autoDescribe DemoURL.new_URL (lit "https://www.example.com/blog/2024/my-great_post/7")
  = lit "My great post " ++ [8212%N] ++ lit " example.com".
Proof. vm_compute. reflexivity. Qed.

Example autoDescribe_numeric_sample :
  autoDescribe DemoURL.new_URL (lit "https://example.com/2024") = lit "Example.com".
Proof. vm_compute. reflexivity. Qed.

End VoiceFacts.

(* ===================================================================== *)
(** ** Facts about the storage helper and the theme *)
(* ===================================================================== *)

Module StorageFacts.
Import JSFacts StorageAdapter.

Section WithJSON.
Variable JSON_parse : jsstring -> option JSON.
Variable JSON_stringify : JSON -> jsstring.
Variable fits : gmap jsstring jsstring -> jsstring -> jsstring -> bool.

Local Abbreviation get := (get JSON_parse).
Local Abbreviation set := (set JSON_stringify fits).

(** X23: when the item fits and the value survives serialisation,
    [Storage.get] after [Storage.set] of a key returns the value written,
    whatever the default; the other keys read as before; and after
    [Storage.remove] of the key the default is returned again. *)
Theorem storage_round_trip (ls : gmap jsstring jsstring) (key : jsstring)
    (value : JSON)
    (Hfit : fits ls key (JSON_stringify value) = true)
    (Hrt : JSON_parse (JSON_stringify value) = Some value) :
  (forall d, get (set ls key value) key d = value) /\
  (forall k d, k <> key -> get (set ls key value) k d = get ls k d) /\
  (forall d, get (remove (set ls key value) key) key d = d).
Proof.
  unfold StorageAdapter.get, StorageAdapter.set, remove. rewrite Hfit. split; [|split].
  - intros d. now rewrite lookup_insert_eq, Hrt.
  - intros k d Hk. now rewrite lookup_insert_ne by congruence.
  - intros d. now rewrite lookup_delete_eq.
Qed.

(** X24: the storage helper never fails towards its caller: [get]
    returns the default for a key that is absent and for an item that
    does not parse, [set] leaves the storage as it was when the item is
    refused, and [remove] affects only its key, which then reads as the
    default. *)
Theorem storage_failures_are_silent (ls : gmap jsstring jsstring) (key : jsstring)
    (d : JSON) :
  (ls !! key = None -> get ls key d = d) /\
  (forall raw, ls !! key = Some raw -> JSON_parse raw = None -> get ls key d = d) /\
  (forall v, fits ls key (JSON_stringify v) = false ->
             set ls key v = ls /\ get (set ls key v) key d = get ls key d) /\
  get (remove ls key) key d = d /\
  (forall k d', k <> key -> get (remove ls key) k d' = get ls k d').
Proof.
  unfold StorageAdapter.get, StorageAdapter.set, remove.
  split; [now intros ->|]. split; [now intros raw -> ->|].
  split; [intros v ->; split; reflexivity|].
  split; [now rewrite lookup_delete_eq|].
  intros k d' Hk. now rewrite lookup_delete_ne by congruence.
Qed.
End WithJSON.

Lemma storage_round_trip_witness :
  (forall d, StorageAdapter.get DemoJSON.parse
               (StorageAdapter.set DemoJSON.stringify DemoJSON.roomy ∅
                  Theme.THEME_KEY (JStr (lit "dark")))
               Theme.THEME_KEY d = JStr (lit "dark")) /\
  (forall k d, k <> Theme.THEME_KEY ->
     StorageAdapter.get DemoJSON.parse
       (StorageAdapter.set DemoJSON.stringify DemoJSON.roomy ∅
          Theme.THEME_KEY (JStr (lit "dark"))) k d
     = StorageAdapter.get DemoJSON.parse ∅ k d) /\
  (forall d, StorageAdapter.get DemoJSON.parse
               (remove
                  (StorageAdapter.set DemoJSON.stringify DemoJSON.roomy ∅
                     Theme.THEME_KEY (JStr (lit "dark")))
                  Theme.THEME_KEY)
               Theme.THEME_KEY d = d).
Proof.
  apply (storage_round_trip DemoJSON.parse DemoJSON.stringify DemoJSON.roomy ∅
           Theme.THEME_KEY (JStr (lit "dark"))).
  - reflexivity.
  - vm_compute. reflexivity.
Defined.

(** *** The theme *)

Section Theme.
Import Theme.
Variable JSON_parse : jsstring -> option JSON.
Variable JSON_stringify : JSON -> jsstring.
Variable fits : gmap jsstring jsstring -> jsstring -> jsstring -> bool.

Local Abbreviation click := (click JSON_stringify fits).
Local Abbreviation initTheme := (initTheme JSON_parse JSON_stringify fits).

(** X25: a click on the theme toggle sets the theme to ['light'] when it
    was ['dark'] and to ['dark'] in every other case, so after a click the
    theme is one of the two, and the icon, when there is one, is the sun
    for ['dark'] and the moon for ['light'].  When both texts survive
    serialisation and the item fits, starting again from the storage the
    click leaves sets the same theme, whatever the system preference. *)
Theorem theme_click_and_reload (has_icon : bool) (st : State)
    (Hlight : JSON_parse (JSON_stringify (JStr (lit "light"))) = Some (JStr (lit "light")))
    (Hdark : JSON_parse (JSON_stringify (JStr (lit "dark"))) = Some (JStr (lit "dark")))
    (Hfit : forall t, fits (storage st) THEME_KEY (JSON_stringify (JStr t)) = true) :
  let st1 := click has_icon st in
  exists t,
    attribute st1 = Some t /\
    t = (if bool_decide (attribute st = Some (lit "dark")) then lit "light"
         else lit "dark") /\
    (has_icon = true ->
     icon st1 = Some (if jseqb t (lit "dark") then lit "fas fa-sun"
                      else lit "fas fa-moon")) /\
    (forall icon' prefersDark,
        exists st2, initTheme icon' prefersDark st1 = Some st2 /\
                    attribute st2 = Some t).
Proof.
  intros st1.
  set (t := match attribute st with
            | Some c => if jseqb c (lit "dark") then lit "light" else lit "dark"
            | None => lit "dark"
            end).
  assert (Ht : t = (if bool_decide (attribute st = Some (lit "dark")) then lit "light"
                    else lit "dark")).
  { unfold t. destruct (attribute st) as [c|].
    - unfold jseqb. destruct (bool_decide (c = lit "dark")) eqn:B.
      + apply bool_decide_eq_true in B. subst c.
        now rewrite bool_decide_eq_true_2.
      + apply bool_decide_eq_false in B.
        rewrite bool_decide_eq_false_2; [reflexivity|congruence].
    - now rewrite bool_decide_eq_false_2. }
  exists t. split; [reflexivity|]. split; [exact Ht|]. split.
  - intros ->. reflexivity.
  - intros icon' prefersDark. unfold Theme.initTheme.
    assert (Hget : StorageAdapter.get JSON_parse (storage st1) THEME_KEY JNull = JStr t).
    { unfold st1, Theme.click. fold t. simpl.
      unfold StorageAdapter.get, StorageAdapter.set. rewrite Hfit.
      rewrite lookup_insert_eq. rewrite Ht.
      destruct (bool_decide _); [now rewrite Hlight|now rewrite Hdark]. }
    rewrite Hget. simpl.
    assert (Htr : truthy_str t = true).
    { rewrite Ht. now destruct (bool_decide _). }
    rewrite Htr. eexists. split; reflexivity.
Qed.
End Theme.

Lemma theme_click_and_reload_witness :
  let st1 := Theme.click DemoJSON.stringify DemoJSON.roomy true Theme.fresh_page in
  exists t,
    Theme.attribute st1 = Some t /\
    t = (if bool_decide (Theme.attribute Theme.fresh_page = Some (lit "dark"))
         then lit "light" else lit "dark") /\
    (true = true ->
     Theme.icon st1 = Some (if jseqb t (lit "dark") then lit "fas fa-sun"
                            else lit "fas fa-moon")) /\
    (forall icon' prefersDark,
        exists st2,
          Theme.initTheme DemoJSON.parse DemoJSON.stringify DemoJSON.roomy
            icon' prefersDark st1 = Some st2 /\
          Theme.attribute st2 = Some t).
Proof.
  apply (theme_click_and_reload DemoJSON.parse DemoJSON.stringify DemoJSON.roomy
           true Theme.fresh_page).
  - vm_compute. reflexivity.
  - vm_compute. reflexivity.
  - reflexivity.
Defined.

End StorageFacts.

(* ===================================================================== *)
(** ** Facts about the speech module *)
(* ===================================================================== *)

Module SpeechFacts.
Import JSFacts Speech TrimFacts.

Lemma call_ok (st : State) (has : Callbacks -> bool) (e : nat -> Effect) :
  (forall who, effect_ok (e who)) -> Forall effect_ok (call st has e).
Proof.
  intros He. unfold call. destruct (callbacks st) as [cb|]; [|constructor].
  destruct (has cb); repeat constructor. apply He.
Qed.

Lemma step_ok (ev : Event) (st : State) : Forall effect_ok (snd (step ev st)).
Proof.
  destruct ev as [cb| |raw|err|]; simpl.
  - unfold toggle, stop, start.
    destruct (isListening st); simpl.
    + destruct (recognition st && true); repeat constructor.
    + destruct (negb (supported st)); repeat constructor.
  - apply call_ok. intros who. exact I.
  - destruct (truthy_str (trim raw)) eqn:E; [|constructor].
    apply call_ok. intros who. cbn [effect_ok]. split.
    + now apply truthy_str_true.
    + apply trim_idem.
  - apply Forall_app. split; [apply call_ok; intros who; exact I|].
    destruct (jseqb err (lit "no-speech")) eqn:E; simpl; [constructor|].
    apply call_ok. intros who. cbn [effect_ok]. exists err. split; [reflexivity|].
    intros ->. rewrite jseqb_refl in E. discriminate.
  - apply call_ok. intros who. exact I.
Qed.

(** X26: whatever the clicks and the recogniser do, in whatever order, a
    result callback is only ever given a transcript that is trimmed and
    not empty, and an error callback is only ever given the message for
    an error other than [no-speech]. *)
Theorem callbacks_get_clean_input (evs : list Event) (st : State) :
  Forall effect_ok (snd (run evs st)).
Proof.
  revert st. induction evs as [|ev evs IH]; intros st; simpl; [constructor|].
  pose proof (step_ok ev st) as H1.
  destruct (step ev st) as [st1 out1]. simpl in H1.
  pose proof (IH st1) as H2.
  destruct (run evs st1) as [st2 out2]. simpl in *.
  apply Forall_app. split; assumption.
Qed.

Lemma step_keeps_callbacks (ev : Event) (st : State) :
  (match ev with Toggle _ => False | _ => True end) ->
  callbacks (fst (step ev st)) = callbacks st.
Proof. destruct ev; simpl; intros H; try reflexivity. contradiction. Qed.

Lemma step_owner (ev : Event) (st : State) (cb0 : Callbacks) :
  (match ev with Toggle _ => False | _ => True end) ->
  callbacks st = Some cb0 ->
  Forall (fun e => called e = None \/ called e = Some (owner cb0)) (snd (step ev st)).
Proof.
  intros Hev Hcb.
  assert (Hcall : forall st' has e,
            callbacks st' = Some cb0 -> (forall who, called (e who) = Some who) ->
            Forall (fun e => called e = None \/ called e = Some (owner cb0))
                   (call st' has e)).
  { intros st' has e Hst' He. unfold call. rewrite Hst'.
    destruct (has cb0); [|constructor].
    constructor; [right; apply He|constructor]. }
  destruct ev as [cb| |raw|err|]; simpl; try contradiction.
  - apply Hcall; [exact Hcb|reflexivity].
  - destruct (truthy_str (trim raw)); [|constructor].
    apply Hcall; [exact Hcb|reflexivity].
  - apply Forall_app. split; [apply Hcall; [exact Hcb|reflexivity]|].
    destruct (negb _); [|constructor]. apply Hcall; [exact Hcb|reflexivity].
  - apply Hcall; [exact Hcb|reflexivity].
Qed.

(** X27: a click on a microphone button while a session is listening
    only asks the recogniser to stop: [toggle] returns [false], the
    callbacks of the session stay registered and those of the click are
    dropped, so every callback called until the next click is one of the
    session that was started, also when the click came from the other
    store's button.  On a browser without speech recognition [toggle]
    returns [true] and does nothing. *)
Theorem toggle_during_session_keeps_owner (cb0 cb : Callbacks) (st : State)
    (Hl : isListening st = true)
    (Hc : callbacks st = Some cb0) :
  toggle cb st
  = (st, (if recognition st then [RecognitionStop] else []), false) /\
  (forall evs,
      Forall (fun ev => match ev with Toggle _ => False | _ => True end) evs ->
      Forall (fun e => called e = None \/ called e = Some (owner cb0))
             (snd (run (Toggle cb :: evs) st))) /\
  (forall cb', toggle cb' (initial false) = (initial false, [], true)).
Proof.
  assert (Ht : toggle cb st
               = (st, (if recognition st then [RecognitionStop] else []), false)).
  { unfold toggle, stop. rewrite Hl, andb_true_r. now destruct (recognition st). }
  split; [exact Ht|]. split; [|reflexivity].
  intros evs Hevs. simpl. rewrite Ht. simpl.
  assert (Hrun : forall st', callbacks st' = Some cb0 ->
             Forall (fun e => called e = None \/ called e = Some (owner cb0))
                    (snd (run evs st'))).
  { clear Ht Hl Hc. induction Hevs as [|ev evs Hev _ IH]; intros st' Hst'; simpl;
      [constructor|].
    pose proof (step_owner ev st' cb0 Hev Hst') as H1.
    pose proof (step_keeps_callbacks ev st' Hev) as H2.
    destruct (step ev st') as [st1 out1]. simpl in H1, H2.
    assert (Hst1 : callbacks st1 = Some cb0) by congruence.
    pose proof (IH st1 Hst1) as H3.
    destruct (run evs st1) as [st2 out2]. simpl in *.
    apply Forall_app. split; assumption. }
  specialize (Hrun st Hc). destruct (run evs st) as [st2 out2]. simpl in *.
  apply Forall_app. split; [|exact Hrun].
  destruct (recognition st); [|constructor].
  constructor; [now left|constructor].
Qed.

Lemma toggle_during_session_keeps_owner_witness :
  toggle link_mic listening_for_todos
  = (listening_for_todos,
     (if recognition listening_for_todos then [RecognitionStop] else []), false) /\
  (forall evs,
      Forall (fun ev => match ev with Toggle _ => False | _ => True end) evs ->
      Forall (fun e => called e = None \/ called e = Some (owner todo_mic))
             (snd (run (Toggle link_mic :: evs) listening_for_todos))) /\
  (forall cb', toggle cb' (initial false) = (initial false, [], true)).
Proof.
  apply (toggle_during_session_keeps_owner todo_mic link_mic listening_for_todos);
    reflexivity.
Defined.

Example session_sample :
  snd (run [Toggle todo_mic; Started; Result (lit "  buy milk "); Ended]
         (initial true))
  = [RecognitionStart; CallStart 1; CallResult 1 (lit "buy milk"); CallStop 1].
Proof. vm_compute. reflexivity. Qed.

Example error_then_end_sample :
  snd (run [Toggle todo_mic; Started; Failed (lit "not-allowed"); Ended]
         (initial true))
  = [RecognitionStart; CallStart 1; CallStop 1;
     CallError 1 (lit "Speech recognition error: not-allowed"); CallStop 1].
Proof. vm_compute. reflexivity. Qed.

End SpeechFacts.

(* ===================================================================== *)
(** ** The two versions of the task store *)
(* ===================================================================== *)

Module VersionFacts.
Import JSFacts.

Lemma read_upgraded (t : OldTodos.Todo) :
  Todos.read_todo (Todos.migrate (OldTodos.stored t)) = Some (OldTodos.upgrade t).
Proof.
  destruct t as [i x c n]. vm_compute. reflexivity.
Qed.

Lemma mapM_map_some {A B C} (f : B -> option C) (g : A -> B) (h : A -> C)
    (l : list A) :
  (forall x, f (g x) = Some (h x)) -> mapM f (List.map g l) = Some (List.map h l).
Proof.
  intros H. induction l as [|x l IH]; simpl; [reflexivity|].
  rewrite H. simpl. rewrite IH. reflexivity.
Qed.

(** X28: a collection that the first version of the task store saved
    loads in the extended store: [load] succeeds and every task keeps its
    identifier, text, completion flag and creation time, in the stored
    order, with no deadline, priority ['medium'], no subtasks and no
    categories. *)
Theorem old_collection_loads (ts : list OldTodos.Todo) (st : Todos.State) :
  Todos.load (List.map OldTodos.stored ts) st
  = Some (Todos.set_todos (List.map OldTodos.upgrade ts) st) /\
  List.map OldTodos.forget (List.map OldTodos.upgrade ts) = ts.
Proof.
  split.
  - unfold Todos.load.
    rewrite (mapM_map_some (fun t => Todos.read_todo (Todos.migrate t))
               OldTodos.stored OldTodos.upgrade ts read_upgraded).
    reflexivity.
  - rewrite List.map_map. induction ts as [|t ts IH]; simpl; [reflexivity|].
    rewrite IH. now destruct t.
Qed.

Section Commute.
Context {A B : Type}.
Variable g : A -> B.
Variables (p : A -> bool) (q : B -> bool).
Hypothesis Hpq : forall x, q (g x) = p x.

Lemma find_map_commute (l : list A) :
  List.find q (List.map g l) = option_map g (List.find p l).
Proof.
  induction l as [|x l IH]; simpl; [reflexivity|].
  rewrite Hpq. now destruct (p x).
Qed.

Lemma alter_first_map_commute (f : A -> A) (f' : B -> B) (l : list A) :
  (forall x, g (f x) = f' (g x)) ->
  List.map g (Todos.alter_first p f l) = Todos.alter_first q f' (List.map g l).
Proof.
  intros Hf. induction l as [|x l IH]; simpl; [reflexivity|].
  rewrite Hpq. destruct (p x); simpl; [now rewrite Hf|now rewrite IH].
Qed.

Lemma filter_map_commute (l : list A) :
  List.map g (List.filter (fun x => negb (p x)) l)
  = List.filter (fun y => negb (q y)) (List.map g l).
Proof.
  induction l as [|x l IH]; simpl; [reflexivity|].
  rewrite Hpq. destruct (p x); simpl; now rewrite IH.
Qed.
End Commute.

(** X29: seen through the four fields of the first version, the extended
    store behaves as the first version did: [add] (with any options),
    [toggle], [update] and [remove] change the collection and write it as
    the first version's functions do, and the subtask calls leave those
    four fields of every task as they are. *)
Theorem extension_behaves_as_first_version (e : Todos.Entropy)
    (txt i j : jsstring) (opts : Todos.Options) (st : Todos.State) :
  OldTodos.forget_state (Todos.add e txt opts st)
  = OldTodos.add e txt (OldTodos.forget_state st) /\
  OldTodos.forget_state (Todos.toggle i st)
  = OldTodos.toggle i (OldTodos.forget_state st) /\
  OldTodos.forget_state (Todos.update i txt st)
  = OldTodos.update i txt (OldTodos.forget_state st) /\
  OldTodos.forget_state (Todos.remove i st)
  = OldTodos.remove i (OldTodos.forget_state st) /\
  OldTodos.todos (OldTodos.forget_state (Todos.addSubtask e i txt st))
  = OldTodos.todos (OldTodos.forget_state st) /\
  OldTodos.todos (OldTodos.forget_state (Todos.toggleSubtask i j st))
  = OldTodos.todos (OldTodos.forget_state st) /\
  OldTodos.todos (OldTodos.forget_state (Todos.removeSubtask i j st))
  = OldTodos.todos (OldTodos.forget_state st).
Proof.
  assert (Hid : forall x, OldTodos.has_id i (OldTodos.forget x) = Todos.has_id i x)
    by reflexivity.
  assert (Hfind : List.find (OldTodos.has_id i)
                    (List.map OldTodos.forget (Todos.todos st))
                  = option_map OldTodos.forget
                      (List.find (Todos.has_id i) (Todos.todos st))).
  { apply find_map_commute. exact Hid. }
  unfold Todos.add, OldTodos.add, Todos.toggle, OldTodos.toggle,
    Todos.update, OldTodos.update, Todos.remove, OldTodos.remove,
    Todos.addSubtask, Todos.toggleSubtask, Todos.removeSubtask.
  split; [|split; [|split; [|split; [|split; [|split]]]]].
  - destruct (negb (truthy_str (trim txt))); reflexivity.
  - simpl OldTodos.todos at 1. rewrite Hfind.
    destruct (List.find _ (Todos.todos st)); [|reflexivity]. simpl.
    unfold OldTodos.forget_state, OldTodos.save, Storage.set. simpl.
    rewrite (alter_first_map_commute OldTodos.forget _ (OldTodos.has_id i) Hid)
      with (f' := fun t => {| OldTodos.id := OldTodos.id t;
                              OldTodos.text := OldTodos.text t;
                              OldTodos.completed := negb (OldTodos.completed t);
                              OldTodos.createdAt := OldTodos.createdAt t |})
      by reflexivity.
    reflexivity.
  - destruct (negb (truthy_str (trim txt))); [reflexivity|].
    simpl OldTodos.todos at 1. rewrite Hfind.
    destruct (List.find _ (Todos.todos st)); [|reflexivity]. simpl.
    unfold OldTodos.forget_state, OldTodos.save, Storage.set. simpl.
    rewrite (alter_first_map_commute OldTodos.forget _ (OldTodos.has_id i) Hid)
      with (f' := fun t => {| OldTodos.id := OldTodos.id t;
                              OldTodos.text := trim txt;
                              OldTodos.completed := OldTodos.completed t;
                              OldTodos.createdAt := OldTodos.createdAt t |})
      by reflexivity.
    reflexivity.
  - unfold OldTodos.forget_state, OldTodos.save, Storage.set. simpl.
    now rewrite (filter_map_commute OldTodos.forget _ (OldTodos.has_id i) Hid).
  - destruct (negb (truthy_str (trim txt))); [reflexivity|].
    destruct (List.find _ (Todos.todos st)); [|reflexivity]. simpl.
    now apply TodosOpsFacts.map_alter_first.
  - destruct (List.find _ (Todos.todos st)) as [t|]; [|reflexivity].
    destruct (List.find _ (Todos.subtasks t)); [|reflexivity]. simpl.
    now apply TodosOpsFacts.map_alter_first.
  - destruct (List.find _ (Todos.todos st)); [|reflexivity]. simpl.
    now apply TodosOpsFacts.map_alter_first.
Qed.

End VersionFacts.
